(** * mapa_proposta: coordinate normalisation and row validation

    A shallow embedding of [parse_coordinate] and [carregar_dados] from
    [src/mapa_proposta.py], with the properties of the written specification
    stated and settled on it, followed by the functions that draw the map:
    [get_logo_base64], [get_marker_color], [adicionar_legenda], the breakdown
    by state of [criar_mapa_com_camadas], and [encontrar_planilha].

    - A Python [str] is a list of Unicode code points.
    - A Python [float] is a primitive binary64 [float]; literals are read with
      correct rounding, arithmetic and comparisons are the IEEE 754 ones.
    - Exceptions are explicit: a computation returns [Ok v] or [Raise e].
    - The parts of the Unicode character database that cannot be tabulated
      here (case mapping, decimal digits and alphanumerics outside ASCII) are
      a parameter [U] of the development; every theorem holds for every
      such table. *)

From Stdlib Require Import String Ascii ZArith List Bool Lia Floats.
From Stdlib Require Uint63 Sorted.
From Stdlib.Strings Require Byte.
From Stdlib Require DecimalPos DecimalFacts.
Set Warnings "-inexact-float".
Import ListNotations.
Local Open Scope Z_scope.

(** ** Strings *)

Definition char := Z.
Definition str := list char.

(** The code points of an ASCII literal. *)
Definition lit (s : string) : str :=
  map (fun a => Z.of_N (N_of_ascii a)) (list_ascii_of_string s).

Definition degree_sign : char := 176.    (* U+00B0 *)
Definition prime_mark : char := 8242.    (* U+2032 *)
Definition dprime_mark : char := 8243.   (* U+2033 *)
Definition apostrophe : char := 39.
Definition dquote : char := 34.
Definition newline : char := 10.

Definition in_range (lo hi c : Z) : bool := (lo <=? c) && (c <=? hi).

Fixpoint str_eqb (a b : str) : bool :=
  match a, b with
  | [], [] => true
  | x :: a', y :: b' => (x =? y) && str_eqb a' b'
  | _, _ => false
  end.

(** [str.isspace] on one character; also the class [\s] of [re]. *)
Definition is_space (c : char) : bool :=
  in_range 9 13 c || in_range 28 32 c || (c =? 133) || (c =? 160)
  || (c =? 5760) || in_range 8192 8202 c || (c =? 8232) || (c =? 8233)
  || (c =? 8239) || (c =? 8287) || (c =? 12288).

(** Tables outside ASCII. [upper_ext c] is [chr(c).upper()],
    [decimal_ext c] is the decimal digit value of [c] (Unicode category Nd),
    [alnum_ext c] is [chr(c).isalnum()]; each is consulted only for
    code points above 127.  A decimal digit has a value from 0 to 9 and is
    not whitespace. *)
Record Unicode := {
  upper_ext : char -> str;
  decimal_ext : char -> option Z;
  alnum_ext : char -> bool;
  decimal_ext_value : forall c d, decimal_ext c = Some d -> 0 <= d <= 9;
  decimal_ext_not_space : forall c d, decimal_ext c = Some d -> is_space c = false
}.

(** A table that knows no cased letter, digit or alphanumeric outside ASCII;
    it agrees with Python on every string made of ASCII characters and of
    the marks [degree_sign], [prime_mark], [dprime_mark]. *)
Definition ascii_only : Unicode.
Proof.
  refine {| upper_ext := fun c => [c];
            decimal_ext := fun _ => None;
            alnum_ext := fun _ => false |}; discriminate.
Defined.

(** The whitespace [float] skips once its argument is ASCII. *)
Definition is_ascii_space (c : char) : bool := in_range 9 13 c || (c =? 32).

Definition is_ascii_digit (c : char) : bool := in_range 48 57 c.

Fixpoint drop_while (p : char -> bool) (s : str) : str :=
  match s with
  | [] => []
  | c :: s' => if p c then drop_while p s' else s
  end.

Definition strip_with (p : char -> bool) (s : str) : str :=
  rev (drop_while p (rev (drop_while p s))).

(** [s.strip()] *)
Definition strip (s : str) : str := strip_with is_space s.

Fixpoint starts_with (p s : str) : bool :=
  match p, s with
  | [], _ => true
  | a :: p', b :: s' => (a =? b) && starts_with p' s'
  | _ :: _, [] => false
  end.

(** [p in s] *)
Fixpoint contains (p s : str) : bool :=
  starts_with p s ||
  match s with
  | [] => false
  | _ :: s' => contains p s'
  end.

(** [s.replace(old, new)] for a non-empty [old]: occurrences are found
    left to right and do not overlap; [skip] counts the characters of the
    occurrence being replaced that are still to be passed over. *)
Fixpoint replace_from (old new : str) (skip : nat) (s : str) : str :=
  match s with
  | [] => []
  | c :: s' =>
      match skip with
      | S k => replace_from old new k s'
      | O =>
          if starts_with old s
          then new ++ replace_from old new (Nat.pred (List.length old)) s'
          else c :: replace_from old new O s'
      end
  end.

Definition replace (old new s : str) : str := replace_from old new O s.

(** A maximal prefix of characters satisfying [p], and the rest. *)
Fixpoint span (p : char -> bool) (s : str) : str * str :=
  match s with
  | [] => ([], [])
  | c :: s' =>
      if p c then let (a, b) := span p s' in (c :: a, b) else ([], s)
  end.

(** ** Exceptions *)

Inductive exn := ValueError | TypeError | OverflowError | OtherError.

Inductive result (A : Type) :=
| Ok (a : A)
| Raise (e : exn).
Arguments Ok {A} a.
Arguments Raise {A} e.

Definition bind {A B} (r : result A) (k : A -> result B) : result B :=
  match r with
  | Ok a => k a
  | Raise e => Raise e
  end.

Notation "x <- r ;; k" := (bind r (fun x => k))
  (at level 61, r at next level, right associativity).

Fixpoint mapM {A B} (f : A -> result B) (l : list A) : result (list B) :=
  match l with
  | [] => Ok []
  | a :: l' => b <- f a ;; bs <- mapM f l' ;; Ok (b :: bs)
  end.

(** ** Floats *)

(** The binary64 number nearest to [m * 10 ^ e10] (ties to even), signed by
    [neg]; this is what [float] returns for a decimal numeral. *)
Definition float_of_decimal (neg : bool) (m e10 : Z) : float :=
  match m with
  | Zpos _ =>
      SF2Prim (SFdiv prec emax
                 (S754_finite neg (Z.to_pos (m * 10 ^ Z.max e10 0)) 0)
                 (S754_finite false (Z.to_pos (10 ^ Z.max (- e10) 0)) 0))
  | _ => if neg then neg_zero else zero
  end.

(** [float(n)] for an [int]: nearest binary64, [OverflowError] beyond. *)
Definition float_of_int (n : Z) : result float :=
  let f := float_of_decimal (n <? 0) (Z.abs n) 0 in
  if is_infinity f then Raise OverflowError else Ok f.

(** The float an [int] operand is converted to in mixed arithmetic. *)
Definition int_operand (n : Z) : float := float_of_decimal (n <? 0) (Z.abs n) 0.

Definition lower_ascii (c : char) : char :=
  if in_range 65 90 c then c + 32 else c.

Definition digits_value (ds : str) : Z :=
  fold_left (fun acc c => acc * 10 + (c - 48)) ds 0.

Definition split_sign (s : str) : bool * str :=
  match s with
  | c :: r => if c =? 45 then (true, r)
              else if c =? 43 then (false, r)
              else (false, s)
  | [] => (false, s)
  end.

(** [inf], [infinity] and [nan], in any letter case (the caller folds case). *)
Definition special_literal (s : str) : option float :=
  if str_eqb s (lit "inf") || str_eqb s (lit "infinity") then Some infinity
  else if str_eqb s (lit "nan") then Some nan
  else None.

(** What may follow the mantissa: nothing, or [e], a sign and digits. *)
Definition exponent_part (s : str) : option Z :=
  match s with
  | [] => Some 0
  | c :: r =>
      if c =? 101 then
        let (neg, ds) := split_sign r in
        match ds with
        | [] => None
        | _ => if forallb is_ascii_digit ds
               then Some (if neg then - digits_value ds else digits_value ds)
               else None
        end
      else None
  end.

(** digits [. digits] [exponent], with a digit on one side of the point at
    least; the result is the pair (mantissa, power of ten). *)
Definition numeral (s : str) : option (Z * Z) :=
  let (ip, r1) := span is_ascii_digit s in
  let (fp, r2) := match r1 with
                  | c :: r => if c =? 46 then span is_ascii_digit r
                              else ([], r1)
                  | [] => ([], r1)
                  end in
  match ip ++ fp with
  | [] => None
  | ds => match exponent_part r2 with
          | Some e => Some (digits_value ds, e - Z.of_nat (List.length fp))
          | None => None
          end
  end.

Definition float_literal (s : str) : option float :=
  let (neg, r) := split_sign s in
  match special_literal r with
  | Some f => Some (if neg then (- f)%float else f)
  | None => match numeral r with
            | Some (m, e) => Some (float_of_decimal neg m e)
            | None => None
            end
  end.

(** Underscores are accepted between two digits only, and dropped. *)
Fixpoint strip_underscores (prev : char) (s : str) : option str :=
  match s with
  | [] => if prev =? 95 then None else Some []
  | c :: s' =>
      if c =? 95 then
        if is_ascii_digit prev then strip_underscores c s' else None
      else if (prev =? 95) && negb (is_ascii_digit c) then None
      else option_map (cons c) (strip_underscores c s')
  end.

Fixpoint traverse {A B} (f : A -> option B) (l : list A) : option (list B) :=
  match l with
  | [] => Some []
  | a :: l' => match f a, traverse f l' with
               | Some b, Some bs => Some (b :: bs)
               | _, _ => None
               end
  end.

(** Python values that can reach [parse_coordinate]. [VObject r] is any other
    object, known by what its [__float__] does. *)
Inductive value :=
| VStr (s : str)
| VFloat (f : float)
| VInt (n : Z)
| VBool (b : bool)
| VNone
| VObject (conv : result float).

(** ** [str] of numbers *)

Fixpoint uint_chars (u : Decimal.uint) : str :=
  match u with
  | Decimal.Nil => []
  | Decimal.D0 u' => 48 :: uint_chars u'
  | Decimal.D1 u' => 49 :: uint_chars u'
  | Decimal.D2 u' => 50 :: uint_chars u'
  | Decimal.D3 u' => 51 :: uint_chars u'
  | Decimal.D4 u' => 52 :: uint_chars u'
  | Decimal.D5 u' => 53 :: uint_chars u'
  | Decimal.D6 u' => 54 :: uint_chars u'
  | Decimal.D7 u' => 55 :: uint_chars u'
  | Decimal.D8 u' => 56 :: uint_chars u'
  | Decimal.D9 u' => 57 :: uint_chars u'
  end.

(** The decimal digits of a natural number ([0] for zero). *)
Definition nat_digits (n : Z) : str :=
  match n with
  | Zpos p => uint_chars (Pos.to_uint p)
  | _ => [48]
  end.

(** [str(n)] for an [int]. *)
Definition int_str (n : Z) : str :=
  if n <? 0 then 45 :: nat_digits (- n) else nat_digits n.

(** A positive finite float as the fraction [num / den]. *)
Definition fraction_of (m : positive) (e : Z) : Z * Z :=
  (Zpos m * 2 ^ Z.max e 0, 2 ^ Z.max (- e) 0).

(** [10 ^ k <= num / den] *)
Definition pow10_le (num den k : Z) : bool :=
  10 ^ Z.max k 0 * den <=? num * 10 ^ Z.max (- k) 0.

(** The largest [k] not above [start] with [10 ^ k <= num / den]. *)
Fixpoint floor_log10_from (fuel : nat) (num den start : Z) : Z :=
  if pow10_le num den start then start
  else match fuel with
       | O => start
       | S fuel' => floor_log10_from fuel' num den (start - 1)
       end.

(** [floor (log10 (m * 2 ^ e))], searched downwards from an estimate that
    the number of bits of [m * 2 ^ e] puts above it
    ([1233 / 4096] approximates [log10 2]). *)
Definition floor_log10 (m : positive) (e : Z) : Z :=
  let (num, den) := fraction_of m e in
  floor_log10_from 4 num den
    ((Zpos (digits2_pos m) + e - 1) * 1233 / 4096 + 1).

Fixpoint drop_trailing_zeros (fuel : nat) (c k : Z) : Z * Z :=
  match fuel with
  | O => (c, k)
  | S fuel' => if (c mod 10 =? 0) && negb (c =? 0)
               then drop_trailing_zeros fuel' (c / 10) (k + 1)
               else (c, k)
  end.

(** The numeral [c * 10 ^ k] of [n] digits that reads back as [x] and is
    nearest to [num / den], the value of [x]; [None] if there is none.
    [e10] is [floor (log10 x)]. *)
Definition digits_candidate (x : float) (num den e10 : Z) (n : Z)
  : option (Z * Z) :=
  let k := e10 - (n - 1) in
  let p := 10 ^ Z.max (- k) 0 in
  let q := 10 ^ Z.max k 0 in
  let lo := (num * p) / (den * q) in
  let hi := lo + 1 in
  let ok c := (float_of_decimal false c k =? x)%float in
  match ok lo, ok hi with
  | true, true =>
      match 2 * num * p ?= (lo + hi) * den * q with
      | Lt => Some (lo, k)
      | Gt => Some (hi, k)
      | Eq => Some (if Z.even lo then lo else hi, k)
      end
  | true, false => Some (lo, k)
  | false, true => Some (hi, k)
  | false, false => None
  end.

(** The first length from [n] on, up to 17 digits, that has a candidate. *)
Fixpoint shortest_from (fuel : nat) (x : float) (num den e10 : Z) (n : Z)
  : Z * Z :=
  match digits_candidate x num den e10 n with
  | Some ck => ck
  | None => match fuel with
            | O => ((num * 10 ^ Z.max (- (e10 - (n - 1))) 0)
                      / (den * 10 ^ Z.max (e10 - (n - 1)) 0),
                    e10 - (n - 1))
            | S fuel' => shortest_from fuel' x num den e10 (n + 1)
            end
  end.

(** The shortest digit string that reads back as the positive finite [x],
    and the position [decpt] of the decimal point after its first digit:
    [x] is written [0.d1 d2 ... dn * 10 ^ decpt]. *)
Definition shortest_digits (x : float) : str * Z :=
  match Prim2SF x with
  | S754_finite _ m e =>
      let (num, den) := fraction_of m e in
      let (c, k) := shortest_from 16 x num den (floor_log10 m e) 1 in
      let (c, k) := drop_trailing_zeros 20 c k in
      let ds := nat_digits c in
      (ds, k + Z.of_nat (List.length ds))
  | _ => ([48], 1)
  end.

Definition zeros (n : Z) : str := repeat 48 (Z.to_nat n).

(** The exponent suffix: [e], a sign, and two digits at least. *)
Definition exponent_text (e : Z) : str :=
  let ds := nat_digits (Z.abs e) in
  101 :: (if e <? 0 then 45 else 43)
      :: (if Z.abs e <? 10 then 48 :: ds else ds).

(** The layout [repr] gives to digits [ds] with decimal point at [decpt]. *)
Definition format_repr (ds : str) (decpt : Z) : str :=
  if (decpt <=? -4) || (16 <? decpt) then
    match ds with
    | [] => []
    | [d] => d :: exponent_text (decpt - 1)
    | d :: rest => d :: 46 :: rest ++ exponent_text (decpt - 1)
    end
  else if decpt <=? 0 then
    48 :: 46 :: zeros (- decpt) ++ ds
  else if Z.of_nat (List.length ds) <=? decpt then
    ds ++ zeros (decpt - Z.of_nat (List.length ds)) ++ [46; 48]
  else
    firstn (Z.to_nat decpt) ds ++ 46 :: skipn (Z.to_nat decpt) ds.

(** [repr(x)], which is also [str(x)], for a [float]. *)
Definition float_repr (x : float) : str :=
  if is_nan x then lit "nan"
  else if is_infinity x then (if get_sign x then lit "-inf" else lit "inf")
  else if is_zero x then (if get_sign x then lit "-0.0" else lit "0.0")
  else
    let (ds, decpt) := shortest_digits (abs x) in
    (if get_sign x then [45] else []) ++ format_repr ds decpt.

(** The cell of a sheet, by the Python value read from it; [CellOther t] is
    any other object, known by the text [t] that [str] gives for it. *)
Inductive cell :=
| CellStr (s : str)
| CellFloat (f : float)
| CellInt (n : Z)
| CellBool (b : bool)
| CellOther (text : str).

(** [str(x)] *)
Definition py_str (x : cell) : str :=
  match x with
  | CellStr s => s
  | CellFloat f => float_repr f
  | CellInt n => int_str n
  | CellBool b => if b then lit "True" else lit "False"
  | CellOther text => text
  end.

Inductive cardinal := North | South | East | West.

Section WithUnicode.

Variable U : Unicode.

Definition to_upper (c : char) : str :=
  if in_range 97 122 c then [c - 32]
  else if c <? 128 then [c]
  else upper_ext U c.

(** [s.upper()] *)
Definition upper (s : str) : str := flat_map to_upper s.

Definition decimal (c : char) : option Z :=
  if is_ascii_digit c then Some (c - 48)
  else if c <? 128 then None
  else decimal_ext U c.

(** The class [\d]. *)
Definition is_digit (c : char) : bool :=
  match decimal c with Some _ => true | None => false end.

(** The class [\w]. *)
Definition is_word (c : char) : bool :=
  if c <? 128
  then is_ascii_digit c || in_range 65 90 c || in_range 97 122 c || (c =? 95)
  else alnum_ext U c.

(** [float] first rewrites its argument in ASCII: a space for each
    whitespace character, the ASCII digit for each decimal digit; any other
    character outside ASCII makes the text unreadable. *)
Definition to_ascii (c : char) : option char :=
  if c <? 127 then Some c
  else if is_space c then Some 32
  else match decimal c with
       | Some d => Some (48 + d)
       | None => None
       end.

(** [float(s)] for a [str]. *)
Definition float_of_str (s : str) : result float :=
  match traverse to_ascii s with
  | None => Raise ValueError
  | Some a =>
      match strip_underscores 0 a with
      | None => Raise ValueError
      | Some b =>
          match float_literal (map lower_ascii (strip_with is_ascii_space b)) with
          | Some f => Ok f
          | None => Raise ValueError
          end
      end
  end.

(** [float(v)] *)
Definition py_float (v : value) : result float :=
  match v with
  | VStr s => float_of_str s
  | VFloat f => Ok f
  | VInt n => float_of_int n
  | VBool b => Ok (if b then 1 else 0)%float
  | VNone => Raise TypeError
  | VObject conv => conv
  end.

(** *** The pattern [\b[NSWE]\b] *)

Definition is_word_at (o : option char) : bool :=
  match o with Some c => is_word c | None => false end.

(** [\b] between two neighbours ([None] outside the string). *)
Definition word_boundary (before after : option char) : bool :=
  xorb (is_word_at before) (is_word_at after).

Definition is_cardinal (c : char) : bool :=
  (c =? 78) || (c =? 83) || (c =? 87) || (c =? 69).

Definition cardinal_at (before : option char) (c : char) (rest : str) : bool :=
  word_boundary before (Some c) && is_cardinal c
  && word_boundary (Some c) (hd_error rest).

(** [re.search(r'\b[NSWE]\b', c).group(0)] *)
Fixpoint search_cardinal (before : option char) (s : str) : option char :=
  match s with
  | [] => None
  | c :: s' => if cardinal_at before c s' then Some c
               else search_cardinal (Some c) s'
  end.

(** [re.sub(r'\b[NSWE]\b', '', c)] *)
Fixpoint sub_cardinal (before : option char) (s : str) : str :=
  match s with
  | [] => []
  | c :: s' => if cardinal_at before c s' then sub_cardinal (Some c) s'
               else c :: sub_cardinal (Some c) s'
  end.

Definition cardinal_of_letter (c : char) : option cardinal :=
  if c =? 78 then Some North
  else if c =? 83 then Some South
  else if c =? 69 then Some East
  else if c =? 87 then Some West
  else None.

(** *** The degrees, minutes, seconds pattern

    A number with an optional minus sign, one or more of degree sign, colon
    and whitespace, a number, one or more of apostrophe, prime mark and
    whitespace, a number, an optional double quote or double prime mark, and
    the end of the string; a number is [\d+(?:\.\d+)?] and each number is a
    group.  The classes that follow one another are disjoint, so the greedy match is
    the only one and a left to right scan finds it. *)

(** [\d+] *)
Definition scan_digits (s : str) : option (str * str) :=
  let (d, r) := span is_digit s in
  match d with
  | [] => None
  | _ => Some (d, r)
  end.

(** [\d+(?:\.\d+)?], after [-?] when [signed]. *)
Definition scan_number (signed : bool) (s : str) : option (str * str) :=
  let (sg, s1) := match s with
                  | c :: r => if signed && (c =? 45) then ([c], r)
                              else ([], s)
                  | [] => ([], s)
                  end in
  match scan_digits s1 with
  | None => None
  | Some (ip, r1) =>
      match r1 with
      | c :: r2 =>
          if c =? 46 then
            match scan_digits r2 with
            | Some (fp, r3) => Some (sg ++ ip ++ c :: fp, r3)
            | None => Some (sg ++ ip, r1)
            end
          else Some (sg ++ ip, r1)
      | [] => Some (sg ++ ip, r1)
      end
  end.

(** One or more characters of a class. *)
Definition scan_class (p : char -> bool) (s : str) : option str :=
  let (a, r) := span p s in
  match a with
  | [] => None
  | _ => Some r
  end.

Definition dms_sep1 (c : char) : bool :=
  (c =? degree_sign) || (c =? 58) || is_space c.

Definition dms_sep2 (c : char) : bool :=
  (c =? apostrophe) || (c =? prime_mark) || is_space c.

(** [$]: the end of the string, or just before a final newline. *)
Definition at_end (s : str) : bool :=
  match s with
  | [] => true
  | [c] => c =? newline
  | _ => false
  end.

Definition skip_seconds_mark (s : str) : str :=
  match s with
  | q :: r => if (q =? dquote) || (q =? dprime_mark) then r else s
  | [] => s
  end.

(** The three groups of the second pattern. *)
Definition dms_groups (c : str) : option (str * str * str) :=
  match scan_number true c with
  | None => None
  | Some (g1, r1) =>
  match scan_class dms_sep1 r1 with
  | None => None
  | Some r2 =>
  match scan_number false r2 with
  | None => None
  | Some (g2, r3) =>
  match scan_class dms_sep2 r3 with
  | None => None
  | Some r4 =>
  match scan_number false r4 with
  | None => None
  | Some (g3, r5) =>
      if at_end (skip_seconds_mark r5) then Some (g1, g2, g3) else None
  end end end end end.

(** [dms_pattern.match(c)]: the same pattern without the groups. *)
Definition dms_match (c : str) : bool :=
  match dms_groups c with Some _ => true | None => false end.

(** ** [parse_coordinate] *)

Definition NORTE : str := lit "NORTE".
Definition SUL : str := lit "SUL".
Definition LESTE : str := lit "LESTE".
Definition OESTE : str := lit "OESTE".

(** [coord_str.strip().replace(',', '.').upper()] (line 27) *)
Definition normalise (coord_str : str) : str :=
  upper (replace (lit ",") (lit ".") (strip coord_str)).

(** The hemisphere found in [c], and [c] without the text that gave it
    (lines 29 to 46). *)
Definition find_hemisphere (c : str) : option cardinal * str :=
  if contains NORTE c then (Some North, replace NORTE [] c)
  else if contains SUL c then (Some South, replace SUL [] c)
  else if contains LESTE c then (Some East, replace LESTE [] c)
  else if contains OESTE c then (Some West, replace OESTE [] c)
  else match search_cardinal None c with
       | Some l => (cardinal_of_letter l, sub_cardinal None c)
       | None => (None, c)
       end.

(** The magnitude [dec] and [sign_from_number] read from [c] (lines 50 to
    70); [Ok None] where the source returns [None]. *)
Definition read_number (c : str) : result (option (float * Z)) :=
  if dms_match c then
    match dms_groups c with
    | None => Ok None
    | Some (g1, g2, g3) =>
        deg <- float_of_str g1 ;;
        mn <- float_of_str g2 ;;
        sc <- float_of_str g3 ;;
        Ok (Some ((abs deg + mn / 60 + sc / 3600)%float,
                  if (deg <? 0)%float then -1 else 1))
    end
  else
    match float_of_str c with
    | Ok dec => Ok (Some (abs dec, if (dec <? 0)%float then -1 else 1))
    | Raise ValueError => Ok None
    | Raise e => Raise e
    end.

(** The sign given to the magnitude (lines 72 to 79). *)
Definition resolve_sign (hemisphere : option cardinal)
    (sign_from_number : Z) (dec : float) : float :=
  match hemisphere with
  | Some South | Some West => (- abs dec)%float
  | Some North | Some East => abs dec
  | None =>
      let dec := (int_operand sign_from_number * dec)%float in
      if (0 <? dec)%float then (- dec)%float else dec
  end.

(** The check of the range of the axis (lines 81 to 86). *)
Definition check_range (is_latitude : bool) (dec : float) : option float :=
  if is_latitude && negb ((-90 <=? dec) && (dec <=? 90))%float then None
  else if negb is_latitude && negb ((-180 <=? dec) && (dec <=? 180))%float
       then None
  else Some dec.

(** [parse_coordinate] on a [str] (lines 27 to 86). *)
Definition parse_str (coord_str : str) (is_latitude : bool)
  : result (option float) :=
  let c := normalise coord_str in
  let (hemisphere, c) := find_hemisphere c in
  let c := strip c in
  n <- read_number c ;;
  match n with
  | None => Ok None
  | Some (dec, sign_from_number) =>
      Ok (check_range is_latitude (resolve_sign hemisphere sign_from_number dec))
  end.

(** [parse_coordinate]: anything that is not a [str] is handed to [float],
    every exception caught (lines 21 to 25). *)
Definition parse_coordinate (coord_str : value) (is_latitude : bool)
  : result (option float) :=
  match coord_str with
  | VStr s => parse_str s is_latitude
  | v => match py_float v with
         | Ok f => Ok (Some f)
         | Raise _ => Ok None
         end
  end.


(** ** [carregar_dados]

    The sheet is the list of its rows.  Of the six columns read, the two
    that no coordinate depends on and that no step below looks at (crop and
    municipality) are left out; the report printed for the removed rows is
    not modelled. *)

Record raw_row := {
  raw_NUMERO_PI : Z;
  raw_UF : cell;
  raw_Latitude : cell;
  raw_Longitude : cell
}.

(** A row of the frame once the coordinates are parsed; a missing value
    (Python [None], or NaN in the frame) is [None]. *)
Record row := {
  NUMERO_PI : Z;
  UF : str;
  Latitude : option float;
  Longitude : option float
}.

(** A row of the frame returned, with the column [Estado] added. *)
Record state_row := {
  fields : row;
  Estado : str
}.

(** One row through lines 107 to 110. *)
Definition parse_row (r : raw_row) : result row :=
  lat <- parse_coordinate (VStr (py_str (raw_Latitude r))) true ;;
  lon <- parse_coordinate (VStr (py_str (raw_Longitude r))) false ;;
  Ok {| NUMERO_PI := raw_NUMERO_PI r;
        UF := upper (strip (py_str (raw_UF r)));
        Latitude := lat;
        Longitude := lon |}.

Definition notna (x : option float) : bool :=
  match x with Some _ => true | None => false end.

(** A comparison of a column with a bound; it is false on a missing value. *)
Definition col_ge (x : option float) (b : float) : bool :=
  match x with Some v => (b <=? v)%float | None => false end.

Definition col_le (x : option float) (b : float) : bool :=
  match x with Some v => (v <=? b)%float | None => false end.

Definition in_brazil (r : row) : bool :=
  col_ge (Latitude r) (-34) && col_le (Latitude r) 5
  && col_ge (Longitude r) (-74) && col_le (Longitude r) (-34).

Definition correcoes : list (Z * (float * float)) :=
  [ (2520025827, (-21.4755, -56.1495)%float);
    (2520052513, (-22.2765, -53.1680)%float) ].

(** The row [r] after [df.loc[df["NUMERO_PI"] == pi, ["Latitude",
    "Longitude"]] = (lat, lon)]. *)
Definition set_row (c : Z * (float * float)) (r : row) : row :=
  let '(pi, (lat, lon)) := c in
  if NUMERO_PI r =? pi
  then {| NUMERO_PI := NUMERO_PI r; UF := UF r;
          Latitude := Some lat; Longitude := Some lon |}
  else r.

Definition set_coordinates (df : list row) (c : Z * (float * float))
  : list row :=
  map (set_row c) df.

Definition add_estado (r : row) : state_row :=
  {| fields := r; Estado := lit "BR" ++ UF r |}.

(** [carregar_dados], from the rows read (line 102) to the frame returned:
    parsing, the two filters (lines 114 to 119), the corrections (lines 131
    to 136) and the column [Estado] (line 138). *)
Definition carregar_dados (sheet : list raw_row) : result (list state_row) :=
  df <- mapM parse_row sheet ;;
  let df := filter (fun r => notna (Latitude r) && notna (Longitude r)) df in
  let df := filter in_brazil df in
  let df := fold_left set_coordinates correcoes df in
  Ok (map add_estado df).

(** The sheet that holds the frame returned: each coordinate is the float
    of the frame, the state code its text. *)
Definition cell_of (x : option float) : cell :=
  match x with Some v => CellFloat v | None => CellFloat nan end.

(** The row of the sheet written for a row of the frame. *)
Definition sheet_row (o : state_row) : raw_row :=
  {| raw_NUMERO_PI := NUMERO_PI (fields o);
     raw_UF := CellStr (UF (fields o));
     raw_Latitude := cell_of (Latitude (fields o));
     raw_Longitude := cell_of (Longitude (fields o)) |}.

Definition sheet_of (df : list state_row) : list raw_row :=
  map sheet_row df.

End WithUnicode.

(** ** [encontrar_planilha]

    The file system is a parameter: [glob_in d p] is
    [glob.glob(os.path.join(d, p))], a list of paths or the error raised
    (a [ValueError] for a path with a null character), and [getctime f] is
    [os.path.getctime(f)], which fails when the file cannot be examined. *)

(** The letter o with an acute accent. *)
Definition o_acute : char := 243.

Definition padroes : list str :=
  [ lit "Relatorio Gerencial*.xls";
    lit "Relatorio Gerencial*.xlsx";
    lit "Relat" ++ [o_acute] ++ lit "rio Gerencial*.xls";
    lit "Relat" ++ [o_acute] ++ lit "rio Gerencial*.xlsx" ].

(** [max(l, key=key)] after its first item: [maxitem] and [maxval] are the
    best item so far and its key; a later item replaces it when its key
    compares greater. *)
Fixpoint max_from {A} (key : A -> result float) (maxitem : A)
    (maxval : float) (l : list A) : result A :=
  match l with
  | [] => Ok maxitem
  | item :: l' =>
      val <- key item ;;
      if (maxval <? val)%float then max_from key item val l'
      else max_from key maxitem maxval l'
  end.

(** [max(l, key=key)]; it raises [ValueError] on an empty list. *)
Definition py_max {A} (key : A -> result float) (l : list A) : result A :=
  match l with
  | [] => Raise ValueError
  | item :: l' => val <- key item ;; max_from key item val l'
  end.

Section Finder.

Variable glob_in : str -> str -> result (list str).
Variable getctime : str -> result float.

(** The list [arquivos_encontrados] when the loop ends; the loop stops at
    the first pattern for which [glob] raises. *)
Definition arquivos_encontrados (diretorio : str) : result (list str) :=
  listas <- mapM (glob_in diretorio) padroes ;;
  Ok (concat listas).

Definition encontrar_planilha (diretorio : str) : result (option str) :=
  arquivos <- arquivos_encontrados diretorio ;;
  match arquivos with
  | [] => Ok None
  | _ => f <- py_max getctime arquivos ;; Ok (Some f)
  end.

End Finder.

(** ** [get_marker_color] and [adicionar_legenda]

    [s.lower()] works character by character; outside ASCII the lower case
    of a character may depend on the text around it (the final sigma), so
    the table [lower_ext] is given the text before the character, the
    character and the text after it.  [title_ext] is the title case of a
    character outside ASCII, which [capitalize] gives to the first
    character. *)

(** [a < b] for two [str]: the order of the code points, a proper prefix
    first. *)
Fixpoint str_ltb (a b : str) : bool :=
  match a, b with
  | _, [] => false
  | [], _ :: _ => true
  | x :: a', y :: b' => (x <? y) || ((x =? y) && str_ltb a' b')
  end.

(** [sorted(l)] for a list of [str]: the items in increasing order, equal
    items in the order they came. *)
Fixpoint insert_sorted (x : str) (l : list str) : list str :=
  match l with
  | [] => [x]
  | y :: l' => if str_ltb y x then y :: insert_sorted x l' else x :: l
  end.

Definition py_sorted (l : list str) : list str :=
  fold_right insert_sorted [] l.

(** [column.unique()]: the values in the order of their first appearance. *)
Fixpoint unique_from (seen : list str) (l : list str) : list str :=
  match l with
  | [] => []
  | x :: l' => if existsb (str_eqb x) seen then unique_from seen l'
               else x :: unique_from (x :: seen) l'
  end.

Definition unique (l : list str) : list str := unique_from [] l.

Section Colors.

Variable lower_ext : str -> char -> str -> str.
Variable title_ext : char -> str.

Definition lower_at (before : str) (c : char) (after : str) : str :=
  if in_range 65 90 c then [c + 32]
  else if c <? 128 then [c]
  else lower_ext before c after.

Fixpoint lower_from (before s : str) : str :=
  match s with
  | [] => []
  | c :: s' => lower_at before c s' ++ lower_from (before ++ [c]) s'
  end.

(** [s.lower()] *)
Definition lower (s : str) : str := lower_from [] s.

(** [s.capitalize()] *)
Definition capitalize (s : str) : str :=
  match s with
  | [] => []
  | c :: s' =>
      (if in_range 97 122 c then [c - 32]
       else if c <? 128 then [c]
       else title_ext c)
      ++ lower_from [c] s'
  end.

(** The crop column of the frame, from the cell read (line 106). *)
Definition normalise_cultura (x : cell) : str :=
  capitalize (strip (py_str x)).

(** [get_marker_color(row)], by the value of [row["CULTURA"]]. *)
Definition get_marker_color (CULTURA : cell) : str :=
  let cultura := lower (strip (py_str CULTURA)) in
  if contains (lit "soja") cultura then lit "DeepSkyBlue"
  else if contains (lit "milho") cultura then lit "GoldenRod"
  else if contains (lit "trigo") cultura then lit "Purple"
  else lit "black".

(** One line of the legend. *)
Definition legend_line (cor cultura : str) : str :=
  lit "<p><span style=" ++ [dquote] ++ lit "background-color: " ++ cor
  ++ lit "; display: inline-block; "
  ++ lit "width: 15px; height: 15px; margin-right: 5px; border-radius: 50%;"
  ++ [dquote] ++ lit "></span> " ++ cultura ++ lit "</p>".

(** The list [culturas] of [adicionar_legenda]. *)
Definition culturas (column : list str) : list str :=
  py_sorted (unique column).

(** The text [legend_lines] when the loop ends. *)
Definition legend_lines (column : list str) : str :=
  fold_left
    (fun acc cultura =>
       acc ++ legend_line (get_marker_color (CellStr cultura)) cultura)
    (culturas column) [].

(** [adicionar_legenda(mapa, df)], by the column [df["CULTURA"]] of
    strings: the text of the element added to the map. *)
Definition adicionar_legenda (column : list str) : str :=
  [newline]
  ++ lit "    <div style=" ++ [dquote] ++ [newline]
  ++ lit "        position: fixed;" ++ [newline]
  ++ lit "        bottom: 20px;" ++ [newline]
  ++ lit "        left: 10px;" ++ [newline]
  ++ lit "        z-index: 9999;" ++ [newline]
  ++ lit "        font-size: 12px;" ++ [newline]
  ++ lit "        background-color: white;" ++ [newline]
  ++ lit "        padding: 10px;" ++ [newline]
  ++ lit "        border: 2px solid black;" ++ [newline]
  ++ lit "        border-radius: 5px;" ++ [newline]
  ++ lit "    " ++ [dquote] ++ lit ">" ++ [newline]
  ++ lit "        <h4 style=" ++ [dquote]
  ++ lit "margin: 0 0 10px 0; text-align: center;" ++ [dquote]
  ++ lit ">Legenda</h4>" ++ [newline]
  ++ lit "        " ++ legend_lines column ++ [newline]
  ++ lit "    </div>" ++ [newline]
  ++ lit "    ".

End Colors.

(** ** [get_logo_base64]

    [bytes] read from a file are a list of [Byte.byte]; the bytes that
    [b64encode] makes and [decode] reads are given by their values. *)

Definition byte_value (b : Byte.byte) : Z := Z.of_N (Byte.to_N b).

(** The character of the base64 alphabet for a value of six bits. *)
Definition b64_char (n : Z) : Z :=
  if n <? 26 then 65 + n
  else if n <? 52 then 97 + (n - 26)
  else if n <? 62 then 48 + (n - 52)
  else if n =? 62 then 43
  else 47.

Definition b64_pad : Z := 61.

(** [base64.b64encode(data)]: each group of three bytes is written as four
    characters, a last group of one or two bytes is padded. *)
Fixpoint b64encode (data : list Byte.byte) : list Z :=
  match data with
  | [] => []
  | [a] =>
      let n := byte_value a * 16 in
      [b64_char (n / 64); b64_char (n mod 64); b64_pad; b64_pad]
  | [a; b] =>
      let n := (byte_value a * 256 + byte_value b) * 4 in
      [b64_char (n / 4096); b64_char (n / 64 mod 64); b64_char (n mod 64);
       b64_pad]
  | a :: b :: c :: rest =>
      let n := byte_value a * 65536 + byte_value b * 256 + byte_value c in
      b64_char (n / 262144) :: b64_char (n / 4096 mod 64)
      :: b64_char (n / 64 mod 64) :: b64_char (n mod 64)
      :: b64encode rest
  end.

Definition is_continuation (b : Z) : bool := in_range 128 191 b.

(** The second byte of a sequence of three or four bytes: no overlong form,
    no surrogate, nothing above U+10FFFF. *)
Definition second_of_three (b0 b1 : Z) : bool :=
  if b0 =? 224 then in_range 160 191 b1
  else if b0 =? 237 then in_range 128 159 b1
  else is_continuation b1.

Definition second_of_four (b0 b1 : Z) : bool :=
  if b0 =? 240 then in_range 144 191 b1
  else if b0 =? 244 then in_range 128 143 b1
  else is_continuation b1.

(** [data.decode('utf-8')]; a [UnicodeDecodeError] is a [ValueError]. *)
Fixpoint utf8_decode (data : list Z) : result str :=
  match data with
  | [] => Ok []
  | b0 :: r0 =>
      if b0 <? 128 then s <- utf8_decode r0 ;; Ok (b0 :: s)
      else
        match r0 with
        | [] => Raise ValueError
        | b1 :: r1 =>
            if in_range 194 223 b0 then
              if is_continuation b1
              then s <- utf8_decode r1 ;;
                   Ok ((b0 - 192) * 64 + (b1 - 128) :: s)
              else Raise ValueError
            else
              match r1 with
              | [] => Raise ValueError
              | b2 :: r2 =>
                  if in_range 224 239 b0 then
                    if second_of_three b0 b1 && is_continuation b2
                    then s <- utf8_decode r2 ;;
                         Ok ((b0 - 224) * 4096 + (b1 - 128) * 64
                             + (b2 - 128) :: s)
                    else Raise ValueError
                  else
                    match r2 with
                    | [] => Raise ValueError
                    | b3 :: r3 =>
                        if in_range 240 244 b0 && second_of_four b0 b1
                           && is_continuation b2 && is_continuation b3
                        then s <- utf8_decode r3 ;;
                             Ok ((b0 - 240) * 262144 + (b1 - 128) * 4096
                                 + (b2 - 128) * 64 + (b3 - 128) :: s)
                        else Raise ValueError
                    end
              end
        end
  end.

(** A character that base64 text is made of. *)
Definition is_b64_char (c : char) : bool :=
  in_range 65 90 c || in_range 97 122 c || in_range 48 57 c
  || (c =? 43) || (c =? 47) || (c =? 61).

Section Logo.

(** [open(path, 'rb').read()], with the error it may raise. *)
Variable read_bytes : str -> result (list Byte.byte).

Definition get_logo_base64 (path_logo : str) : result str :=
  logo_data <- read_bytes path_logo ;;
  utf8_decode (b64encode logo_data).

End Logo.

(** ** The breakdown by state of [criar_mapa_com_camadas]

    Of the frame the breakdown reads the columns [Estado] and [CULTURA],
    both of strings.  The identifier of a feature of the GeoJSON data is a
    string. *)

Record map_row := {
  row_Estado : str;
  row_CULTURA : str
}.

(** [s.split(sep)] for a non-empty [sep]: the pieces between the
    occurrences of [sep], found left to right without overlap.  [piece] is
    the piece being read and [skip] counts the characters of the occurrence
    found that are still to be passed over. *)
Fixpoint split_from (sep : str) (skip : nat) (piece s : str) : list str :=
  match s with
  | [] => [piece]
  | c :: s' =>
      match skip with
      | S k => split_from sep k piece s'
      | O =>
          if starts_with sep s
          then piece :: split_from sep (Nat.pred (List.length sep)) [] s'
          else split_from sep O (piece ++ [c]) s'
      end
  end.

Definition split (sep s : str) : list str := split_from sep O [] s.

(** [l[i]]; an [IndexError] is among the other errors. *)
Definition index {A} (l : list A) (i : nat) : result A :=
  match nth_error l i with
  | Some a => Ok a
  | None => Raise OtherError
  end.

(** The digits of an [int] literal: single underscores may stand between
    digits.  [prev] is the character before (0 at the start). *)
Fixpoint int_digits (prev : char) (s : str) : option str :=
  match s with
  | [] => if prev =? 95 then None else Some []
  | c :: s' =>
      if c =? 95 then
        if is_ascii_digit prev then int_digits c s' else None
      else if is_ascii_digit c then option_map (cons c) (int_digits c s')
      else None
  end.

(** [sum(l)] for a list of [int]. *)
Definition sum (l : list Z) : Z := fold_left Z.add l 0.

Definition a_acute : char := 225.
Definition a_tilde : char := 227.
Definition i_acute : char := 237.
Definition o_circumflex : char := 244.

Definition state_names : list (str * str) :=
  [ (lit "BRAC", lit "Acre"); (lit "BRAL", lit "Alagoas");
    (lit "BRAP", lit "Amap" ++ [a_acute]); (lit "BRAM", lit "Amazonas");
    (lit "BRBA", lit "Bahia"); (lit "BRCE", lit "Cear" ++ [a_acute]);
    (lit "BRDF", lit "Distrito Federal");
    (lit "BRES", lit "Esp" ++ [i_acute] ++ lit "rito Santo");
    (lit "BRGO", lit "Goi" ++ [a_acute] ++ lit "s");
    (lit "BRMA", lit "Maranh" ++ [a_tilde] ++ lit "o");
    (lit "BRMT", lit "Mato Grosso"); (lit "BRMS", lit "Mato Grosso do Sul");
    (lit "BRMG", lit "Minas Gerais"); (lit "BRPA", lit "Par" ++ [a_acute]);
    (lit "BRPB", lit "Para" ++ [i_acute] ++ lit "ba");
    (lit "BRPR", lit "Paran" ++ [a_acute]); (lit "BRPE", lit "Pernambuco");
    (lit "BRPI", lit "Piau" ++ [i_acute]); (lit "BRRJ", lit "Rio de Janeiro");
    (lit "BRRN", lit "Rio Grande do Norte");
    (lit "BRRS", lit "Rio Grande do Sul");
    (lit "BRRO", lit "Rond" ++ [o_circumflex] ++ lit "nia");
    (lit "BRRR", lit "Roraima"); (lit "BRSC", lit "Santa Catarina");
    (lit "BRSP", lit "S" ++ [a_tilde] ++ lit "o Paulo");
    (lit "BRSE", lit "Sergipe"); (lit "BRTO", lit "Tocantins") ].

(** [d.get(key)] for a dictionary kept as the list of its items. *)
Fixpoint lookup {A} (key : str) (d : list (str * A)) : option A :=
  match d with
  | [] => None
  | (k, v) :: d' => if str_eqb k key then Some v else lookup key d'
  end.

(** [state_names.get(estado_id, estado_id)] *)
Definition nome_estado (estado_id : str) : str :=
  match lookup estado_id state_names with
  | Some nome => nome
  | None => estado_id
  end.

Definition rows_of_state (df : list map_row) (state : str) : list map_row :=
  filter (fun r => str_eqb (row_Estado r) state) df.

(** The size of the group of a state and a crop. *)
Definition count_of (df : list map_row) (state cultura : str) : Z :=
  Z.of_nat
    (List.length
       (filter (fun r => str_eqb (row_CULTURA r) cultura)
          (rows_of_state df state))).

(** [df.groupby(['Estado', 'CULTURA']).size().reset_index(name='Count')]:
    one row for each pair of a state and a crop that the frame has, by
    increasing state and, within a state, by increasing crop. *)
Definition breakdown_group (df : list map_row) : list (str * str * Z) :=
  flat_map
    (fun state =>
       map (fun cultura => (state, cultura, count_of df state cultura))
         (py_sorted (unique (map row_CULTURA (rows_of_state df state)))))
    (py_sorted (unique (map row_Estado df))).

Definition group_Estado (g : str * str * Z) : str := fst (fst g).
Definition group_CULTURA (g : str * str * Z) : str := snd (fst g).
Definition group_Count (g : str * str * Z) : Z := snd g.

(** A line of the breakdown (line 228). *)
Definition breakdown_line (g : str * str * Z) : str :=
  group_CULTURA g ++ lit ": " ++ int_str (group_Count g).

(** [breakdown_dict], as the list of its items. *)
Definition breakdown_dict (df : list map_row) : list (str * list str) :=
  let breakdown_group := breakdown_group df in
  map
    (fun state =>
       (state,
        map breakdown_line
          (filter (fun g => str_eqb (group_Estado g) state)
             breakdown_group)))
    (unique (map group_Estado breakdown_group)).

Section Breakdown.

Variable U : Unicode.

(** [sys.get_int_max_str_digits()]: the longest text that [int] reads,
    0 where there is no limit. *)
Variable max_str_digits : Z.

(** [int(s)] for a [str]. *)
Definition int_of_str (s : str) : result Z :=
  match traverse (to_ascii U) s with
  | None => Raise ValueError
  | Some a =>
      let (negative, body) := split_sign (strip_with is_ascii_space a) in
      match int_digits 0 body with
      | None => Raise ValueError
      | Some [] => Raise ValueError
      | Some ds =>
          let digits := Z.of_nat (List.length ds) in
          if (640 <? digits) && (0 <? max_str_digits)
             && (max_str_digits <? digits)
          then Raise ValueError
          else Ok (if negative then - digits_value ds else digits_value ds)
      end
  end.

(** [int(line.split(": ")[1])] *)
Definition line_count (line : str) : result Z :=
  piece <- index (split (lit ": ") line) 1 ;;
  int_of_str piece.

(** [sum(int(line.split(": ")[1]) for line in lines)] *)
Definition total_of (lines : list str) : result Z :=
  counts <- mapM line_count lines ;;
  Ok (sum counts).

Definition table_open : str :=
  lit "<table border='1' style='border-collapse: collapse; font-size:12px;'>".

Definition table_row (line : str) : str :=
  lit "<tr><td style='padding:2px 5px;'>" ++ line ++ lit "</td></tr>".

(** The value of [feature["properties"]["observacoes"]] for a feature with
    the identifier [estado_id] (lines 241 to 258). *)
Definition observacoes (df : list map_row) (estado_id : str) : result str :=
  let nome_estado := nome_estado estado_id in
  match lookup estado_id (breakdown_dict df) with
  | Some lines =>
      total <- total_of lines ;;
      Ok (table_open
          ++ lit "<tr><th>" ++ nome_estado ++ lit " - TOTAL: "
          ++ int_str total ++ lit "</th></tr>"
          ++ flat_map table_row lines
          ++ lit "</table>")
  | None =>
      Ok (table_open
          ++ lit "<tr><td>" ++ nome_estado
          ++ lit " - Sem dados</td></tr></table>")
  end.

End Breakdown.

(** ** Vocabulary of the specification and of the proofs *)

(** The mantissa of the floats 1 and -1, whose exponent is -52. *)
Definition two52 : positive := 4503599627370496.

(** The sign of a spec float, when it has one. *)
Definition has_sign (sx : bool) (r : spec_float) : Prop :=
  match r with
  | S754_nan => True
  | S754_zero s | S754_infinity s | S754_finite s _ _ => s = sx
  end.


(** The characters of a plain number text: digits, minus sign, point. *)
Definition plain_char (c : char) : bool :=
  is_ascii_digit c || (c =? 45) || (c =? 46).

(** The characters of an unsigned decimal numeral: digits and the point. *)
Definition decimal_char (c : char) : bool :=
  is_ascii_digit c || (c =? 46).

(** The shape of the text [repr] gives to a finite float: digits, point,
    signs and the letter e, each e right after a digit.  [after_digit]
    tells whether the character before [s] is a digit. *)
Fixpoint repr_shape (after_digit : bool) (s : str) : bool :=
  match s with
  | [] => true
  | c :: s' =>
      (is_ascii_digit c || (c =? 46) || (c =? 45) || (c =? 43)
       || ((c =? 101) && after_digit))
      && repr_shape (is_ascii_digit c) s'
  end.

Definition repr_char (c : char) : bool :=
  is_ascii_digit c || (c =? 46) || (c =? 45) || (c =? 43) || (c =? 101).

(** [upper] on a character of such a text. *)
Definition repr_upper (c : char) : char := if c =? 101 then 69 else c.

Section Vocabulary.

Variable U : Unicode.

(** No hemisphere marker in the normalised text [c]: none of the four words
    as a substring, no standalone letter N, S, W or E. *)
Definition no_marker (c : str) : bool :=
  negb (contains NORTE c) && negb (contains SUL c)
  && negb (contains LESTE c) && negb (contains OESTE c)
  && match search_cardinal U None c with None => true | Some _ => false end.

(** The valid range of an axis. *)
Definition in_axis_range (is_latitude : bool) (x : float) : bool :=
  if is_latitude then ((-90 <=? x) && (x <=? 90))%float
  else ((-180 <=? x) && (x <=? 180))%float.

(** The bounding box of the region. *)
Definition in_box (lat lon : float) : bool :=
  ((-34 <=? lat) && (lat <=? 5) && (-74 <=? lon) && (lon <=? -34))%float.

(** The text of a group of the pattern: an optional minus sign, digits, and
    an optional point followed by digits. *)
Definition number_text (g : str) : Prop :=
  exists sg ip fp,
    g = sg ++ ip ++ fp /\ (sg = [] \/ sg = [45]) /\
    ip <> [] /\ forallb (is_digit U) ip = true /\
    (fp = [] \/ exists d, fp = 46 :: d /\ d <> []
                          /\ forallb (is_digit U) d = true).

(** What [parse_coordinate] returns, read as a column value. *)
Definition value_of (r : result (option float)) : option float :=
  match r with Ok o => o | Raise _ => None end.

(** The row of the frame that a row of the sheet is parsed to. *)
Definition parsed_row (r : raw_row) : row :=
  {| NUMERO_PI := raw_NUMERO_PI r;
     UF := upper U (strip (py_str (raw_UF r)));
     Latitude :=
       value_of (parse_coordinate U (VStr (py_str (raw_Latitude r))) true);
     Longitude :=
       value_of (parse_coordinate U (VStr (py_str (raw_Longitude r))) false)
  |}.

(** A row of the sheet survives the two filters. *)
Definition survives (r : raw_row) : bool :=
  (notna (Latitude (parsed_row r)) && notna (Longitude (parsed_row r)))
  && in_brazil (parsed_row r).

(** A row of the frame after every correction. *)
Definition corrected_row (r : row) : row :=
  fold_left (fun r c => set_row c r) correcoes r.

(** Both coordinates are present and inside the bounding box. *)
Definition in_region (r : row) : Prop :=
  exists lat lon, Latitude r = Some lat /\ Longitude r = Some lon
                  /\ in_box lat lon = true.

(** The text Python prints for the float [d] is read back as [d]. *)
Definition reads_back (d : float) : Prop :=
  float_of_str U (float_repr d) = Ok d.

(** Equal values in a column: both present and equal as floats. *)
Definition same_value (x y : option float) : Prop :=
  match x, y with
  | Some a, Some b => (a =? b)%float = true
  | _, _ => False
  end.

(** Two rows of a frame with the same identifier and coordinates. *)
Definition same_coordinates (o o' : state_row) : Prop :=
  NUMERO_PI (fields o) = NUMERO_PI (fields o')
  /\ same_value (Latitude (fields o)) (Latitude (fields o'))
  /\ same_value (Longitude (fields o)) (Longitude (fields o')).

(** What a run of [carregar_dados] guarantees of a row of its frame: both
    coordinates present, inside the box and inside the ranges of the axes,
    and those of the table if the identifier is in the table. *)
Definition first_run_row (r : row) : Prop :=
  exists lat lon,
    Latitude r = Some lat /\ Longitude r = Some lon
    /\ in_box lat lon = true
    /\ in_axis_range true lat = true /\ in_axis_range false lon = true
    /\ (forall tl tn, In (NUMERO_PI r, (tl, tn)) correcoes ->
                      lat = tl /\ lon = tn).

(** The row of the frame computed from a surviving row of the sheet. *)
Definition frame_row (r : raw_row) : state_row :=
  add_estado (corrected_row (parsed_row r)).

End Vocabulary.

(** ** Further vocabulary *)

(** A decimal comma read as a point. *)
Definition comma_to_point (c : char) : char := if c =? 44 then 46 else c.

(** The upper case of an ASCII letter; any other character as it is. *)
Definition ascii_upper (c : char) : char :=
  if in_range 97 122 c then c - 32 else c.

(** [a] is [b] with some elements left out, the order kept. *)
Inductive subsequence {A : Type} : list A -> list A -> Prop :=
| subsequence_nil : subsequence [] []
| subsequence_skip : forall x a b, subsequence a b -> subsequence a (x :: b)
| subsequence_keep : forall x a b,
    subsequence a b -> subsequence (x :: a) (x :: b).

(** [a < b] as a proposition. *)
Definition str_lt (a b : str) : Prop := str_ltb a b = true.

(** A text of ASCII characters. *)
Definition is_ascii (s : str) : bool := forallb (fun c => c <? 128) s.

(** Case tables for texts of ASCII characters: outside ASCII no character
    is changed. *)
Definition lower_ascii_only : str -> char -> str -> str := fun _ c _ => [c].
Definition title_ascii_only : char -> str := fun c => [c].

(** A directory with two reports, one matched by each of the first two
    patterns, and the times of their creation. *)
Definition example_glob (diretorio padrao : str) : result (list str) :=
  if str_eqb padrao (lit "Relatorio Gerencial*.xls")
  then Ok [diretorio ++ lit "/Relatorio Gerencial 1.xls"]
  else if str_eqb padrao (lit "Relatorio Gerencial*.xlsx")
  then Ok [diretorio ++ lit "/Relatorio Gerencial 2.xlsx"]
  else Ok [].

Definition example_getctime (path : str) : result float :=
  if str_eqb path (lit "dir/Relatorio Gerencial 1.xls") then Ok 1000%float
  else if str_eqb path (lit "dir/Relatorio Gerencial 2.xlsx")
  then Ok 2000%float
  else Raise OtherError.

(** A frame of three rows in two states. *)
Definition example_frame : list map_row :=
  [ {| row_Estado := lit "BRSP"; row_CULTURA := lit "Soja" |};
    {| row_Estado := lit "BRPR"; row_CULTURA := lit "Milho" |};
    {| row_Estado := lit "BRSP"; row_CULTURA := lit "Milho" |} ].

(** A row of the sheet with a latitude and a longitude in Brazil, and a row
    with an empty latitude. *)
Definition example_row : raw_row :=
  {| raw_NUMERO_PI := 7; raw_UF := CellStr (lit "sp");
     raw_Latitude := CellStr (lit "21.5 S");
     raw_Longitude := CellStr (lit "-47.25") |}.

Definition example_empty_row : raw_row :=
  {| raw_NUMERO_PI := 8; raw_UF := CellStr (lit "sp");
     raw_Latitude := CellFloat nan;
     raw_Longitude := CellStr (lit "-47.25") |}.

(** The row of the frame that [example_row] gives. *)
Definition example_frame_row : state_row :=
  {| fields := {| NUMERO_PI := 7; UF := lit "SP";
                  Latitude := Some (-21.5)%float;
                  Longitude := Some (-47.25)%float |};
     Estado := lit "BRSP" |}.

(** ** The hemisphere marker of a text

    The marker that decides the hemisphere, told from the text alone: the
    word NORTE where the text contains it, else SUL, else LESTE, else OESTE,
    and with none of the words the first of the letters N, S, W and E that
    stands alone. *)

Section Markers.

Variable U : Unicode.

(** The letter [l], found between [pre] and [post], is one of N, S, W and E
    and stands alone: the character before it and the character after it,
    if any, are not word characters. *)
Definition stands_alone (pre : str) (l : char) (post : str) : Prop :=
  is_cardinal l = true
  /\ is_word_at U (last (map Some pre) None) = false
  /\ is_word_at U (hd_error post) = false.

(** [l] is the first letter of [c] that stands alone. *)
Definition first_standalone (c : str) (l : char) : Prop :=
  exists pre post,
    c = pre ++ l :: post /\ stands_alone pre l post
    /\ forall pre' l' post',
         c = pre' ++ l' :: post' ->
         (List.length pre' < List.length pre)%nat ->
         ~ stands_alone pre' l' post'.

(** None of the four words is in [c]. *)
Definition no_word_marker (c : str) : Prop :=
  contains NORTE c = false /\ contains SUL c = false
  /\ contains LESTE c = false /\ contains OESTE c = false.

(** The hemisphere that the marker of [c] names. *)
Inductive marker (c : str) : cardinal -> Prop :=
| marker_NORTE :
    contains NORTE c = true -> marker c North
| marker_SUL :
    contains NORTE c = false -> contains SUL c = true -> marker c South
| marker_LESTE :
    contains NORTE c = false -> contains SUL c = false ->
    contains LESTE c = true -> marker c East
| marker_OESTE :
    contains NORTE c = false -> contains SUL c = false ->
    contains LESTE c = false -> contains OESTE c = true -> marker c West
| marker_N : no_word_marker c -> first_standalone c 78 -> marker c North
| marker_S : no_word_marker c -> first_standalone c 83 -> marker c South
| marker_E : no_word_marker c -> first_standalone c 69 -> marker c East
| marker_W : no_word_marker c -> first_standalone c 87 -> marker c West.

End Markers.

(** * Properties *)

(** ** Comparisons and signs of floats *)

Lemma Prim2SF_zero : Prim2SF 0 = S754_zero false.
Proof. reflexivity. Qed.

Ltac float_cases x :=
  destruct (Prim2SF x) as [[|]| [|] | |[|] ? ?]; simpl in *;
  try discriminate; try reflexivity.

Lemma opp_pos_not_pos (x : float) :
  (0 <? x)%float = true -> (0 <? - x)%float = false.
Proof.
  rewrite !ltb_spec, opp_spec, Prim2SF_zero. unfold SFltb.
  float_cases x.
Qed.

Lemma not_pos_nonpos (a x : float) :
  (a <=? x)%float = true -> (0 <? x)%float = false -> (x <=? 0)%float = true.
Proof.
  rewrite !leb_spec, ltb_spec, Prim2SF_zero. unfold SFleb, SFltb.
  float_cases x. destruct (Prim2SF a); discriminate.
Qed.

Lemma neg_abs_nonpos (a x : float) :
  (a <=? - abs x)%float = true -> (- abs x <=? 0)%float = true.
Proof.
  rewrite !leb_spec, opp_spec, abs_spec, Prim2SF_zero. unfold SFleb.
  float_cases x. destruct (Prim2SF a); discriminate.
Qed.

Lemma abs_nonneg (x b : float) :
  (abs x <=? b)%float = true -> (0 <=? abs x)%float = true.
Proof.
  rewrite !leb_spec, abs_spec, Prim2SF_zero. unfold SFleb.
  float_cases x.
Qed.

Lemma forced_not_pos (v : float) :
  (0 <? (if 0 <? v then - v else v))%float = false.
Proof.
  destruct (0 <? v)%float eqn:E; [now apply opp_pos_not_pos | exact E].
Qed.

Lemma check_range_spec (is_latitude : bool) (dec r : float) :
  check_range is_latitude dec = Some r <->
  r = dec /\ in_axis_range is_latitude dec = true.
Proof.
  unfold check_range, in_axis_range.
  destruct is_latitude; simpl.
  - destruct ((-90 <=? dec) && (dec <=? 90))%float; simpl;
      split; try discriminate; try (intros [? ?]; discriminate);
      [intros [= ->]; auto | intros [-> _]; reflexivity].
  - destruct ((-180 <=? dec) && (dec <=? 180))%float; simpl;
      split; try discriminate; try (intros [? ?]; discriminate);
      [intros [= ->]; auto | intros [-> _]; reflexivity].
Qed.

Lemma check_range_out (is_latitude : bool) (dec : float) :
  in_axis_range is_latitude dec = false -> check_range is_latitude dec = None.
Proof.
  unfold check_range, in_axis_range.
  destruct is_latitude; simpl; intros ->; reflexivity.
Qed.

Lemma in_axis_range_lower (is_latitude : bool) (x : float) :
  in_axis_range is_latitude x = true ->
  exists a, (a <=? x)%float = true.
Proof.
  unfold in_axis_range. destruct is_latitude; intros H;
    apply andb_true_iff in H as [H _]; eauto.
Qed.

Lemma in_axis_range_upper (is_latitude : bool) (x : float) :
  in_axis_range is_latitude x = true ->
  exists b, (x <=? b)%float = true.
Proof.
  unfold in_axis_range. destruct is_latitude; intros H;
    apply andb_true_iff in H as [_ H]; eauto.
Qed.

(** ** Products with 1 and -1, and signs of rounded values *)

Lemma digits2_two52 (m : positive) :
  Zpos (digits2_pos (two52 * m)) = Zpos (digits2_pos m) + 52.
Proof.
  unfold two52. cbn [Pos.mul digits2_pos].
  rewrite !Pos2Z.inj_succ. lia.
Qed.

Lemma iter_shr_two52 (m : positive) :
  iter_pos shr_1 52
    {| shr_m := Zpos (two52 * m); shr_r := false; shr_s := false |}
  = {| shr_m := Zpos m; shr_r := false; shr_s := false |}.
Proof. reflexivity. Qed.

Lemma shr_fexp_two52 (m : positive) (e : Z) :
  canonical_mantissa prec emax m e = true ->
  shr_fexp prec emax (Zpos (two52 * m)) (-52 + e) loc_Exact
  = ({| shr_m := Zpos m; shr_r := false; shr_s := false |}, e).
Proof.
  unfold canonical_mantissa. intros H. apply Z.eqb_eq in H.
  unfold shr_fexp, Zdigits2. rewrite digits2_two52.
  replace (Zpos (digits2_pos m) + 52 + (-52 + e))
    with (Zpos (digits2_pos m) + e) by lia.
  rewrite H. replace (e - (-52 + e)) with 52 by lia.
  unfold shr, shr_record_of_loc. rewrite iter_shr_two52.
  f_equal. lia.
Qed.

Lemma shr_fexp_canonical (m : positive) (e : Z) :
  canonical_mantissa prec emax m e = true ->
  shr_fexp prec emax (Zpos m) e loc_Exact
  = ({| shr_m := Zpos m; shr_r := false; shr_s := false |}, e).
Proof.
  unfold canonical_mantissa. intros H. apply Z.eqb_eq in H.
  unfold shr_fexp, Zdigits2. rewrite H, Z.sub_diag. reflexivity.
Qed.

(** A valid float times plus or minus one. *)
Lemma SFmul_unit (s0 : bool) (x : spec_float) :
  valid_binary x = true ->
  SFmul prec emax (S754_finite s0 two52 (-52)) x
  = if s0 then SFopp x else x.
Proof.
  destruct x as [s|s| |s m e]; intros V.
  - destruct s0, s; reflexivity.
  - destruct s0, s; reflexivity.
  - destruct s0; reflexivity.
  - cbn [valid_binary] in V. unfold bounded in V.
    apply andb_true_iff in V as [C B].
    unfold SFmul, binary_round_aux.
    rewrite (shr_fexp_two52 m e C).
    cbn [shr_m loc_of_shr_record round_nearest_even].
    rewrite (shr_fexp_canonical m e C). cbn [shr_m].
    rewrite B. destruct s0, s; reflexivity.
Qed.

Lemma mul_one_l (x : float) : (1 * x)%float = x.
Proof.
  apply Prim2SF_inj. rewrite mul_spec.
  change (Prim2SF 1) with (S754_finite false two52 (-52)).
  unfold SF64mul. now rewrite SFmul_unit by apply Prim2SF_valid.
Qed.

Lemma mul_neg_one_l (x : float) : (-1 * x)%float = (- x)%float.
Proof.
  apply Prim2SF_inj. rewrite mul_spec, opp_spec.
  change (Prim2SF (-1)) with (S754_finite true two52 (-52)).
  unfold SF64mul. now rewrite SFmul_unit by apply Prim2SF_valid.
Qed.

Lemma binary_round_aux_sign (sx : bool) (m e : Z) (l : location) :
  has_sign sx (binary_round_aux prec emax sx m e l).
Proof.
  unfold binary_round_aux.
  destruct (shr_fexp prec emax m e l) as [mrs' e'].
  destruct (shr_fexp prec emax _ e' loc_Exact) as [mrs'' e''].
  destruct (shr_m mrs''); [reflexivity| |exact I].
  destruct (e'' <=? emax - prec); reflexivity.
Qed.

Lemma binary_round_sign (sx : bool) (m : positive) (e : Z) :
  has_sign sx (binary_round prec emax sx m e).
Proof.
  unfold binary_round.
  destruct (shl_align m e _) as [mz ez]. apply binary_round_aux_sign.
Qed.

Lemma SFdiv_finite_sign (sx : bool) (mx my : positive) (ex ey : Z) :
  has_sign sx (SFdiv prec emax (S754_finite sx mx ex)
                 (S754_finite false my ey)).
Proof.
  unfold SFdiv.
  destruct (SFdiv_core_binary prec emax (Zpos mx) ex (Zpos my) ey)
    as [[mz ez] lz].
  rewrite xorb_false_r. apply binary_round_aux_sign.
Qed.

Lemma ldexp_of_uint63_sign (n : PrimInt63.int) (e : Z) :
  has_sign false (Prim2SF (Z.ldexp (of_uint63 n) e)).
Proof.
  rewrite Z_ldexp_spec, of_uint63_spec.
  pose proof (Uint63.to_Z_bounded n) as Hb.
  destruct (Uint63.to_Z n) as [|p|p]; [exact eq_refl| |lia].
  cbn [binary_normalize].
  pose proof (binary_round_sign false p 0) as Hs.
  destruct (binary_round prec emax false p 0) as [s|s| |s m' e'];
    cbn [SFldexp]; auto.
  cbn [has_sign] in Hs. subst s. apply binary_round_sign.
Qed.

Lemma not_pos_of_sign (x : float) :
  has_sign true (Prim2SF x) -> (0 <? x)%float = false.
Proof.
  rewrite ltb_spec, Prim2SF_zero. unfold SFltb.
  destruct (Prim2SF x) as [s|s| |s m e]; simpl; try reflexivity;
    intros ->; reflexivity.
Qed.

(** A spec float with the sign bit set is read as a float that is not
    positive. *)
Lemma SF2Prim_negative_not_pos (r : spec_float) :
  has_sign true r -> (0 <? SF2Prim r)%float = false.
Proof.
  destruct r as [s|s| |s m e]; cbn [has_sign]; intros H; subst;
    try reflexivity.
  cbn [SF2Prim]. apply not_pos_of_sign. rewrite opp_spec.
  pose proof (ldexp_of_uint63_sign (Uint63.of_Z (Zpos m)) e) as Hs.
  destruct (Prim2SF _) as [s|s| |s m' e']; cbn [has_sign SFopp] in *;
    subst; reflexivity.
Qed.

Lemma float_of_decimal_negative (m e10 : Z) :
  (0 <? float_of_decimal true m e10)%float = false.
Proof.
  unfold float_of_decimal.
  destruct m as [|p|p]; try reflexivity.
  apply SF2Prim_negative_not_pos, SFdiv_finite_sign.
Qed.

(** Negating the magnitude of a float that is below zero gives it back. *)
Lemma opp_abs_negative (x : float) :
  (x <? 0)%float = true -> (- abs x)%float = x.
Proof.
  rewrite ltb_spec, Prim2SF_zero. unfold SFltb. intros H.
  apply Prim2SF_inj. rewrite opp_spec, abs_spec.
  destruct (Prim2SF x) as [[|]|[|]| |[|] m e]; simpl in *;
    try discriminate; reflexivity.
Qed.

(** A float in a range that is neither below nor above zero is a zero. *)
Lemma abs_of_zero (a x : float) :
  (a <=? x)%float = true -> (x <? 0)%float = false ->
  (0 <? x)%float = false ->
  abs x = 0%float /\ (0 =? x)%float = true /\ (x =? 0)%float = true.
Proof.
  rewrite leb_spec, !ltb_spec, !eqb_spec, Prim2SF_zero.
  unfold SFleb, SFltb, SFeqb. intros Ha H1 H2.
  assert (Hz : exists s, Prim2SF x = S754_zero s).
  { destruct (Prim2SF x) as [s|[|]| |[|] m e]; simpl in *;
      try discriminate; eauto.
    destruct (Prim2SF a); discriminate. }
  destruct Hz as [s Hz]. repeat split.
  - apply Prim2SF_inj. rewrite abs_spec, Hz. reflexivity.
  - rewrite Hz. reflexivity.
  - rewrite Hz. reflexivity.
Qed.

Lemma eqb_refl_ranged (a x : float) :
  (a <=? x)%float = true -> (x =? x)%float = true.
Proof.
  rewrite leb_spec, eqb_spec. unfold SFleb, SFeqb.
  destruct (Prim2SF x) as [[|]|[|]| |[|] m e]; simpl; try reflexivity.
  - destruct (Prim2SF a); discriminate.
  - intros _. rewrite Z.compare_refl.
    now rewrite Pos.compare_cont_refl.
  - intros _. rewrite Z.compare_refl.
    now rewrite Pos.compare_cont_refl.
Qed.

Lemma Prim2SF_minus_34 :
  Prim2SF (-34) = S754_finite true 4785074604081152 (-47).
Proof. vm_compute. reflexivity. Qed.

(** A float at most -34 is below zero. *)
Lemma below_minus_34 (x : float) :
  (x <=? -34)%float = true ->
  (x <? 0)%float = true /\ (0 <? x)%float = false.
Proof.
  rewrite leb_spec, !ltb_spec, Prim2SF_zero, Prim2SF_minus_34.
  unfold SFleb, SFltb.
  destruct (Prim2SF x) as [[|]|[|]| |[|] m e]; cbn [SFcompare];
    try discriminate; auto.
Qed.

(** ** Lists of characters *)

Lemma span_app (p : char -> bool) (s : str) :
  fst (span p s) ++ snd (span p s) = s.
Proof.
  induction s as [|c s IH]; simpl; [reflexivity|].
  destruct (p c); [|reflexivity].
  destruct (span p s); simpl in *. now rewrite IH.
Qed.

Lemma span_all (p : char -> bool) (s : str) :
  forallb p (fst (span p s)) = true.
Proof.
  induction s as [|c s IH]; simpl; [reflexivity|].
  destruct (p c) eqn:E; [|reflexivity].
  destruct (span p s); simpl in *. now rewrite E.
Qed.

Lemma span_prefix (p : char -> bool) (a r : str) :
  forallb p a = true ->
  match r with [] => True | c :: _ => p c = false end ->
  span p (a ++ r) = (a, r).
Proof.
  intros Ha Hr. induction a as [|c a IH]; simpl in *.
  - destruct r as [|c r]; [reflexivity|]. simpl. now rewrite Hr.
  - apply andb_true_iff in Ha as [-> Ha]. now rewrite IH.
Qed.

Lemma span_none (p : char -> bool) (s : str) :
  forallb (fun c => negb (p c)) s = true -> span p s = ([], s).
Proof.
  destruct s as [|c s]; simpl; [reflexivity|].
  intros H. apply andb_true_iff in H as [H _].
  apply negb_true_iff in H. now rewrite H.
Qed.

Lemma drop_while_none (p : char -> bool) (s : str) :
  forallb (fun c => negb (p c)) s = true -> drop_while p s = s.
Proof.
  destruct s as [|c s]; simpl; [reflexivity|].
  intros H. apply andb_true_iff in H as [H _].
  apply negb_true_iff in H. now rewrite H.
Qed.

Lemma forallb_rev {A} (p : A -> bool) (l : list A) :
  forallb p (rev l) = forallb p l.
Proof.
  induction l as [|a l IH]; simpl; [reflexivity|].
  rewrite forallb_app, IH. simpl. rewrite andb_true_r. apply andb_comm.
Qed.

Lemma strip_with_none (p : char -> bool) (s : str) :
  forallb (fun c => negb (p c)) s = true -> strip_with p s = s.
Proof.
  intros H. unfold strip_with.
  rewrite (drop_while_none p s H).
  rewrite drop_while_none by now rewrite forallb_rev.
  apply rev_involutive.
Qed.

Lemma forallb_impl {A} (p q : A -> bool) (l : list A) :
  (forall a, p a = true -> q a = true) ->
  forallb p l = true -> forallb q l = true.
Proof.
  intros Hpq. induction l as [|a l IH]; simpl; [reflexivity|].
  intros H. apply andb_true_iff in H as [Ha Hl].
  now rewrite (Hpq a Ha), IH.
Qed.

Lemma map_id_on {A} (f : A -> A) (p : A -> bool) (l : list A) :
  (forall a, p a = true -> f a = a) ->
  forallb p l = true -> map f l = l.
Proof.
  intros Hf. induction l as [|a l IH]; simpl; [reflexivity|].
  intros H. apply andb_true_iff in H as [Ha Hl].
  now rewrite (Hf a Ha), IH.
Qed.

Lemma strip_underscores_none (s : str) (prev : char) :
  prev <> 95 ->
  forallb (fun c => negb (c =? 95)) s = true ->
  strip_underscores prev s = Some s.
Proof.
  revert prev. induction s as [|c s IH]; simpl; intros prev Hp H.
  - apply Z.eqb_neq in Hp. now rewrite Hp.
  - apply andb_true_iff in H as [Hc Hs].
    apply negb_true_iff in Hc. rewrite Hc.
    apply Z.eqb_neq in Hp. rewrite Hp. simpl.
    rewrite IH; [reflexivity | now apply Z.eqb_neq | exact Hs].
Qed.

(** ** Reading the text of a number *)

Lemma traverse_app {A B} (f : A -> option B) (a b : list A) :
  traverse f (a ++ b) =
  match traverse f a, traverse f b with
  | Some x, Some y => Some (x ++ y)
  | _, _ => None
  end.
Proof.
  induction a as [|c a IH]; simpl.
  - now destruct (traverse f b).
  - destruct (f c); [|reflexivity]. rewrite IH.
    destruct (traverse f a), (traverse f b); reflexivity.
Qed.

Lemma ascii_digit_cases (c : char) :
  is_ascii_digit c = true ->
  c = 48 \/ c = 49 \/ c = 50 \/ c = 51 \/ c = 52 \/ c = 53 \/ c = 54
  \/ c = 55 \/ c = 56 \/ c = 57.
Proof.
  unfold is_ascii_digit, in_range. intros H.
  apply andb_true_iff in H as [H1 H2]. lia.
Qed.

Ltac digit_cases c H :=
  destruct (ascii_digit_cases c H)
    as [->|[->|[->|[->|[->|[->|[->|[->|[->| ->]]]]]]]]].

Lemma split_sign_digit (c : char) (r : str) :
  is_ascii_digit c = true -> split_sign (c :: r) = (false, c :: r).
Proof. intros H. digit_cases c H; reflexivity. Qed.

Lemma special_literal_digit (c : char) (r : str) :
  is_ascii_digit c = true -> special_literal (c :: r) = None.
Proof. intros H. digit_cases c H; reflexivity. Qed.

Lemma numeral_plain (ip fp : str) :
  ip <> [] -> forallb is_ascii_digit ip = true ->
  (fp = [] \/ exists d, fp = 46 :: d /\ forallb is_ascii_digit d = true) ->
  exists me, numeral (ip ++ fp) = Some me.
Proof.
  intros Hne Hip Hfp. unfold numeral.
  rewrite (span_prefix is_ascii_digit ip fp Hip).
  2:{ destruct Hfp as [->|[d [-> _]]]; [exact I | reflexivity]. }
  destruct Hfp as [->|[d [-> Hd]]].
  - rewrite app_nil_r. destruct ip; [contradiction|]. simpl. eauto.
  - change (46 =? 46) with true. cbv iota.
    pose proof (span_prefix is_ascii_digit d [] Hd I) as Hs.
    rewrite app_nil_r in Hs. rewrite Hs.
    destruct ip; [contradiction|]. simpl. eauto.
Qed.

Lemma float_literal_plain (sg ip fp : str) :
  (sg = [] \/ sg = [45]) ->
  ip <> [] -> forallb is_ascii_digit ip = true ->
  (fp = [] \/ exists d, fp = 46 :: d /\ forallb is_ascii_digit d = true) ->
  exists f, float_literal (sg ++ ip ++ fp) = Some f.
Proof.
  intros Hsg Hne Hip Hfp.
  destruct (numeral_plain ip fp Hne Hip Hfp) as [[m e] Hn].
  destruct ip as [|c ip]; [contradiction|].
  simpl in Hip. apply andb_true_iff in Hip as [Hc Hip].
  unfold float_literal.
  destruct Hsg as [->| ->]; simpl app.
  - rewrite (split_sign_digit c _ Hc). cbv beta iota.
    rewrite (special_literal_digit c _ Hc).
    simpl app in Hn. rewrite Hn. eauto.
  - change (split_sign (45 :: c :: ip ++ fp)) with (true, c :: ip ++ fp).
    cbv beta iota. rewrite (special_literal_digit c _ Hc).
    simpl app in Hn. rewrite Hn. eauto.
Qed.

Lemma plain_not_underscore (c : char) :
  plain_char c = true -> negb (c =? 95) = true.
Proof. unfold plain_char, is_ascii_digit, in_range. lia. Qed.

Lemma plain_not_ascii_space (c : char) :
  plain_char c = true -> negb (is_ascii_space c) = true.
Proof.
  unfold plain_char, is_ascii_space, is_ascii_digit, in_range. lia.
Qed.

Lemma plain_lower (c : char) :
  plain_char c = true -> lower_ascii c = c.
Proof.
  unfold plain_char, lower_ascii, is_ascii_digit, in_range. intros H.
  destruct ((65 <=? c) && (c <=? 90)) eqn:E; [lia | reflexivity].
Qed.

Section Numbers.

Variable U : Unicode.

Lemma to_ascii_digit (c : char) :
  is_digit U c = true ->
  exists a, to_ascii U c = Some a /\ is_ascii_digit a = true.
Proof.
  unfold is_digit, to_ascii, decimal. intros H.
  destruct (is_ascii_digit c) eqn:Ed.
  - assert ((c <? 127) = true) as ->
      by (unfold is_ascii_digit, in_range in Ed; lia).
    eauto.
  - destruct (c <? 128) eqn:E128; [discriminate|].
    assert ((c <? 127) = false) as -> by lia.
    destruct (decimal_ext U c) as [d|] eqn:Ec; [|discriminate].
    rewrite (decimal_ext_not_space U c d Ec).
    exists (48 + d). split; [reflexivity|].
    pose proof (decimal_ext_value U c d Ec).
    unfold is_ascii_digit, in_range. lia.
Qed.

Lemma traverse_to_ascii_digits (ds : str) :
  forallb (is_digit U) ds = true ->
  exists ds', traverse (to_ascii U) ds = Some ds'
              /\ forallb is_ascii_digit ds' = true
              /\ (ds <> [] -> ds' <> []).
Proof.
  induction ds as [|c ds IH]; simpl; intros H.
  - exists []. repeat split; auto.
  - apply andb_true_iff in H as [Hc Hds].
    destruct (to_ascii_digit c Hc) as [a [-> Ha]].
    destruct (IH Hds) as [ds' [-> [Hall _]]].
    exists (a :: ds'). simpl. rewrite Ha, Hall.
    repeat split; auto. discriminate.
Qed.

Lemma scan_digits_spec (s d r : str) :
  scan_digits U s = Some (d, r) ->
  s = d ++ r /\ d <> [] /\ forallb (is_digit U) d = true.
Proof.
  unfold scan_digits.
  pose proof (span_app (is_digit U) s) as Happ.
  pose proof (span_all (is_digit U) s) as Hall.
  destruct (span (is_digit U) s) as [a b]; simpl in *.
  destruct a as [|c a]; [discriminate|].
  intros [= <- <-]. repeat split; auto. discriminate.
Qed.

Lemma scan_number_text (signed : bool) (s g r : str) :
  scan_number U signed s = Some (g, r) -> number_text U g /\ s = g ++ r.
Proof.
  unfold scan_number.
  set (pre := match s with
              | c :: r0 => if signed && (c =? 45) then ([c], r0) else ([], s)
              | [] => ([], s)
              end).
  assert (Hpre : (fst pre = [] \/ fst pre = [45]) /\ s = fst pre ++ snd pre).
  { subst pre. destruct s as [|c r0]; simpl; [auto|].
    destruct (signed && (c =? 45)) eqn:E; simpl; [|auto].
    apply andb_true_iff in E as [_ E]. apply Z.eqb_eq in E. subst. auto. }
  destruct pre as [sg s1]; simpl in Hpre. destruct Hpre as [Hsg ->].
  destruct (scan_digits U s1) as [[ip r1]|] eqn:E1; [|discriminate].
  apply scan_digits_spec in E1 as [-> [Hne Hip]].
  destruct r1 as [|c r2].
  - intros [= <- <-]. split; [|now rewrite <- !app_assoc].
    exists sg, ip, []. rewrite app_nil_r. repeat split; auto.
  - destruct (c =? 46) eqn:Ec.
    + apply Z.eqb_eq in Ec. subst c.
      destruct (scan_digits U r2) as [[fp r3]|] eqn:E2.
      * apply scan_digits_spec in E2 as [-> [Hne2 Hfp]].
        intros [= <- <-]. split.
        -- exists sg, ip, (46 :: fp). repeat split; auto.
           right. exists fp. auto.
        -- now rewrite <- !app_assoc.
      * intros [= <- <-]. split; [|now rewrite <- app_assoc].
        exists sg, ip, []. rewrite app_nil_r. repeat split; auto.
    + intros [= <- <-]. split; [|now rewrite <- app_assoc].
      exists sg, ip, []. rewrite app_nil_r. repeat split; auto.
Qed.

Lemma to_ascii_low (c : char) : (c <? 127) = true -> to_ascii U c = Some c.
Proof. unfold to_ascii. now intros ->. Qed.

(** [float] never fails on the text of a group. *)
Lemma float_of_number_text (g : str) :
  number_text U g -> exists f, float_of_str U g = Ok f.
Proof.
  intros (sg & ip & fp & -> & Hsg & Hne & Hip & Hfp).
  destruct (traverse_to_ascii_digits ip Hip) as (ip' & Tip & Aip & Nip).
  assert (Tsg : traverse (to_ascii U) sg = Some sg)
    by (destruct Hsg as [->| ->]; reflexivity).
  assert (Tfp : exists fp', traverse (to_ascii U) fp = Some fp' /\
             (fp' = [] \/ exists d, fp' = 46 :: d
                                    /\ forallb is_ascii_digit d = true)).
  { destruct Hfp as [->|(d & -> & _ & Hd)].
    - exists []. auto.
    - destruct (traverse_to_ascii_digits d Hd) as (d' & Td & Ad & _).
      exists (46 :: d'). cbn [traverse]. rewrite (to_ascii_low 46 eq_refl), Td.
      split; [reflexivity|]. right. eauto. }
  destruct Tfp as (fp' & Tfp & Hfp').
  unfold float_of_str.
  rewrite !traverse_app, Tsg, Tip, Tfp.
  assert (Hplain : forallb plain_char (sg ++ ip' ++ fp') = true).
  { rewrite !forallb_app. apply andb_true_iff. split; [|apply andb_true_iff; split].
    - destruct Hsg as [->| ->]; reflexivity.
    - apply (forallb_impl is_ascii_digit); [|exact Aip].
      intros a Ha. unfold plain_char. now rewrite Ha.
    - destruct Hfp' as [->|(d & -> & Hd)]; [reflexivity|]. simpl.
      apply (forallb_impl is_ascii_digit); [|exact Hd].
      intros a Ha. unfold plain_char. now rewrite Ha. }
  rewrite strip_underscores_none.
  2: discriminate.
  2:{ apply (forallb_impl plain_char); [apply plain_not_underscore | exact Hplain]. }
  rewrite strip_with_none.
  2:{ apply (forallb_impl plain_char); [apply plain_not_ascii_space | exact Hplain]. }
  rewrite (map_id_on lower_ascii plain_char _ plain_lower Hplain).
  destruct (float_literal_plain sg ip' fp' Hsg (Nip Hne) Aip Hfp') as [f ->].
  eauto.
Qed.

End Numbers.

(** ** The parser *)

Section ParserProperties.

Variable U : Unicode.

Lemma float_of_str_raises (s : str) (e : exn) :
  float_of_str U s = Raise e -> e = ValueError.
Proof.
  unfold float_of_str.
  destruct (traverse (to_ascii U) s) as [a|]; [|now intros [= <-]].
  destruct (strip_underscores 0 a) as [b|]; [|now intros [= <-]].
  destruct (float_literal _); [discriminate | now intros [= <-]].
Qed.

Lemma dms_groups_text (c g1 g2 g3 : str) :
  dms_groups U c = Some (g1, g2, g3) ->
  number_text U g1 /\ number_text U g2 /\ number_text U g3.
Proof.
  unfold dms_groups.
  destruct (scan_number U true c) as [[a1 r1]|] eqn:E1; [|discriminate].
  destruct (scan_class (dms_sep1) r1) as [r2|]; [|discriminate].
  destruct (scan_number U false r2) as [[a2 r3]|] eqn:E2; [|discriminate].
  destruct (scan_class (dms_sep2) r3) as [r4|]; [|discriminate].
  destruct (scan_number U false r4) as [[a3 r5]|] eqn:E3; [|discriminate].
  destruct (at_end (skip_seconds_mark r5)); [|discriminate].
  intros [= <- <- <-].
  apply scan_number_text in E1 as [H1 _].
  apply scan_number_text in E2 as [H2 _].
  apply scan_number_text in E3 as [H3 _].
  auto.
Qed.

(** The value read in the degrees, minutes, seconds form. *)
Lemma read_number_dms (c g1 g2 g3 : str) :
  dms_groups U c = Some (g1, g2, g3) ->
  exists deg mn sc,
    float_of_str U g1 = Ok deg /\ float_of_str U g2 = Ok mn /\
    float_of_str U g3 = Ok sc /\
    read_number U c =
      Ok (Some ((abs deg + mn / 60 + sc / 3600)%float,
                if (deg <? 0)%float then -1 else 1)).
Proof.
  intros H. destruct (dms_groups_text _ _ _ _ H) as (T1 & T2 & T3).
  destruct (float_of_number_text U g1 T1) as [deg Hd].
  destruct (float_of_number_text U g2 T2) as [mn Hm].
  destruct (float_of_number_text U g3 T3) as [sc Hs].
  exists deg, mn, sc. repeat split; auto.
  unfold read_number, dms_match. rewrite H, Hd, Hm, Hs. reflexivity.
Qed.

Lemma read_number_total (c : str) : exists n, read_number U c = Ok n.
Proof.
  destruct (dms_groups U c) as [[[g1 g2] g3]|] eqn:E.
  - destruct (read_number_dms _ _ _ _ E) as (deg & mn & sc & _ & _ & _ & ->).
    eauto.
  - unfold read_number, dms_match. rewrite E.
    destruct (float_of_str U c) as [dec|e] eqn:F; [eauto|].
    rewrite (float_of_str_raises _ _ F). eauto.
Qed.

Lemma parse_str_unfold (s : str) (is_latitude : bool) :
  parse_str U s is_latitude =
  (n <- read_number U (strip (snd (find_hemisphere U (normalise U s)))) ;;
   match n with
   | None => Ok None
   | Some (dec, sign_from_number) =>
       Ok (check_range is_latitude
             (resolve_sign (fst (find_hemisphere U (normalise U s)))
                sign_from_number dec))
   end).
Proof.
  unfold parse_str. now destruct (find_hemisphere U (normalise U s)).
Qed.

Lemma parse_str_total (s : str) (is_latitude : bool) :
  exists o, parse_str U s is_latitude = Ok o.
Proof.
  rewrite parse_str_unfold.
  destruct (read_number_total
              (strip (snd (find_hemisphere U (normalise U s))))) as [n ->].
  simpl. destruct n as [[dec sgn]|]; eauto.
Qed.

Lemma find_hemisphere_no_marker (c : str) :
  no_marker U c = true -> find_hemisphere U c = (None, c).
Proof.
  unfold no_marker, find_hemisphere. intros H.
  repeat (apply andb_true_iff in H as [H ?]).
  repeat match goal with
         | E : negb _ = true |- _ => apply negb_true_iff in E; rewrite E
         end.
  destruct (search_cardinal U None c); [discriminate | reflexivity].
Qed.

(** What a successful parse of a string is made of. *)
Lemma parse_str_some (s : str) (is_latitude : bool) (r : float) :
  parse_str U s is_latitude = Ok (Some r) ->
  exists dec sgn,
    read_number U (strip (snd (find_hemisphere U (normalise U s))))
      = Ok (Some (dec, sgn)) /\
    r = resolve_sign (fst (find_hemisphere U (normalise U s))) sgn dec /\
    in_axis_range is_latitude r = true.
Proof.
  rewrite parse_str_unfold.
  destruct (read_number U _) as [[[dec sgn]|]|e]; simpl; try discriminate.
  intros [= H]. apply check_range_spec in H as [-> H].
  exists dec, sgn. auto.
Qed.

(** C9 (malformed-input robustness): [parse_coordinate] raises on no input,
    string or not; it returns a float or [None].  The empty string, a text
    that is no number and [None] itself give [None]. *)
Theorem parse_coordinate_total :
  (forall (v : value) (is_latitude : bool),
      exists o, parse_coordinate U v is_latitude = Ok o)
  /\ parse_coordinate U (VStr []) true = Ok None
  /\ parse_coordinate U (VStr (lit "abc")) true = Ok None
  /\ parse_coordinate U VNone true = Ok None
  /\ parse_coordinate U (VObject (Raise OtherError)) false = Ok None.
Proof.
  split; [|repeat split; vm_compute; reflexivity].
  intros v is_latitude. destruct v as [s|f|n|b| |conv]; simpl.
  - apply parse_str_total.
  - eauto.
  - destruct (float_of_int n); eauto.
  - eauto.
  - eauto.
  - destruct conv; eauto.
Qed.

(** C1 (regional default): with no hemisphere marker in the text, the sign
    read from the number is applied to the magnitude and a result that is
    still positive is negated, so that no value returned is positive;
    ["21.4755"] and ["-21.4755"] both give [-21.4755] as a latitude. *)
Theorem regional_default (s : str) (is_latitude : bool) :
  no_marker U (normalise U s) = true ->
  parse_coordinate U (VStr s) is_latitude =
    (n <- read_number U (strip (normalise U s)) ;;
     match n with
     | None => Ok None
     | Some (dec, sign_from_number) =>
         let v := (int_operand sign_from_number * dec)%float in
         Ok (check_range is_latitude
               (if (0 <? v)%float then (- v)%float else v))
     end)
  /\ (forall r, parse_coordinate U (VStr s) is_latitude = Ok (Some r) ->
                (0 <? r)%float = false /\ (r <=? 0)%float = true)
  /\ parse_coordinate U (VStr (lit "21.4755")) true
     = Ok (Some (-21.4755)%float)
  /\ parse_coordinate U (VStr (lit "-21.4755")) true
     = Ok (Some (-21.4755)%float).
Proof.
  intros H. apply find_hemisphere_no_marker in H.
  split; [|split; [|split; vm_compute; reflexivity]].
  - simpl. rewrite parse_str_unfold, H. reflexivity.
  - intros r Hr. simpl in Hr.
    apply parse_str_some in Hr as (dec & sgn & _ & -> & Hin).
    rewrite H in *. simpl in *.
    pose proof (forced_not_pos (int_operand sgn * dec)) as Hn.
    split; [exact Hn|].
    destruct (in_axis_range_lower _ _ Hin) as [a Ha].
    exact (not_pos_nonpos _ _ Ha Hn).
Qed.

(** C3, as amended (range validation): a value returned for a string lies
    in [-90, 90] for a latitude and in [-180, 180] for a longitude, and a
    string whose value falls outside gives [None], as ["95.0"] does for a
    latitude and ["200.0"] for a longitude; an input that is not a string is
    returned as [float] converts it, with no check of the range. *)
Theorem range_validation (s : str) (is_latitude : bool) (r : float) :
  parse_coordinate U (VStr s) is_latitude = Ok (Some r) ->
  in_axis_range is_latitude r = true
  /\ (forall s' lat' dec sgn,
        read_number U (strip (snd (find_hemisphere U (normalise U s'))))
          = Ok (Some (dec, sgn)) ->
        in_axis_range lat'
          (resolve_sign (fst (find_hemisphere U (normalise U s'))) sgn dec)
          = false ->
        parse_coordinate U (VStr s') lat' = Ok None)
  /\ parse_coordinate U (VStr (lit "95.0")) true = Ok None
  /\ parse_coordinate U (VStr (lit "200.0")) false = Ok None
  /\ (forall f lat', parse_coordinate U (VFloat f) lat' = Ok (Some f))
  /\ (forall n lat', parse_coordinate U (VInt n) lat' =
                     match float_of_int n with
                     | Ok f => Ok (Some f)
                     | Raise _ => Ok None
                     end).
Proof.
  intros Hr. simpl in Hr.
  apply parse_str_some in Hr as (dec & sgn & _ & -> & Hin).
  split; [exact Hin|].
  split; [|repeat split; vm_compute; reflexivity].
  intros s' lat' dec' sgn' Hn Hout. simpl.
  rewrite parse_str_unfold, Hn. simpl.
  now rewrite (check_range_out _ _ Hout).
Qed.

(** The hemisphere found: the first of the words NORTE, SUL, LESTE, OESTE
    that the text contains, or else the first letter that stands alone. *)
Lemma find_hemisphere_found (c : str) :
  (contains NORTE c = true -> fst (find_hemisphere U c) = Some North)
  /\ (contains NORTE c = false -> contains SUL c = true ->
      fst (find_hemisphere U c) = Some South)
  /\ (contains NORTE c = false -> contains SUL c = false ->
      contains LESTE c = true -> fst (find_hemisphere U c) = Some East)
  /\ (contains NORTE c = false -> contains SUL c = false ->
      contains LESTE c = false -> contains OESTE c = true ->
      fst (find_hemisphere U c) = Some West)
  /\ (forall l, contains NORTE c = false -> contains SUL c = false ->
      contains LESTE c = false -> contains OESTE c = false ->
      search_cardinal U None c = Some l ->
      fst (find_hemisphere U c) = cardinal_of_letter l).
Proof.
  unfold find_hemisphere. repeat split.
  - now intros ->.
  - now intros -> ->.
  - now intros -> -> ->.
  - now intros -> -> -> ->.
  - now intros l -> -> -> -> ->.
Qed.



Lemma starts_with_app_short (p u v : str) :
  (List.length p <= List.length u)%nat ->
  starts_with p (u ++ v) = starts_with p u.
Proof.
  revert u. induction p as [|a p IH]; intros [|b u]; simpl; intros H;
    try reflexivity; try lia.
  rewrite IH by lia. reflexivity.
Qed.

Lemma starts_with_self (l b : str) : starts_with l (l ++ b) = true.
Proof.
  induction l as [|c l IH]; simpl; [reflexivity|].
  now rewrite Z.eqb_refl.
Qed.

Lemma replace_from_skip (old new l b : str) :
  replace_from old new (List.length l) (l ++ b) = replace_from old new O b.
Proof.
  induction l as [|x l IH]; simpl; [reflexivity | exact IH].
Qed.

(** The first occurrence of [old] is the one replaced first. *)
Lemma replace_first (old new a b : str) :
  old <> [] ->
  contains old (a ++ removelast old) = false ->
  replace old new (a ++ old ++ b) = a ++ new ++ replace old new b.
Proof.
  intros Hne. unfold replace.
  induction a as [|x a IH]; intros H.
  - destruct old as [|o old]; [contradiction|].
    cbn [app replace_from].
    change (o :: old ++ b) with ((o :: old) ++ b).
    rewrite starts_with_self.
    change ((o :: old) ++ b) with (o :: old ++ b). cbv iota.
    f_equal. cbn [List.length Nat.pred]. apply replace_from_skip.
  - cbn [app contains] in H. apply orb_false_iff in H as [H1 H2].
    cbn [app replace_from].
    assert (starts_with old (x :: a ++ old ++ b) = false) as ->.
    { rewrite <- H1.
      assert (L : List.length old
                  = (List.length (removelast old) + 1)%nat).
      { rewrite (app_removelast_last 0 Hne) at 1.
        rewrite length_app. reflexivity. }
      assert (E : x :: a ++ old ++ b
                  = (x :: a ++ removelast old) ++ [last old 0] ++ b).
      { rewrite (app_removelast_last 0 Hne) at 1.
        cbn [app]. now rewrite <- !app_assoc. }
      rewrite E. apply starts_with_app_short.
      cbn [List.length]. rewrite length_app. lia. }
    f_equal. apply IH, H2.
Qed.

Lemma is_cardinal_word (c : char) : is_cardinal c = true -> is_word U c = true.
Proof.
  unfold is_cardinal. intros H.
  assert (c = 78 \/ c = 83 \/ c = 87 \/ c = 69) as [->|[->|[->| ->]]] by lia;
    reflexivity.
Qed.

Lemma cardinal_at_spec (before : option char) (c : char) (rest : str) :
  cardinal_at U before c rest = true <->
  is_cardinal c = true /\ is_word_at U before = false
  /\ is_word_at U (hd_error rest) = false.
Proof.
  unfold cardinal_at, word_boundary.
  destruct (is_cardinal c) eqn:E.
  - cbn [is_word_at]. rewrite (is_cardinal_word c E).
    destruct (is_word_at U before), (is_word_at U (hd_error rest)); simpl;
      intuition congruence.
  - rewrite andb_false_r. simpl. intuition congruence.
Qed.

Lemma last_default {A} (l : list A) (x d d' : A) :
  last (x :: l) d = last (x :: l) d'.
Proof.
  revert x. induction l as [|y l IH]; intros x; [reflexivity|].
  change (last (y :: l) d = last (y :: l) d'). apply IH.
Qed.

Lemma last_cons_default {A} (l : list A) (x y d d' : A) :
  last (x :: y :: l) d = last (y :: l) d'.
Proof. change (last (y :: l) d = last (y :: l) d'). apply last_default. Qed.

(** A letter found by the search stands alone: the character before it and
    the character after it, if any, are not word characters. *)
Lemma search_cardinal_standalone (s : str) (before : option char) (l : char) :
  search_cardinal U before s = Some l ->
  exists a b, s = a ++ l :: b /\ is_cardinal l = true
              /\ is_word_at U (last (map Some a) before) = false
              /\ is_word_at U (hd_error b) = false.
Proof.
  revert before. induction s as [|c s IH]; intros before; simpl;
    [discriminate|].
  destruct (cardinal_at U before c s) eqn:E.
  - intros [= <-]. apply cardinal_at_spec in E as (H1 & H2 & H3).
    exists [], s. auto.
  - intros H. destruct (IH _ H) as (a & b & -> & H1 & H2 & H3).
    exists (c :: a), b. repeat split; auto.
    destruct a as [|c0 a]; [exact H2|].
    cbn [map] in *. rewrite (last_cons_default _ _ _ before (Some c)).
    exact H2.
Qed.

(** C10 (word markers are substrings): a normalised text that contains SUL
    anywhere, and not NORTE, is taken for the Southern hemisphere; the
    occurrences of SUL are deleted before the number is read, the first of
    them first, whatever surrounds them.  Only a single letter has to stand
    alone to be a marker. *)
Theorem sul_is_substring_marker (s : str) (is_latitude : bool) :
  contains SUL (normalise U s) = true ->
  contains NORTE (normalise U s) = false ->
  find_hemisphere U (normalise U s)
    = (Some South, replace SUL [] (normalise U s))
  /\ parse_coordinate U (VStr s) is_latitude =
       (n <- read_number U (strip (replace SUL [] (normalise U s))) ;;
        match n with
        | None => Ok None
        | Some (dec, _) => Ok (check_range is_latitude (- abs dec)%float)
        end)
  /\ (forall a b, normalise U s = a ++ SUL ++ b ->
                  contains SUL (a ++ removelast SUL) = false ->
                  replace SUL [] (normalise U s) = a ++ replace SUL [] b)
  /\ (forall c before l,
         search_cardinal U before c = Some l ->
         exists a b, c = a ++ l :: b /\ is_cardinal l = true
                     /\ is_word_at U (last (map Some a) before) = false
                     /\ is_word_at U (hd_error b) = false)
  /\ parse_coordinate U (VStr (lit "2sul1.5")) true = Ok (Some (-21.5)%float)
  /\ parse_coordinate U (VStr (lit "21.5SUL")) true = Ok (Some (-21.5)%float)
  /\ parse_coordinate U (VStr (lit "21.5 S")) true = Ok (Some (-21.5)%float)
  /\ parse_coordinate U (VStr (lit "21.5S")) true = Ok None
  /\ parse_coordinate U (VStr (lit "Consulta 21.5")) true = Ok None.
Proof.
  intros HS HN.
  assert (Hf : find_hemisphere U (normalise U s)
               = (Some South, replace SUL [] (normalise U s)))
    by (unfold find_hemisphere; now rewrite HN, HS).
  split; [exact Hf|]. split; [|split; [|split]].
  - simpl. rewrite parse_str_unfold, Hf. simpl.
    destruct (read_number U _) as [[[dec sgn]|]|e]; reflexivity.
  - intros a b -> Ha.
    now rewrite (replace_first SUL [] a b) by (exact Ha || discriminate).
  - intros c before l. apply search_cardinal_standalone.
  - repeat split; vm_compute; reflexivity.
Qed.

End ParserProperties.

(** ** The hemisphere marker *)

Lemma last_cons_shift {A} (l : list A) (x d : A) :
  last (x :: l) d = last l x.
Proof.
  destruct l as [|y l]; [reflexivity|].
  apply (last_cons_default l x y d x).
Qed.

Section HemisphereMarker.

Variable U : Unicode.

(** The search returns the first letter that stands alone, and nothing when
    no letter does. *)
Lemma search_cardinal_first (s : str) (before : option char) (l : char) :
  search_cardinal U before s = Some l <->
  exists pre post,
    s = pre ++ l :: post
    /\ cardinal_at U (last (map Some pre) before) l post = true
    /\ forall pre' l' post',
         s = pre' ++ l' :: post' ->
         (List.length pre' < List.length pre)%nat ->
         cardinal_at U (last (map Some pre') before) l' post' = false.
Proof.
  revert before. induction s as [|c s IH]; intros before.
  - split; [discriminate|].
    intros (pre & post & E & _). now destruct pre.
  - cbn [search_cardinal]. destruct (cardinal_at U before c s) eqn:Ec.
    + split.
      * intros [= <-]. exists [], s. split; [reflexivity|].
        split; [exact Ec|]. intros pre' l' post' _ H. inversion H.
      * intros (pre & post & E & Hl & Hno).
        destruct pre as [|x pre].
        -- now injection E as <- _.
        -- exfalso. injection E as <- E.
           specialize (Hno [] c s eq_refl). cbn [List.length map last] in Hno.
           rewrite Hno in Ec by lia. discriminate.
    + rewrite IH. split.
      * intros (pre & post & -> & Hl & Hno).
        exists (c :: pre), post. split; [reflexivity|].
        cbn [map]. rewrite last_cons_shift. split; [exact Hl|].
        intros pre' l' post' E Hlen.
        destruct pre' as [|x pre'].
        -- injection E as <- <-. exact Ec.
        -- injection E as <- E. cbn [map]. rewrite last_cons_shift.
           apply Hno; [exact E|]. cbn [List.length] in Hlen. lia.
      * intros (pre & post & E & Hl & Hno).
        destruct pre as [|x pre].
        -- injection E as <- <-. cbn [map last] in Hl. congruence.
        -- injection E as <- ->. exists pre, post. split; [reflexivity|].
           cbn [map] in Hl. rewrite last_cons_shift in Hl.
           split; [exact Hl|].
           intros pre' l' post' E Hlen.
           specialize (Hno (c :: pre') l' post').
           cbn [map] in Hno. rewrite last_cons_shift in Hno.
           apply Hno; [now rewrite E|]. cbn [List.length]. lia.
Qed.

Lemma cardinal_at_stands_alone (pre : str) (l : char) (post : str) :
  cardinal_at U (last (map Some pre) None) l post = true <->
  stands_alone U pre l post.
Proof. unfold stands_alone. apply cardinal_at_spec. Qed.

(** The first letter that stands alone, told from the text, is the letter
    that the search returns. *)
Lemma first_standalone_search (c : str) (l : char) :
  first_standalone U c l <-> search_cardinal U None c = Some l.
Proof.
  rewrite search_cardinal_first. unfold first_standalone. split.
  - intros (pre & post & E & Hl & Hno). exists pre, post.
    split; [exact E|]. split; [now apply cardinal_at_stands_alone|].
    intros pre' l' post' E' Hlen.
    destruct (cardinal_at U _ l' post') eqn:Ec; [|reflexivity].
    exfalso. apply (Hno pre' l' post' E' Hlen).
    now apply cardinal_at_stands_alone.
  - intros (pre & post & E & Hl & Hno). exists pre, post.
    split; [exact E|]. split; [now apply cardinal_at_stands_alone|].
    intros pre' l' post' E' Hlen Hs.
    apply cardinal_at_stands_alone in Hs.
    now rewrite (Hno pre' l' post' E' Hlen) in Hs.
Qed.

(** The hemisphere the parser works with is the one the marker names. *)
Lemma marker_found (c : str) (h : cardinal) :
  marker U c h -> fst (find_hemisphere U c) = Some h.
Proof.
  destruct (find_hemisphere_found U c) as (H1 & H2 & H3 & H4 & H5).
  intros [Hn|Hn Hs|Hn Hs Hl|Hn Hs Hl Ho
          |(Hn & Hs & Hl & Ho) Hf|(Hn & Hs & Hl & Ho) Hf
          |(Hn & Hs & Hl & Ho) Hf|(Hn & Hs & Hl & Ho) Hf]; auto;
    apply first_standalone_search in Hf;
    now rewrite (H5 _ Hn Hs Hl Ho Hf).
Qed.

(** C6 (hemisphere dominance): the marker of the text (the word NORTE where
    the normalised text contains it, else SUL, else LESTE, else OESTE, and
    with none of the words the first of the letters N, S, W and E that
    stands alone) alone gives the sign of the value returned, whatever sign
    the number carries: the value is the magnitude read from the rest of the
    text for N, NORTE, E and LESTE, and so not negative, and the opposite of
    the magnitude for S, SUL, W and OESTE, and so not positive.  A letter
    that comes after another letter standing alone is no marker: in
    [S 10 N] the letter S decides. *)
Theorem hemisphere_dominance (s : str) (is_latitude : bool)
    (h : cardinal) (r : float) :
  marker U (normalise U s) h ->
  parse_coordinate U (VStr s) is_latitude = Ok (Some r) ->
  (exists dec sgn,
     read_number U (strip (snd (find_hemisphere U (normalise U s))))
       = Ok (Some (dec, sgn))
     /\ r = match h with
            | North | East => abs dec
            | South | West => (- abs dec)%float
            end)
  /\ match h with
     | North | East => (0 <=? r)%float = true
     | South | West => (r <=? 0)%float = true
     end
  /\ (forall sgn sgn' dec,
         resolve_sign (Some h) sgn dec = resolve_sign (Some h) sgn' dec)
  /\ parse_coordinate U (VStr (lit "-21.5 N")) true = Ok (Some 21.5%float)
  /\ parse_coordinate U (VStr (lit "21.5 N")) true = Ok (Some 21.5%float)
  /\ parse_coordinate U (VStr (lit "-21.5 Norte")) true
     = Ok (Some 21.5%float)
  /\ parse_coordinate U (VStr (lit "-21.5 Sul")) true
     = Ok (Some (-21.5)%float)
  /\ parse_coordinate U (VStr (lit "21.5 sul")) true
     = Ok (Some (-21.5)%float)
  /\ parse_coordinate U (VStr (lit "21.5 S")) true
     = Ok (Some (-21.5)%float)
  /\ parse_coordinate U (VStr (lit "-56 8 58 Leste")) false
     = parse_coordinate U (VStr (lit "56 8 58 E")) false
  /\ parse_coordinate U (VStr (lit "-56.1495 Leste")) false
     = Ok (Some 56.1495%float)
  /\ parse_coordinate U (VStr (lit "-56.1495 E")) false
     = Ok (Some 56.1495%float)
  /\ parse_coordinate U (VStr (lit "-56.1495 oeste")) false
     = parse_coordinate U (VStr (lit "56.1495 W")) false
  /\ parse_coordinate U (VStr (lit "56.1495 oeste")) false
     = Ok (Some (-56.1495)%float)
  /\ parse_coordinate U (VStr (lit "56.1495 W")) false
     = Ok (Some (-56.1495)%float)
  /\ parse_coordinate U (VStr (lit "S 10 N")) true = Ok (Some (-10)%float).
Proof.
  intros Hm Hr. apply marker_found in Hm as Hh. simpl in Hr.
  apply parse_str_some in Hr as (dec & sgn & Hn & -> & Hin).
  rewrite Hh in *.
  destruct (in_axis_range_lower _ _ Hin) as [a Ha].
  destruct (in_axis_range_upper _ _ Hin) as [b Hb].
  split; [exists dec, sgn; split; [exact Hn | destruct h; reflexivity]|].
  split; [|split; [intros; destruct h; reflexivity
                  |repeat split; vm_compute; reflexivity]].
  destruct h; simpl in *;
    eauto using abs_nonneg, neg_abs_nonpos.
Qed.

End HemisphereMarker.

(** ** Plain decimal texts *)

Lemma resolve_unmarked (d : float) (is_latitude : bool) :
  in_axis_range is_latitude d = true ->
  (0 <? d)%float = false ->
  exists r,
    check_range is_latitude
      (resolve_sign None (if (d <? 0)%float then -1 else 1) (abs d)) = Some r
    /\ (r =? d)%float = true /\ (d =? r)%float = true
    /\ ((d <? 0)%float = true -> r = d)
    /\ ((d <? 0)%float = false -> r = 0%float).
Proof.
  intros Hin Hpos. destruct (in_axis_range_lower _ _ Hin) as [a Ha].
  cbn [resolve_sign]. destruct (d <? 0)%float eqn:Hneg.
  - change (int_operand (-1)) with (-1)%float.
    rewrite mul_neg_one_l, (opp_abs_negative d Hneg), Hpos.
    exists d. repeat split; auto.
    + apply check_range_spec. auto.
    + exact (eqb_refl_ranged a d Ha).
    + exact (eqb_refl_ranged a d Ha).
    + discriminate.
  - change (int_operand 1) with 1%float.
    destruct (abs_of_zero a d Ha Hneg Hpos) as (Habs & Heq & Heq').
    rewrite mul_one_l, Habs.
    change (0 <? 0)%float with false. cbv iota.
    exists 0%float. repeat split; auto.
    + apply check_range_spec. split; [reflexivity|].
      destruct is_latitude; reflexivity.
    + discriminate.
Qed.

Lemma drop_while_last (p : char -> bool) (l : str) (x : char) :
  p x = false -> exists l', drop_while p (l ++ [x]) = l' ++ [x].
Proof.
  intros Hx. induction l as [|c l IH]; simpl.
  - rewrite Hx. now exists [].
  - destruct (p c); [exact IH|]. now exists (c :: l).
Qed.

Lemma strip_with_head (p : char -> bool) (x : char) (s : str) :
  p x = false -> exists s', strip_with p (x :: s) = x :: s'.
Proof.
  intros Hx. unfold strip_with. simpl. rewrite Hx. simpl.
  destruct (drop_while_last p (rev s) x Hx) as [l' ->].
  rewrite rev_app_distr. simpl. eauto.
Qed.

Lemma float_literal_minus (t : str) (d : float) :
  float_literal (45 :: t) = Some d -> (0 <? d)%float = false.
Proof.
  unfold float_literal.
  change (split_sign (45 :: t)) with (true, t). cbv iota.
  unfold special_literal.
  destruct (str_eqb t (lit "inf") || str_eqb t (lit "infinity")).
  { intros [= <-]. reflexivity. }
  destruct (str_eqb t (lit "nan")).
  { intros [= <-]. reflexivity. }
  destruct (numeral t) as [[m e]|]; [|discriminate].
  intros [= <-]. apply float_of_decimal_negative.
Qed.

Section Decimal.

Variable U : Unicode.

(** A text that starts with a minus sign is never read as a positive
    float. *)
Lemma float_of_str_minus (t : str) (d : float) :
  float_of_str U (45 :: t) = Ok d -> (0 <? d)%float = false.
Proof.
  unfold float_of_str. cbn [traverse].
  change (to_ascii U 45) with (Some 45).
  destruct (traverse (to_ascii U) t) as [a|]; [|discriminate].
  cbn [strip_underscores]. change (45 =? 95) with false.
  change (0 =? 95) with false. cbn [andb]. cbv iota.
  destruct (strip_underscores 45 a) as [b|]; [|discriminate].
  cbn [option_map].
  destruct (strip_with_head is_ascii_space 45 b eq_refl) as [s' ->].
  cbn [map]. change (lower_ascii 45) with 45.
  destruct (float_literal _) as [f|] eqn:E; [|discriminate].
  intros [= <-]. exact (float_literal_minus _ _ E).
Qed.

Lemma replace_absent (x : char) (new s : str) :
  forallb (fun c => negb (c =? x)) s = true -> replace [x] new s = s.
Proof.
  unfold replace. induction s as [|c s IH]; simpl; [reflexivity|].
  intros H. apply andb_true_iff in H as [Hc Hs].
  apply negb_true_iff in Hc. rewrite Z.eqb_sym in Hc. rewrite Hc.
  simpl. now rewrite IH.
Qed.

Lemma upper_fixed (s : str) :
  forallb (fun c => (c <? 128) && negb (in_range 97 122 c)) s = true ->
  upper U s = s.
Proof.
  unfold upper. induction s as [|c s IH]; [reflexivity|].
  cbn [flat_map forallb]. intros H. apply andb_true_iff in H as [Hc Hs].
  apply andb_true_iff in Hc as [H1 H2]. apply negb_true_iff in H2.
  assert (to_upper U c = [c]) as -> by (unfold to_upper; now rewrite H2, H1).
  cbn [app]. now rewrite IH.
Qed.

Lemma contains_absent (x : char) (p s : str) :
  forallb (fun c => negb (c =? x)) s = true -> contains (x :: p) s = false.
Proof.
  induction s as [|c s IH]; simpl; [reflexivity|].
  intros H. apply andb_true_iff in H as [Hc Hs].
  apply negb_true_iff in Hc. rewrite Z.eqb_sym in Hc. rewrite Hc.
  simpl. now apply IH.
Qed.

Lemma search_cardinal_absent (before : option char) (s : str) :
  forallb (fun c => negb (is_cardinal c)) s = true ->
  search_cardinal U before s = None.
Proof.
  revert before. induction s as [|c s IH]; intros before; simpl;
    [reflexivity|].
  intros H. apply andb_true_iff in H as [Hc Hs].
  apply negb_true_iff in Hc. unfold cardinal_at. rewrite Hc.
  rewrite andb_false_r. simpl. now apply IH.
Qed.

Lemma scan_class_absent (p : char -> bool) (s : str) :
  forallb (fun c => negb (p c)) s = true -> scan_class p s = None.
Proof.
  intros H. unfold scan_class. now rewrite (span_none p s H).
Qed.

(** A text with none of degree sign, colon and whitespace does not match
    the degrees, minutes, seconds pattern. *)
Lemma dms_groups_absent (s : str) :
  forallb (fun c => negb (dms_sep1 c)) s = true -> dms_groups U s = None.
Proof.
  intros H. unfold dms_groups.
  destruct (scan_number U true s) as [[g r]|] eqn:E; [|reflexivity].
  apply scan_number_text in E as [_ ->].
  rewrite forallb_app in H. apply andb_true_iff in H as [_ H].
  now rewrite (scan_class_absent dms_sep1 r H).
Qed.

Lemma plain_char_facts (c : char) :
  plain_char c = true ->
  negb (is_space c) = true /\ negb (c =? 44) = true
  /\ (c <? 128) && negb (in_range 97 122 c) = true
  /\ negb (c =? 78) = true /\ negb (c =? 83) = true
  /\ negb (c =? 76) = true /\ negb (c =? 79) = true
  /\ negb (is_cardinal c) = true /\ negb (dms_sep1 c) = true.
Proof.
  unfold plain_char, is_space, is_cardinal, dms_sep1, is_space,
    is_ascii_digit, in_range, degree_sign.
  intros H. repeat split; lia.
Qed.

(** A text of digits, points and minus signs goes through normalisation
    and the search for a hemisphere unchanged, and is read in the decimal
    form. *)
Lemma plain_text_front (s : str) :
  forallb plain_char s = true ->
  normalise U s = s /\ find_hemisphere U s = (None, s) /\ strip s = s
  /\ dms_match U s = false.
Proof.
  intros H.
  assert (F : forall q : char -> bool,
             (forall c, plain_char c = true -> q c = true) ->
             forallb q s = true)
    by (intros q Hq; exact (forallb_impl plain_char q s Hq H)).
  assert (Hstrip : strip s = s).
  { apply strip_with_none, F. intros c Hc. apply plain_char_facts, Hc. }
  repeat split.
  - unfold normalise. rewrite Hstrip.
    change (lit ",") with [44].
    rewrite replace_absent
      by (apply F; intros c Hc; apply plain_char_facts, Hc).
    apply upper_fixed, F. intros c Hc. apply plain_char_facts, Hc.
  - unfold find_hemisphere.
    change NORTE with (78 :: lit "ORTE"). change SUL with (83 :: lit "UL").
    change LESTE with (76 :: lit "ESTE"). change OESTE with (79 :: lit "ESTE").
    rewrite !contains_absent
      by (apply F; intros c Hc; apply plain_char_facts, Hc).
    rewrite search_cardinal_absent
      by (apply F; intros c Hc; apply plain_char_facts, Hc).
    reflexivity.
  - exact Hstrip.
  - unfold dms_match. rewrite dms_groups_absent; [reflexivity|].
    apply F. intros c Hc. apply plain_char_facts, Hc.
Qed.

(** C4, as amended (decimal round trip): a decimal numeral written with an
    explicit minus sign, whose value lies in the range of the axis, is
    returned with that value: the float returned equals the float the
    numeral denotes, and is that very float when it is below zero (minus
    zero is returned as zero). *)
Theorem minus_decimal_unchanged (t : str) (is_latitude : bool) (d : float) :
  forallb decimal_char t = true ->
  float_of_str U (45 :: t) = Ok d ->
  in_axis_range is_latitude d = true ->
  exists r,
    parse_coordinate U (VStr (45 :: t)) is_latitude = Ok (Some r)
    /\ (r =? d)%float = true
    /\ ((d <? 0)%float = true -> r = d).
Proof.
  intros Ht Hd Hin.
  assert (Hp : forallb plain_char (45 :: t) = true).
  { simpl. apply (forallb_impl decimal_char); [|exact Ht].
    unfold decimal_char, plain_char. intros c Hc.
    apply orb_true_iff in Hc as [->| ->]; [reflexivity|].
    now rewrite orb_true_r. }
  destruct (plain_text_front _ Hp) as (Hn & Hf & Hs & Hm).
  destruct (resolve_unmarked d is_latitude Hin (float_of_str_minus t d Hd))
    as (r & Hr & Heq & _ & Hneg & _).
  exists r. repeat split; auto.
  cbn [parse_coordinate]. rewrite parse_str_unfold, Hn, Hf.
  cbn [fst snd]. rewrite Hs. unfold read_number. rewrite Hm, Hd.
  cbn [bind]. now rewrite Hr.
Qed.

End Decimal.

(** ** The text of a float *)

Lemma uint_chars_digits (u : Decimal.uint) :
  forallb is_ascii_digit (uint_chars u) = true.
Proof. induction u; simpl; auto. Qed.

Lemma nat_digits_digits (n : Z) : forallb is_ascii_digit (nat_digits n) = true.
Proof. destruct n; simpl; auto using uint_chars_digits. Qed.

Lemma repr_shape_plain (b : bool) (s : str) :
  forallb plain_char s = true -> repr_shape b s = true.
Proof.
  revert b. induction s as [|c s IH]; intros b; simpl; [reflexivity|].
  intros H. apply andb_true_iff in H as [Hc Hs].
  rewrite (IH _ Hs), andb_true_r.
  unfold plain_char in Hc.
  destruct (is_ascii_digit c), (c =? 46), (c =? 45); simpl in *;
    try reflexivity; discriminate.
Qed.

Lemma digits_plain (s : str) :
  forallb is_ascii_digit s = true -> forallb plain_char s = true.
Proof.
  apply forallb_impl. intros c Hc. unfold plain_char. now rewrite Hc.
Qed.

Lemma zeros_digits (n : Z) : forallb is_ascii_digit (zeros n) = true.
Proof.
  unfold zeros. induction (Z.to_nat n); simpl; auto.
Qed.

Lemma exponent_text_shape (e : Z) : repr_shape true (exponent_text e) = true.
Proof.
  unfold exponent_text. cbn [repr_shape].
  change (is_ascii_digit 101) with false.
  change (101 =? 46) with false. change (101 =? 45) with false.
  change (101 =? 43) with false. change (101 =? 101) with true.
  cbn [orb andb].
  assert (H : forall b s, forallb is_ascii_digit s = true ->
                          repr_shape b s = true)
    by (intros b s Hs; apply repr_shape_plain, digits_plain, Hs).
  destruct (e <? 0), (Z.abs e <? 10); cbn; apply H, nat_digits_digits.
Qed.

(** Digits followed by the exponent: the letter comes after a digit. *)
Lemma digits_then_exponent (b : bool) (ds : str) (e : Z) :
  forallb is_ascii_digit ds = true -> (ds <> [] \/ b = true) ->
  repr_shape b (ds ++ exponent_text e) = true.
Proof.
  revert b. induction ds as [|c ds IH]; intros b Hds Hb.
  - destruct Hb as [Hb| ->]; [contradiction|]. apply exponent_text_shape.
  - cbn [forallb] in Hds. apply andb_true_iff in Hds as [Hc Hds].
    cbn [app repr_shape]. rewrite Hc. cbn [orb andb].
    apply IH; auto.
Qed.

Lemma forallb_firstn {A} (p : A -> bool) (n : nat) (l : list A) :
  forallb p l = true -> forallb p (firstn n l) = true.
Proof.
  revert n. induction l as [|a l IH]; intros [|n]; simpl; auto.
  intros H. apply andb_true_iff in H as [-> H]. now apply IH.
Qed.

Lemma forallb_skipn {A} (p : A -> bool) (n : nat) (l : list A) :
  forallb p l = true -> forallb p (skipn n l) = true.
Proof.
  revert n. induction l as [|a l IH]; intros [|n]; simpl; auto.
  intros H. apply andb_true_iff in H as [_ H]. now apply IH.
Qed.

Lemma format_repr_shape (b : bool) (ds : str) (decpt : Z) :
  forallb is_ascii_digit ds = true ->
  repr_shape b (format_repr ds decpt) = true.
Proof.
  intros Hds. unfold format_repr.
  destruct ((decpt <=? -4) || (16 <? decpt)).
  - destruct ds as [|d [|d' rest]]; [reflexivity| |].
    + cbn [forallb] in Hds. apply andb_true_iff in Hds as [Hd _].
      cbn [repr_shape]. rewrite Hd. cbn [orb andb].
      apply exponent_text_shape.
    + cbn [forallb] in Hds. apply andb_true_iff in Hds as [Hd Hr].
      cbn [repr_shape]. rewrite Hd.
      change (is_ascii_digit 46) with false.
      change (46 =? 46) with true. cbn [orb andb].
      apply digits_then_exponent; [exact Hr | left; discriminate].
  - apply repr_shape_plain.
    pose proof (digits_plain _ Hds) as Hp.
    pose proof (digits_plain _ (zeros_digits (- decpt))) as Hz1.
    pose proof (digits_plain _
                  (zeros_digits (decpt - Z.of_nat (List.length ds)))) as Hz2.
    destruct (decpt <=? 0).
    + cbn [forallb]. rewrite forallb_app, Hz1, Hp. reflexivity.
    + destruct (Z.of_nat (List.length ds) <=? decpt).
      * rewrite !forallb_app, Hp, Hz2. reflexivity.
      * rewrite forallb_app. cbn [forallb].
        rewrite (forallb_firstn _ _ _ Hp), (forallb_skipn _ _ _ Hp).
        reflexivity.
Qed.

Lemma shortest_digits_digits (x : float) :
  forallb is_ascii_digit (fst (shortest_digits x)) = true.
Proof.
  unfold shortest_digits.
  destruct (Prim2SF x) as [s|s| |s m e]; try reflexivity.
  destruct (fraction_of m e) as [num den].
  destruct (shortest_from _ _ _ _ _ _) as [c k].
  destruct (drop_trailing_zeros _ _ _) as [c' k'].
  apply nat_digits_digits.
Qed.

(** The text of a float that is neither NaN nor an infinity. *)
Lemma float_repr_shape (x : float) :
  is_nan x = false -> is_infinity x = false ->
  repr_shape false (float_repr x) = true.
Proof.
  intros Hn Hi. unfold float_repr. rewrite Hn, Hi.
  destruct (is_zero x).
  - destruct (get_sign x); reflexivity.
  - pose proof (shortest_digits_digits (abs x)) as Hd.
    destruct (shortest_digits (abs x)) as [ds decpt]. cbn [fst] in Hd.
    destruct (get_sign x); cbn [app repr_shape].
    + apply format_repr_shape, Hd.
    + apply format_repr_shape, Hd.
Qed.

Lemma repr_shape_chars (b : bool) (s : str) :
  repr_shape b s = true -> forallb repr_char s = true.
Proof.
  revert b. induction s as [|c s IH]; intros b; simpl; [reflexivity|].
  intros H. apply andb_true_iff in H as [Hc Hs].
  rewrite (IH _ Hs), andb_true_r. unfold repr_char.
  destruct (is_ascii_digit c), (c =? 46), (c =? 45), (c =? 43), (c =? 101);
    simpl in *; try reflexivity; discriminate.
Qed.

Lemma repr_char_facts (c : char) :
  repr_char c = true ->
  negb (is_space c) = true /\ negb (c =? 44) = true
  /\ (c <? 127) = true /\ negb (c =? 95) = true
  /\ negb (is_ascii_space c) = true.
Proof.
  unfold repr_char, is_space, is_ascii_space, is_ascii_digit, in_range.
  intros H. repeat split; lia.
Qed.

Lemma repr_upper_facts (c : char) :
  repr_char c = true ->
  negb (is_space (repr_upper c)) = true
  /\ negb (repr_upper c =? 78) = true /\ negb (repr_upper c =? 83) = true
  /\ negb (repr_upper c =? 76) = true /\ negb (repr_upper c =? 79) = true
  /\ negb (dms_sep1 (repr_upper c)) = true
  /\ (repr_upper c <? 127) = true /\ negb (repr_upper c =? 95) = true
  /\ negb (is_ascii_space (repr_upper c)) = true
  /\ lower_ascii (repr_upper c) = lower_ascii c.
Proof.
  unfold repr_char, repr_upper, is_space, is_ascii_space, dms_sep1, is_space,
    is_ascii_digit, lower_ascii, in_range, degree_sign.
  intros H. destruct (c =? 101) eqn:E.
  - apply Z.eqb_eq in E. subst c. repeat split; reflexivity.
  - assert (((65 <=? c) && (c <=? 90)) = false) as -> by lia.
    repeat split; lia.
Qed.

Lemma forallb_map {A B} (f : A -> B) (p : B -> bool) (l : list A) :
  forallb p (map f l) = forallb (fun a => p (f a)) l.
Proof. induction l as [|a l IH]; simpl; [reflexivity | now rewrite IH]. Qed.

Section ReprFront.

Variable U : Unicode.

Lemma upper_repr (s : str) :
  forallb repr_char s = true -> upper U s = map repr_upper s.
Proof.
  unfold upper. induction s as [|c s IH]; [reflexivity|].
  cbn [flat_map forallb map]. intros H.
  apply andb_true_iff in H as [Hc Hs]. rewrite (IH Hs).
  assert (to_upper U c = [repr_upper c]) as ->; [|reflexivity].
  unfold to_upper, repr_upper. destruct (c =? 101) eqn:E.
  - apply Z.eqb_eq in E. subst c. reflexivity.
  - unfold repr_char, is_ascii_digit, in_range in Hc.
    assert (in_range 97 122 c = false) as -> by (unfold in_range; lia).
    assert ((c <? 128) = true) as -> by lia. reflexivity.
Qed.

(** Reading a text without underscores, blanks or characters outside
    ASCII is reading its lower-case form as a literal. *)
Lemma float_of_str_clean (s : str) :
  forallb (fun c => (c <? 127) && negb (c =? 95)
                    && negb (is_ascii_space c)) s = true ->
  float_of_str U s =
  match float_literal (map lower_ascii s) with
  | Some f => Ok f
  | None => Raise ValueError
  end.
Proof.
  intros H. unfold float_of_str.
  assert (Ht : traverse (to_ascii U) s = Some s).
  { clear - H. induction s as [|c s IH]; [reflexivity|].
    cbn [forallb traverse] in *. apply andb_true_iff in H as [Hc Hs].
    apply andb_true_iff in Hc as [Hc _]. apply andb_true_iff in Hc as [Hc _].
    rewrite (to_ascii_low U c Hc), (IH Hs). reflexivity. }
  rewrite Ht, strip_underscores_none.
  - rewrite strip_with_none; [reflexivity|].
    apply (forallb_impl _ _ _ (fun c Hc => proj2 (andb_prop _ _ Hc)) H).
  - discriminate.
  - refine (forallb_impl _ _ _ _ H). intros c Hc.
    apply andb_true_iff in Hc as [Hc _]. now apply andb_true_iff in Hc.
Qed.

Lemma search_cardinal_repr (s : str) (b : bool) (before : option char) :
  (b = true -> is_word_at U before = true) ->
  repr_shape b s = true ->
  search_cardinal U before (map repr_upper s) = None.
Proof.
  revert b before. induction s as [|c s IH]; intros b before Hb;
    [reflexivity|].
  cbn [repr_shape map search_cardinal]. intros H.
  apply andb_true_iff in H as [Hc Hs].
  assert (Hcard : cardinal_at U before (repr_upper c) (map repr_upper s)
                  = false).
  { unfold cardinal_at, repr_upper. destruct (c =? 101) eqn:E.
    - apply Z.eqb_eq in E. subst c.
      change (is_ascii_digit 101) with false in Hc. cbn in Hc.
      unfold word_boundary at 1. rewrite (Hb Hc). reflexivity.
    - assert (is_cardinal c = false) as ->.
      { unfold is_cardinal. unfold is_ascii_digit, in_range in Hc. lia. }
      now rewrite andb_false_r. }
  rewrite Hcard. apply (IH (is_ascii_digit c)); [|exact Hs].
  intros Hd. cbn [is_word_at]. unfold repr_upper.
  assert ((c =? 101) = false) as ->
    by (unfold is_ascii_digit, in_range in Hd; lia).
  unfold is_word. unfold is_ascii_digit, in_range in *.
  assert ((c <? 128) = true) as -> by lia.
  rewrite Hd. reflexivity.
Qed.

(** The text of a float goes through normalisation and the search for a
    hemisphere with nothing found, and is read in the decimal form as the
    float its lower-case form denotes. *)
Lemma repr_text_front (s : str) :
  repr_shape false s = true ->
  find_hemisphere U (normalise U s) = (None, map repr_upper s)
  /\ strip (map repr_upper s) = map repr_upper s
  /\ dms_match U (map repr_upper s) = false
  /\ float_of_str U (map repr_upper s) = float_of_str U s.
Proof.
  intros Hshape. pose proof (repr_shape_chars _ _ Hshape) as H.
  assert (F : forall q : char -> bool,
             (forall c, repr_char c = true -> q c = true) ->
             forallb q s = true)
    by (intros q Hq; exact (forallb_impl repr_char q s Hq H)).
  assert (G : forall q : char -> bool,
             (forall c, repr_char c = true -> q (repr_upper c) = true) ->
             forallb q (map repr_upper s) = true)
    by (intros q Hq; rewrite forallb_map; apply F; exact Hq).
  assert (Hn : normalise U s = map repr_upper s).
  { unfold normalise, strip.
    rewrite strip_with_none
      by (apply F; intros c Hc; apply repr_char_facts, Hc).
    change (lit ",") with [44].
    rewrite replace_absent
      by (apply F; intros c Hc; apply repr_char_facts, Hc).
    apply upper_repr, H. }
  repeat split.
  - rewrite Hn. unfold find_hemisphere.
    change NORTE with (78 :: lit "ORTE"). change SUL with (83 :: lit "UL").
    change LESTE with (76 :: lit "ESTE"). change OESTE with (79 :: lit "ESTE").
    rewrite !contains_absent
      by (apply G; intros c Hc; apply repr_upper_facts, Hc).
    rewrite (search_cardinal_repr s false None);
      [reflexivity | discriminate | exact Hshape].
  - apply strip_with_none, G. intros c Hc. apply repr_upper_facts, Hc.
  - unfold dms_match. rewrite dms_groups_absent; [reflexivity|].
    apply G. intros c Hc. apply repr_upper_facts, Hc.
  - rewrite !float_of_str_clean.
    + rewrite map_map.
      assert (map (fun c => lower_ascii (repr_upper c)) s = map lower_ascii s)
        as ->; [|reflexivity].
      clear - H. induction s as [|c s IH]; [reflexivity|].
      cbn [forallb map] in *. apply andb_true_iff in H as [Hc Hs].
      rewrite (IH Hs).
      now destruct (repr_upper_facts c Hc) as (_&_&_&_&_&_&_&_&_&->).
    + apply F. intros c Hc.
      destruct (repr_char_facts c Hc) as (_&_&->&->&->). reflexivity.
    + apply G. intros c Hc.
      destruct (repr_upper_facts c Hc) as (_&_&_&_&_&_&->&->&->&_).
      reflexivity.
Qed.

(** Parsing the text of a float that is in the range of the axis and not
    positive gives the float back. *)
Lemma parse_repr (d : float) (is_latitude : bool) :
  in_axis_range is_latitude d = true ->
  (0 <? d)%float = false ->
  reads_back U d ->
  exists r,
    parse_coordinate U (VStr (float_repr d)) is_latitude = Ok (Some r)
    /\ (r =? d)%float = true /\ (d =? r)%float = true
    /\ ((d <? 0)%float = true -> r = d)
    /\ ((d <? 0)%float = false -> r = 0%float).
Proof.
  intros Hin Hpos Hback. unfold reads_back in Hback.
  assert (Hspecial : is_nan d = false /\ is_infinity d = false).
  { unfold float_repr in Hback.
    destruct (is_nan d); [exfalso|].
    { assert (Ok nan = Ok d) as [= <-]
        by (rewrite <- Hback; vm_compute; reflexivity).
      destruct is_latitude; discriminate. }
    destruct (is_infinity d); [exfalso|auto].
    destruct (get_sign d).
    - assert (Ok neg_infinity = Ok d) as [= <-]
        by (rewrite <- Hback; vm_compute; reflexivity).
      destruct is_latitude; discriminate.
    - assert (Ok infinity = Ok d) as [= <-]
        by (rewrite <- Hback; vm_compute; reflexivity).
      destruct is_latitude; discriminate. }
  destruct Hspecial as [Hn Hi].
  destruct (repr_text_front _ (float_repr_shape d Hn Hi))
    as (Hf & Hs & Hm & Hfl).
  destruct (resolve_unmarked d is_latitude Hin Hpos)
    as (r & Hr & Heq & Heq' & Hneg & Hzero).
  exists r. repeat split; auto.
  cbn [parse_coordinate]. rewrite parse_str_unfold, Hf.
  cbn [fst snd]. rewrite Hs. unfold read_number.
  rewrite Hm, Hfl, Hback. cbn [bind]. now rewrite Hr.
Qed.

End ReprFront.

(** ** The frame *)

Section FrameProperties.

Variable U : Unicode.

Lemma parse_row_eq (r : raw_row) : parse_row U r = Ok (parsed_row U r).
Proof.
  unfold parse_row, parsed_row.
  destruct (parse_str_total U (py_str (raw_Latitude r)) true) as [a Ha].
  destruct (parse_str_total U (py_str (raw_Longitude r)) false) as [b Hb].
  simpl. rewrite Ha, Hb. reflexivity.
Qed.

Lemma mapM_parse_row (sheet : list raw_row) :
  mapM (parse_row U) sheet = Ok (map (parsed_row U) sheet).
Proof.
  induction sheet as [|r sheet IH]; simpl; [reflexivity|].
  rewrite parse_row_eq, IH. reflexivity.
Qed.

Lemma filter_map {A B} (f : A -> B) (p : B -> bool) (l : list A) :
  filter p (map f l) = map f (filter (fun a => p (f a)) l).
Proof.
  induction l as [|a l IH]; simpl; [reflexivity|].
  destruct (p (f a)); simpl; now rewrite IH.
Qed.

Lemma filter_filter {A} (p q : A -> bool) (l : list A) :
  filter q (filter p l) = filter (fun a => p a && q a) l.
Proof.
  induction l as [|a l IH]; simpl; [reflexivity|].
  destruct (p a); simpl; [|exact IH].
  destruct (q a); now rewrite IH.
Qed.

Lemma fold_set_coordinates (cs : list (Z * (float * float))) (df : list row) :
  fold_left set_coordinates cs df
  = map (fun r => fold_left (fun r c => set_row c r) cs r) df.
Proof.
  revert df. induction cs as [|c cs IH]; intros df; simpl.
  - now rewrite map_id.
  - rewrite IH. unfold set_coordinates. now rewrite map_map.
Qed.

(** [carregar_dados] never raises, and works row by row: a row of the sheet
    that survives the two filters gives one row of the frame, in order. *)
Lemma carregar_dados_rows (sheet : list raw_row) :
  carregar_dados U sheet
  = Ok (map (frame_row U) (filter (survives U) sheet)).
Proof.
  unfold carregar_dados. rewrite mapM_parse_row. cbn [bind].
  rewrite fold_set_coordinates, filter_filter, filter_map, !map_map.
  reflexivity.
Qed.

Lemma in_brazil_region (r : row) : in_brazil r = true -> in_region r.
Proof.
  unfold in_brazil, in_region, col_ge, col_le, in_box.
  destruct (Latitude r) as [lat|]; [|discriminate].
  destruct (Longitude r) as [lon|];
    [|rewrite andb_false_r; discriminate].
  intros H. exists lat, lon. auto.
Qed.

Lemma set_row_region (c : Z * (float * float)) (r : row) :
  In c correcoes -> in_region r -> in_region (set_row c r).
Proof.
  intros Hc Hr. destruct c as [pi [lat lon]]. unfold set_row.
  destruct (NUMERO_PI r =? pi); [|exact Hr].
  exists lat, lon. repeat split.
  destruct Hc as [[= <- <- <-]|[[= <- <- <-]|[]]]; vm_compute; reflexivity.
Qed.

Lemma corrected_row_region (r : row) :
  in_region r -> in_region (corrected_row r).
Proof.
  unfold corrected_row.
  assert (H : forall cs, incl cs correcoes ->
                forall r, in_region r ->
                  in_region (fold_left (fun r c => set_row c r) cs r)).
  { induction cs as [|c cs IH]; intros Hincl r0 Hr0; simpl; [exact Hr0|].
    apply IH.
    - intros x Hx. apply Hincl. now right.
    - apply set_row_region; [apply Hincl; now left | exact Hr0]. }
  apply H, incl_refl.
Qed.

(** The corrections, spelled out on one row. *)
Lemma corrected_row_cases (r : row) :
  corrected_row r =
  if NUMERO_PI r =? 2520025827 then
    {| NUMERO_PI := NUMERO_PI r; UF := UF r;
       Latitude := Some (-21.4755)%float;
       Longitude := Some (-56.1495)%float |}
  else if NUMERO_PI r =? 2520052513 then
    {| NUMERO_PI := NUMERO_PI r; UF := UF r;
       Latitude := Some (-22.2765)%float;
       Longitude := Some (-53.1680)%float |}
  else r.
Proof.
  unfold corrected_row, correcoes. cbn [fold_left]. unfold set_row.
  destruct (NUMERO_PI r =? 2520025827) eqn:E1.
  - apply Z.eqb_eq in E1. cbn [NUMERO_PI UF]. rewrite E1. reflexivity.
  - destruct (NUMERO_PI r =? 2520052513); reflexivity.
Qed.

Lemma corrected_row_id (r : row) : NUMERO_PI (corrected_row r) = NUMERO_PI r.
Proof.
  unfold corrected_row. simpl.
  repeat match goal with
         | |- context [NUMERO_PI ?x =? ?p] =>
             destruct (NUMERO_PI x =? p) eqn:?; simpl
         end; reflexivity.
Qed.

(** A row whose identifier is in the table leaves the corrections with the
    coordinates of the table. *)
Lemma corrected_row_override (r : row) (lat lon : float) :
  In (NUMERO_PI r, (lat, lon)) correcoes ->
  Latitude (corrected_row r) = Some lat /\
  Longitude (corrected_row r) = Some lon.
Proof.
  unfold corrected_row, correcoes. cbn [fold_left In].
  intros [H|[H|[]]]; injection H as E <- <-; unfold set_row;
    rewrite <- E; cbn; rewrite <- ?E; cbn; auto.
Qed.

(** A row whose identifier is not in the table is left as it is. *)
Lemma corrected_row_other (r : row) :
  ~ In (NUMERO_PI r) (map fst correcoes) -> corrected_row r = r.
Proof.
  intros H. unfold corrected_row. simpl.
  destruct (NUMERO_PI r =? 2520025827) eqn:E1;
    [apply Z.eqb_eq in E1; exfalso; apply H; left; now symmetry|].
  destruct (NUMERO_PI r =? 2520052513) eqn:E2;
    [apply Z.eqb_eq in E2; exfalso; apply H; right; left; now symmetry|].
  reflexivity.
Qed.


Lemma corrected_row_override_eq (r : row) (lat lon : float) :
  In (NUMERO_PI r, (lat, lon)) correcoes ->
  corrected_row r = {| NUMERO_PI := NUMERO_PI r; UF := UF r;
                       Latitude := Some lat; Longitude := Some lon |}.
Proof.
  unfold corrected_row, correcoes. cbn [fold_left In].
  intros [H|[H|[]]]; injection H as E <- <-; unfold set_row;
    rewrite <- E; cbn; rewrite <- ?E; cbn; reflexivity.
Qed.

(** A row that does not survive the filters leaves no trace in the frame. *)
Lemma rejected_row_dropped (a b : list raw_row) (r : raw_row) :
  survives U r = false ->
  carregar_dados U (a ++ r :: b) = carregar_dados U (a ++ b).
Proof.
  intros H. rewrite !carregar_dados_rows, !filter_app. simpl.
  now rewrite H.
Qed.

(** C8 (bounding box): every row of the frame returned has both coordinates
    present, the latitude in [-34, 5] and the longitude in [-74, -34]; a row
    whose latitude parses to a value above 5, such as 10.0, is dropped
    although the parser accepted it. *)
Theorem frame_in_region (sheet : list raw_row) :
  (exists out, carregar_dados U sheet = Ok out
               /\ Forall (fun o => in_region (fields o)) out)
  /\ (forall a r b lat,
        parse_coordinate U (VStr (py_str (raw_Latitude r))) true
          = Ok (Some lat) ->
        (lat <=? 5)%float = false ->
        carregar_dados U (a ++ r :: b) = carregar_dados U (a ++ b))
  /\ parse_coordinate U (VStr (lit "10.0 N")) true = Ok (Some 10%float)
  /\ carregar_dados U
       [ {| raw_NUMERO_PI := 7; raw_UF := CellStr (lit "RR");
            raw_Latitude := CellStr (lit "10.0 N");
            raw_Longitude := CellStr (lit "-60.0") |} ] = Ok [].
Proof.
  split; [|split; [|split; vm_compute; reflexivity]].
  - rewrite carregar_dados_rows. eexists. split; [reflexivity|].
    apply Forall_forall. intros o Ho.
    apply in_map_iff in Ho as (r & <- & Hr).
    apply filter_In in Hr as [_ Hr].
    unfold survives in Hr. apply andb_true_iff in Hr as [_ Hr].
    unfold frame_row. cbn [fields add_estado].
    apply corrected_row_region, in_brazil_region, Hr.
  - intros a r b lat Hp Hlat. apply rejected_row_dropped.
    unfold survives, in_brazil, parsed_row. cbn [Latitude Longitude].
    rewrite Hp. cbn [value_of col_le]. rewrite Hlat.
    now rewrite !andb_false_r.
Qed.

(** C2, as amended (override precedence): a row of the sheet whose
    identifier is in the table of corrections and whose coordinates, as
    parsed, pass the two filters appears in the frame with the coordinates
    of the table, whatever its own text parsed to, and so does every row of
    the frame with that identifier; a row that fails a filter is dropped,
    its identifier being in the table or not. *)
Theorem override_precedence (sheet : list raw_row) (r : raw_row)
    (lat lon : float) :
  In r sheet ->
  In (raw_NUMERO_PI r, (lat, lon)) correcoes ->
  survives U r = true ->
  exists out,
    carregar_dados U sheet = Ok out
    /\ In {| fields := {| NUMERO_PI := raw_NUMERO_PI r;
                          UF := upper U (strip (py_str (raw_UF r)));
                          Latitude := Some lat; Longitude := Some lon |};
             Estado := lit "BR" ++ upper U (strip (py_str (raw_UF r))) |} out
    /\ (forall o, In o out -> NUMERO_PI (fields o) = raw_NUMERO_PI r ->
                  Latitude (fields o) = Some lat
                  /\ Longitude (fields o) = Some lon)
    /\ (forall a r' b, survives U r' = false ->
           carregar_dados U (a ++ r' :: b) = carregar_dados U (a ++ b)).
Proof.
  intros Hin Htab Hs. rewrite carregar_dados_rows.
  eexists. split; [reflexivity|]. split; [|split].
  - apply in_map_iff. exists r. split; [|now apply filter_In].
    unfold frame_row.
    rewrite (corrected_row_override_eq (parsed_row U r) lat lon Htab).
    reflexivity.
  - intros o Ho Hid. apply in_map_iff in Ho as (r' & <- & _).
    unfold frame_row in *. cbn [fields add_estado] in *.
    apply corrected_row_override.
    rewrite corrected_row_id in Hid. cbn [parsed_row NUMERO_PI] in *.
    now rewrite Hid.
  - intros a r' b. apply rejected_row_dropped.
Qed.

End FrameProperties.


(** ** Running [carregar_dados] on its own frame *)

Section Revalidation.

Variable U : Unicode.

Lemma value_of_some (x : result (option float)) (v : float) :
  value_of x = Some v -> x = Ok (Some v).
Proof. destruct x as [[w|]|e]; simpl; congruence. Qed.

Lemma table_entry (id : Z) (tl tn : float) :
  In (id, (tl, tn)) correcoes ->
  (id = 2520025827 /\ tl = (-21.4755)%float /\ tn = (-56.1495)%float)
  \/ (id = 2520052513 /\ tl = (-22.2765)%float /\ tn = (-53.1680)%float).
Proof.
  intros [H|[H|[]]]; injection H as <- <- <-; auto.
Qed.

Lemma first_run_row_intro (id : Z) (uf : str) (lat lon : float) :
  in_box lat lon = true ->
  in_axis_range true lat = true -> in_axis_range false lon = true ->
  (forall tl tn, In (id, (tl, tn)) correcoes -> lat = tl /\ lon = tn) ->
  first_run_row {| NUMERO_PI := id; UF := uf;
                   Latitude := Some lat; Longitude := Some lon |}.
Proof.
  intros Hbox Hlat Hlon Htab. exists lat, lon.
  split; [reflexivity|]. split; [reflexivity|].
  split; [exact Hbox|]. split; [exact Hlat|]. split; [exact Hlon|].
  exact Htab.
Qed.

(** The rows of a frame returned are as [first_run_row] says. *)
Lemma frame_row_first_run (r : raw_row) :
  survives U r = true -> first_run_row (fields (frame_row U r)).
Proof.
  unfold survives. intros H.
  apply andb_true_iff in H as [Hna Hbox]. apply andb_true_iff in Hna as [Ha Hb].
  destruct (Latitude (parsed_row U r)) as [lat|] eqn:Elat; [|discriminate].
  destruct (Longitude (parsed_row U r)) as [lon|] eqn:Elon; [|discriminate].
  assert (Hlat : in_axis_range true lat = true).
  { cbn [parsed_row Latitude] in Elat. apply value_of_some in Elat.
    cbn [parse_coordinate] in Elat.
    now apply parse_str_some in Elat as (? & ? & _ & _ & ?). }
  assert (Hlon : in_axis_range false lon = true).
  { cbn [parsed_row Longitude] in Elon. apply value_of_some in Elon.
    cbn [parse_coordinate] in Elon.
    now apply parse_str_some in Elon as (? & ? & _ & _ & ?). }
  assert (Hin : in_box lat lon = true).
  { unfold in_brazil in Hbox. rewrite Elat, Elon in Hbox. exact Hbox. }
  unfold frame_row. cbn [fields add_estado].
  rewrite corrected_row_cases.
  destruct (NUMERO_PI (parsed_row U r) =? 2520025827) eqn:E1;
    [|destruct (NUMERO_PI (parsed_row U r) =? 2520052513) eqn:E2].
  - apply Z.eqb_eq in E1. rewrite E1.
    apply first_run_row_intro; try reflexivity.
    intros tl tn Ht.
    now destruct (table_entry _ _ _ Ht) as [(_&->&->)|(?&_)].
  - apply Z.eqb_eq in E2. rewrite E2.
    apply first_run_row_intro; try reflexivity.
    intros tl tn Ht.
    now destruct (table_entry _ _ _ Ht) as [(?&_)|(_&->&->)].
  - exists lat, lon.
    split; [exact Elat|]. split; [exact Elon|].
    split; [exact Hin|]. split; [exact Hlat|]. split; [exact Hlon|].
    intros tl tn Ht. apply Z.eqb_neq in E1, E2.
    apply table_entry in Ht as [(Ht&_)|(Ht&_)]; contradiction.
Qed.

(** A row of the frame, written to a sheet and read again. *)
Lemma second_run_row (o : state_row) (lat lon : float) :
  first_run_row (fields o) ->
  Latitude (fields o) = Some lat -> Longitude (fields o) = Some lon ->
  (0 <? lat)%float = false -> reads_back U lat -> reads_back U lon ->
  survives U (sheet_row o) = true
  /\ same_coordinates o (frame_row U (sheet_row o)).
Proof.
  intros (lat0 & lon0 & Elat & Elon & Hbox & Hrlat & Hrlon & Htab)
         Elat' Elon' Hpos Hblat Hblon.
  rewrite Elat in Elat'. rewrite Elon in Elon'.
  injection Elat' as ->. injection Elon' as ->.
  unfold in_box in Hbox.
  apply andb_true_iff in Hbox as [Hbox B4].
  apply andb_true_iff in Hbox as [Hbox B3].
  apply andb_true_iff in Hbox as [B1 B2].
  destruct (below_minus_34 lon B4) as [Hlneg Hlpos].
  destruct (parse_repr U lat true Hrlat Hpos Hblat)
    as (rlat & Plat & _ & Eqlat & Nlat & Zlat).
  destruct (parse_repr U lon false Hrlon Hlpos Hblon)
    as (rlon & Plon & _ & Eqlon & Nlon & _).
  rewrite (Nlon Hlneg) in *. clear Nlon.
  assert (Hp : parsed_row U (sheet_row o)
               = {| NUMERO_PI := NUMERO_PI (fields o);
                    UF := upper U (strip (UF (fields o)));
                    Latitude := Some rlat; Longitude := Some lon |}).
  { unfold parsed_row, sheet_row.
    cbn [raw_NUMERO_PI raw_UF raw_Latitude raw_Longitude py_str].
    rewrite Elat, Elon. cbn [cell_of py_str]. rewrite Plat, Plon.
    reflexivity. }
  assert (Hb : in_brazil (parsed_row U (sheet_row o)) = true).
  { rewrite Hp. unfold in_brazil. cbn [Latitude Longitude col_ge col_le].
    rewrite B3, B4, !andb_true_r.
    destruct (lat <? 0)%float eqn:E.
    - rewrite (Nlat eq_refl), B1, B2. reflexivity.
    - rewrite (Zlat eq_refl). reflexivity. }
  split.
  - unfold survives. rewrite Hb, Hp. reflexivity.
  - unfold same_coordinates, frame_row. cbn [fields add_estado].
    split; [rewrite corrected_row_id, Hp; reflexivity|].
    rewrite corrected_row_cases, Hp, Elat, Elon. cbn [NUMERO_PI UF].
    destruct (NUMERO_PI (fields o) =? 2520025827) eqn:E1;
      [|destruct (NUMERO_PI (fields o) =? 2520052513) eqn:E2].
    + apply Z.eqb_eq in E1.
      destruct (Htab (-21.4755)%float (-56.1495)%float) as [-> ->];
        [rewrite E1; now left|].
      split; reflexivity.
    + apply Z.eqb_eq in E2.
      destruct (Htab (-22.2765)%float (-53.1680)%float) as [-> ->];
        [rewrite E2; right; now left|].
      split; reflexivity.
    + cbn [Latitude Longitude same_value]. split; assumption.
Qed.

Lemma rerun_rows (l : list state_row) :
  Forall (fun o => survives U (sheet_row o) = true
                   /\ same_coordinates o (frame_row U (sheet_row o))) l ->
  Forall2 same_coordinates l
    (map (frame_row U) (filter (survives U) (map sheet_row l))).
Proof.
  induction 1 as [|o l [Hs Hc] _ IH]; cbn [map filter]; [constructor|].
  rewrite Hs. cbn [map]. constructor; assumption.
Qed.

(** C5, as amended (idempotence): when no latitude of the frame returned is
    positive, running [carregar_dados] on the sheet that holds that frame
    keeps every row, in order, with the same identifier and with equal
    coordinates.  The texts written for the floats of the frame are taken to
    read back as those floats, as the texts Python prints do. *)
Theorem revalidation (sheet : list raw_row) (out : list state_row) :
  carregar_dados U sheet = Ok out ->
  Forall (fun o => forall lat lon,
            Latitude (fields o) = Some lat ->
            Longitude (fields o) = Some lon ->
            (0 <? lat)%float = false
            /\ reads_back U lat /\ reads_back U lon) out ->
  exists out',
    carregar_dados U (sheet_of out) = Ok out'
    /\ Forall2 same_coordinates out out'.
Proof.
  rewrite carregar_dados_rows. intros [= <-] Hout.
  rewrite carregar_dados_rows. eexists. split; [reflexivity|].
  unfold sheet_of. apply rerun_rows.
  rewrite Forall_forall in *. intros o Ho.
  assert (Hf : first_run_row (fields o)).
  { apply in_map_iff in Ho as (r & <- & Hr).
    apply filter_In in Hr as [_ Hr]. now apply frame_row_first_run. }
  pose proof Hf as (lat & lon & Elat & Elon & _).
  destruct (Hout o Ho lat lon Elat Elon) as (Hpos & Hblat & Hblon).
  now apply (second_run_row o lat lon).
Qed.

End Revalidation.

(** ** Further properties of [parse_coordinate] *)

Lemma drop_while_map (f : char -> char) (p : char -> bool) (s : str) :
  (forall c, p (f c) = p c) ->
  drop_while p (map f s) = map f (drop_while p s).
Proof.
  intros H. induction s as [|c s IH]; [reflexivity|].
  cbn [map drop_while]. rewrite H. now destruct (p c).
Qed.

Lemma strip_with_map (f : char -> char) (p : char -> bool) (s : str) :
  (forall c, p (f c) = p c) ->
  strip_with p (map f s) = map f (strip_with p s).
Proof.
  intros H. unfold strip_with.
  rewrite (drop_while_map f p s H), <- map_rev,
    (drop_while_map f p _ H), map_rev.
  reflexivity.
Qed.

Lemma replace_comma (s : str) :
  replace (lit ",") (lit ".") s = map comma_to_point s.
Proof.
  unfold replace. change (lit ",") with [44]. change (lit ".") with [46].
  induction s as [|c s IH]; [reflexivity|].
  cbn [replace_from map starts_with List.length Nat.pred].
  unfold comma_to_point at 1. rewrite andb_true_r, (Z.eqb_sym 44 c).
  destruct (c =? 44); cbn [app]; now rewrite IH.
Qed.

Lemma drop_while_all (p : char -> bool) (a s : str) :
  forallb p a = true -> drop_while p (a ++ s) = drop_while p s.
Proof.
  induction a as [|c a IH]; [reflexivity|].
  cbn [forallb app drop_while]. intros H.
  apply andb_true_iff in H as [-> H]. now apply IH.
Qed.

Lemma drop_while_all_nil (p : char -> bool) (a : str) :
  forallb p a = true -> drop_while p a = [].
Proof.
  intros H. rewrite <- (app_nil_r a). now rewrite drop_while_all.
Qed.

Lemma drop_while_app_keep (p : char -> bool) (s b : str) :
  drop_while p s <> [] -> drop_while p (s ++ b) = drop_while p s ++ b.
Proof.
  induction s as [|c s IH]; [contradiction|].
  cbn [app drop_while]. destruct (p c); [exact IH | reflexivity].
Qed.

Lemma strip_with_padding (p : char -> bool) (a s b : str) :
  forallb p a = true -> forallb p b = true ->
  strip_with p (a ++ s ++ b) = strip_with p s.
Proof.
  intros Ha Hb. unfold strip_with. rewrite (drop_while_all p a _ Ha).
  destruct (drop_while p s) as [|c s1] eqn:E.
  - assert (Hs : forallb p s = true).
    { clear - E. induction s as [|x s IH]; [reflexivity|].
      cbn [drop_while forallb] in *. destruct (p x); [auto | discriminate]. }
    rewrite drop_while_all by exact Hs.
    now rewrite (drop_while_all_nil p b Hb).
  - rewrite drop_while_app_keep by (rewrite E; discriminate).
    rewrite E, rev_app_distr, drop_while_all; [reflexivity|].
    now rewrite forallb_rev.
Qed.

Ltac split_ifs :=
  repeat match goal with
         | |- context [if ?b then _ else _] => destruct b eqn:?
         end.

Lemma comma_upper_commute (c : char) :
  comma_to_point (ascii_upper c) = ascii_upper (comma_to_point c).
Proof.
  unfold ascii_upper, comma_to_point, in_range.
  destruct (c =? 44) eqn:E1; destruct ((97 <=? c) && (c <=? 122)) eqn:E2;
    cbv iota; rewrite ?E1, ?E2; split_ifs; lia.
Qed.

Section ParserExtras.

Variable U : Unicode.

(** Two texts with the same normal form parse alike. *)
Lemma parse_by_normal_form (s s' : str) (is_latitude : bool) :
  normalise U s = normalise U s' ->
  parse_coordinate U (VStr s) is_latitude
  = parse_coordinate U (VStr s') is_latitude.
Proof.
  intros H. cbn [parse_coordinate]. now rewrite !parse_str_unfold, H.
Qed.

Lemma upper_map_ascii_upper (s : str) :
  upper U (map ascii_upper s) = upper U s.
Proof.
  unfold upper. induction s as [|c s IH]; [reflexivity|].
  cbn [map flat_map]. rewrite IH. f_equal.
  unfold to_upper, ascii_upper, in_range.
  destruct ((97 <=? c) && (c <=? 122)) eqn:E; [|now rewrite E].
  assert (((97 <=? c - 32) && (c - 32 <=? 122)) = false) as -> by lia.
  assert ((c - 32 <? 128) = true) as -> by lia. reflexivity.
Qed.

Lemma normalise_ascii_upper (s : str) :
  normalise U (map ascii_upper s) = normalise U s.
Proof.
  unfold normalise, strip.
  rewrite strip_with_map.
  2:{ intros c. unfold ascii_upper, is_space, in_range.
      destruct ((97 <=? c) && (c <=? 122)) eqn:E; [lia | reflexivity]. }
  rewrite !replace_comma, map_map.
  rewrite <- (upper_map_ascii_upper (map comma_to_point (strip_with _ s))).
  rewrite map_map. f_equal. apply map_ext, comma_upper_commute.
Qed.

(** The letter case of the ASCII letters of a text does not matter: two
    texts that differ in it only are parsed alike, so that [sul], [Sul] and
    [SUL], or [s] and [S], are the same marker. *)
Theorem ascii_case_is_ignored (s s' : str) (is_latitude : bool) :
  map ascii_upper s = map ascii_upper s' ->
  parse_coordinate U (VStr s) is_latitude
  = parse_coordinate U (VStr s') is_latitude.
Proof.
  intros H. apply parse_by_normal_form.
  now rewrite <- (normalise_ascii_upper s), H, normalise_ascii_upper.
Qed.

(** A decimal comma is read as a decimal point: replacing the commas of a
    text by points does not change what it is parsed to. *)
Theorem decimal_comma_is_point (s : str) (is_latitude : bool) :
  parse_coordinate U (VStr (replace (lit ",") (lit ".") s)) is_latitude
  = parse_coordinate U (VStr s) is_latitude.
Proof.
  apply parse_by_normal_form. unfold normalise, strip.
  rewrite !replace_comma, strip_with_map, map_map.
  2:{ intros c. unfold comma_to_point.
      destruct (c =? 44) eqn:E; [|reflexivity].
      apply Z.eqb_eq in E. now subst. }
  f_equal. apply map_ext. intros c. unfold comma_to_point.
  destruct (c =? 44) eqn:E; [reflexivity | now rewrite E].
Qed.

(** Whitespace around a text is ignored. *)
Theorem surrounding_whitespace_is_ignored (a s b : str)
    (is_latitude : bool) :
  forallb is_space a = true -> forallb is_space b = true ->
  parse_coordinate U (VStr (a ++ s ++ b)) is_latitude
  = parse_coordinate U (VStr s) is_latitude.
Proof.
  intros Ha Hb. apply parse_by_normal_form. unfold normalise, strip.
  now rewrite strip_with_padding.
Qed.

End ParserExtras.

(** ** Further properties of [carregar_dados] *)

Lemma subsequence_filter {A} (p : A -> bool) (l : list A) :
  subsequence (filter p l) l.
Proof.
  induction l as [|x l IH]; cbn [filter]; [constructor|].
  destruct (p x); now constructor.
Qed.

Lemma subsequence_map {A B} (f : A -> B) (a b : list A) :
  subsequence a b -> subsequence (map f a) (map f b).
Proof. induction 1; cbn [map]; now constructor. Qed.

Lemma subsequence_length {A} (a b : list A) :
  subsequence a b -> (List.length a <= List.length b)%nat.
Proof. induction 1; cbn [List.length]; lia. Qed.

Section FrameExtras.

Variable U : Unicode.

(** The rows are treated one by one: the frame of two sheets put end to end
    is the frame of the first followed by the frame of the second, and no
    sheet makes [carregar_dados] fail. *)
Theorem carregar_dados_app (a b : list raw_row) :
  exists fa fb,
    carregar_dados U a = Ok fa /\ carregar_dados U b = Ok fb
    /\ carregar_dados U (a ++ b) = Ok (fa ++ fb).
Proof.
  rewrite !carregar_dados_rows. eexists _, _.
  split; [reflexivity|]. split; [reflexivity|].
  now rewrite filter_app, map_app.
Qed.

(** The frame has no row that the sheet has not, and keeps the order of the
    sheet: its identifiers are those of the sheet with some left out. *)
Theorem frame_rows_come_from_sheet (sheet : list raw_row)
    (out : list state_row) :
  carregar_dados U sheet = Ok out ->
  subsequence (map (fun o => NUMERO_PI (fields o)) out)
              (map raw_NUMERO_PI sheet)
  /\ (List.length out <= List.length sheet)%nat.
Proof.
  rewrite carregar_dados_rows. intros [= <-].
  assert (H : subsequence
                (map (fun o => NUMERO_PI (fields o))
                     (map (frame_row U) (filter (survives U) sheet)))
                (map raw_NUMERO_PI sheet)).
  { rewrite map_map.
    rewrite (map_ext _ raw_NUMERO_PI).
    - apply (subsequence_map raw_NUMERO_PI), subsequence_filter.
    - intros r. unfold frame_row. cbn [fields add_estado].
      now rewrite corrected_row_id. }
  split; [exact H|].
  apply subsequence_length in H. rewrite !length_map in H.
  now rewrite length_map.
Qed.

(** A row of the frame whose identifier is not in the table of corrections
    holds what [parse_coordinate] returned for the texts of a row of the
    sheet with that identifier, and the state code of that row. *)
Theorem uncorrected_row_is_parsed (sheet : list raw_row)
    (out : list state_row) (o : state_row) :
  carregar_dados U sheet = Ok out ->
  In o out ->
  ~ In (NUMERO_PI (fields o)) (map fst correcoes) ->
  exists r,
    In r sheet /\ raw_NUMERO_PI r = NUMERO_PI (fields o)
    /\ parse_coordinate U (VStr (py_str (raw_Latitude r))) true
       = Ok (Latitude (fields o))
    /\ parse_coordinate U (VStr (py_str (raw_Longitude r))) false
       = Ok (Longitude (fields o))
    /\ Estado o = lit "BR" ++ upper U (strip (py_str (raw_UF r))).
Proof.
  rewrite carregar_dados_rows. intros [= <-] Ho Hid.
  apply in_map_iff in Ho as (r & <- & Hr).
  apply filter_In in Hr as [Hin _].
  unfold frame_row in *. cbn [fields add_estado Estado] in *.
  rewrite corrected_row_id in Hid.
  rewrite (corrected_row_other (parsed_row U r) Hid).
  exists r. cbn [parsed_row NUMERO_PI Latitude Longitude UF].
  destruct (parse_str_total U (py_str (raw_Latitude r)) true) as [x Hx].
  destruct (parse_str_total U (py_str (raw_Longitude r)) false) as [y Hy].
  cbn [parse_coordinate]. rewrite Hx, Hy. cbn [value_of]. auto.
Qed.

(** An empty cell, which is read as the float NaN, in either coordinate
    column makes the row disappear from the frame: [float] accepts the text
    ["nan"] that [str] gives for it, and the check of the range refuses the
    value. *)
Theorem empty_cell_row_is_dropped (a b : list raw_row) (r : raw_row) :
  raw_Latitude r = CellFloat nan \/ raw_Longitude r = CellFloat nan ->
  carregar_dados U (a ++ r :: b) = carregar_dados U (a ++ b).
Proof.
  intros H. apply rejected_row_dropped. unfold survives.
  assert (Hlat : parse_coordinate U (VStr (py_str (CellFloat nan))) true
                 = Ok None) by (vm_compute; reflexivity).
  assert (Hlon : parse_coordinate U (VStr (py_str (CellFloat nan))) false
                 = Ok None) by (vm_compute; reflexivity).
  destruct H as [H|H].
  - assert (Latitude (parsed_row U r) = None) as ->
      by (cbn [parsed_row Latitude]; now rewrite H, Hlat).
    reflexivity.
  - assert (Longitude (parsed_row U r) = None) as ->
      by (cbn [parsed_row Longitude]; now rewrite H, Hlon).
    now rewrite andb_false_r.
Qed.

End FrameExtras.

(** ** [encontrar_planilha] *)

Ltac compare_cases :=
  repeat match goal with
         | H : context [Pos.compare_cont Eq ?a ?b] |- _ =>
             change (Pos.compare_cont Eq a b) with (Pos.compare a b) in H
         | |- context [Pos.compare_cont Eq ?a ?b] =>
             change (Pos.compare_cont Eq a b) with (Pos.compare a b)
         end;
  repeat match goal with
         | H : context [Z.compare ?a ?b] |- _ =>
             destruct (Z.compare_spec a b); cbn in H; try discriminate
         | H : context [Pos.compare ?a ?b] |- _ =>
             destruct (Pos.compare_spec a b); cbn in H; try discriminate
         end.

(** The order of floats is transitive. *)
Lemma SFltb_trans (x y z : spec_float) :
  SFltb x y = true -> SFltb y z = true -> SFltb x z = true.
Proof.
  unfold SFltb.
  destruct x as [sx|sx| |sx mx ex], y as [sy|sy| |sy my ey],
    z as [sz|sz| |sz mz ez];
    try (destruct sx); try (destruct sy); try (destruct sz);
    cbn; try discriminate; try reflexivity; intros H1 H2;
    compare_cases; subst;
    repeat match goal with
           | |- context [Z.compare ?a ?b] =>
               destruct (Z.compare_spec a b); cbn; try lia
           | |- context [Pos.compare ?a ?b] =>
               destruct (Pos.compare_spec a b); cbn; try lia
           end; try reflexivity; try lia.
Qed.

Lemma ltb_trans (x y z : float) :
  (x <? y)%float = true -> (y <? z)%float = true -> (x <? z)%float = true.
Proof. rewrite !ltb_spec. apply SFltb_trans. Qed.

Lemma SFltb_irrefl (x : spec_float) : SFltb x x = false.
Proof.
  unfold SFltb.
  destruct x as [[|]|[|]| |[|] m e]; cbn; try reflexivity;
    rewrite Z.compare_refl;
    change (Pos.compare_cont Eq m m) with (Pos.compare m m);
    now rewrite Pos.compare_refl.
Qed.

Lemma ltb_irrefl (x : float) : (x <? x)%float = false.
Proof. rewrite ltb_spec. apply SFltb_irrefl. Qed.

Lemma ltb_asym (x y : float) :
  (x <? y)%float = true -> (y <? x)%float = false.
Proof.
  intros H. destruct (y <? x)%float eqn:E; [|reflexivity].
  now rewrite <- (ltb_irrefl x), (ltb_trans x y x H E).
Qed.

Section MaxByKey.

Context {A : Type}.
Variable key : A -> result float.

(** What [max] returns once it has a best item: an item seen, whose key is
    the key of the first best item or greater, and that no later item
    exceeds. *)
Lemma max_from_spec (l : list A) (maxitem : A) (maxval : float) (r : A) :
  key maxitem = Ok maxval ->
  max_from key maxitem maxval l = Ok r ->
  exists rv,
    key r = Ok rv /\ In r (maxitem :: l)
    /\ (rv = maxval \/ (maxval <? rv)%float = true)
    /\ (forall x xv, In x l -> key x = Ok xv -> (rv <? xv)%float = false).
Proof.
  revert maxitem maxval. induction l as [|item l IH]; intros m mv Hm.
  - intros [= <-]. exists mv. repeat split; auto. now left.
    intros x xv [].
  - cbn [max_from]. destruct (key item) as [val|e] eqn:Hk; [|discriminate].
    cbn [bind]. destruct (mv <? val)%float eqn:Hlt; intros Hr.
    + destruct (IH item val Hk Hr) as (rv & Hrv & Hin & Hge & Hmax).
      exists rv. split; [exact Hrv|]. split.
      { destruct Hin as [<-|Hin]; [right; now left | right; now right]. }
      split.
      { right. destruct Hge as [->|Hge]; [exact Hlt|].
        exact (ltb_trans _ _ _ Hlt Hge). }
      intros x xv [<-|Hx] Hxv.
      * rewrite Hk in Hxv. injection Hxv as <-.
        destruct Hge as [->|Hge]; [apply ltb_irrefl | now apply ltb_asym].
      * exact (Hmax x xv Hx Hxv).
    + destruct (IH m mv Hm Hr) as (rv & Hrv & Hin & Hge & Hmax).
      exists rv. split; [exact Hrv|]. split.
      { destruct Hin as [<-|Hin]; [now left | right; now right]. }
      split; [exact Hge|].
      intros x xv [<-|Hx] Hxv.
      * rewrite Hk in Hxv. injection Hxv as <-.
        destruct Hge as [->|Hge]; [exact Hlt|].
        destruct (rv <? val)%float eqn:E; [|reflexivity].
        now rewrite (ltb_trans _ _ _ Hge E) in Hlt.
      * exact (Hmax x xv Hx Hxv).
Qed.

Lemma py_max_spec (l : list A) (r : A) :
  py_max key l = Ok r ->
  exists rv,
    key r = Ok rv /\ In r l
    /\ (forall x xv, In x l -> key x = Ok xv -> (rv <? xv)%float = false).
Proof.
  destruct l as [|item l]; [discriminate|]. cbn [py_max].
  destruct (key item) as [val|e] eqn:Hk; [|discriminate]. cbn [bind].
  intros Hr.
  destruct (max_from_spec l item val r Hk Hr) as (rv & Hrv & Hin & Hge & Hmax).
  exists rv. repeat split; auto.
  intros x xv [<-|Hx] Hxv; [|now apply (Hmax x xv)].
  rewrite Hk in Hxv. injection Hxv as <-.
  destruct Hge as [->|Hge]; [apply ltb_irrefl | now apply ltb_asym].
Qed.

Lemma max_from_raises (l : list A) (maxitem : A) (maxval : float)
    (e : exn) :
  max_from key maxitem maxval l = Raise e ->
  exists x, In x l /\ key x = Raise e.
Proof.
  revert maxitem maxval. induction l as [|item l IH]; intros m mv;
    [discriminate|].
  cbn [max_from]. destruct (key item) as [val|e'] eqn:Hk; cbn [bind].
  - destruct (mv <? val)%float; intros H;
      destruct (IH _ _ H) as (x & Hx & Hkx); exists x; split; auto;
      now right.
  - intros [= <-]. exists item. split; [now left | exact Hk].
Qed.

Lemma max_from_total (l : list A) (maxitem : A) (maxval : float) :
  (forall x, In x l -> exists v, key x = Ok v) ->
  exists r, max_from key maxitem maxval l = Ok r.
Proof.
  revert maxitem maxval. induction l as [|item l IH]; intros m mv H.
  - now exists m.
  - cbn [max_from]. destruct (H item (or_introl eq_refl)) as [v ->].
    cbn [bind]. destruct (mv <? v)%float; apply IH;
      intros x Hx; apply H; now right.
Qed.

End MaxByKey.

(** [mapM] succeeds with the results item by item. *)
Lemma mapM_ok {A B} (f : A -> result B) (l : list A) (bs : list B) :
  mapM f l = Ok bs <-> Forall2 (fun a b => f a = Ok b) l bs.
Proof.
  revert bs. induction l as [|a l IH]; intros bs; cbn [mapM].
  - split.
    + intros [= <-]. constructor.
    + intros H. inversion H. reflexivity.
  - destruct (f a) as [b|e] eqn:Ea; cbn [bind].
    + destruct (mapM f l) as [bs'|e] eqn:El; cbn [bind].
      * split.
        -- intros [= <-]. constructor; [exact Ea | now apply IH].
        -- intros H. inversion H as [|a0 b0 l0 bs0 Hb Hl]; subst.
           apply IH in Hl. congruence.
      * split; [discriminate|].
        intros H. inversion H as [|a0 b0 l0 bs0 Hb Hl]; subst.
        apply IH in Hl. discriminate.
    + split; [discriminate|].
      intros H. inversion H; subst. congruence.
Qed.

(** [mapM] raises the error of one of the items. *)
Lemma mapM_raises {A B} (f : A -> result B) (l : list A) (e : exn) :
  mapM f l = Raise e -> exists a, In a l /\ f a = Raise e.
Proof.
  induction l as [|a l IH]; cbn [mapM]; [discriminate|].
  destruct (f a) as [b|e'] eqn:Ea; cbn [bind].
  - destruct (mapM f l) as [bs|e'] eqn:El; cbn [bind]; [discriminate|].
    intros [= <-]. destruct (IH eq_refl) as (x & Hx & Hf).
    exists x. split; [now right | exact Hf].
  - intros [= <-]. exists a. split; [now left | exact Ea].
Qed.

Lemma mapM_total {A B} (f : A -> result B) (l : list A) :
  (forall a, In a l -> exists b, f a = Ok b) -> exists bs, mapM f l = Ok bs.
Proof.
  induction l as [|a l IH]; intros H; [now exists []|].
  cbn [mapM]. destruct (H a (or_introl eq_refl)) as [b ->].
  destruct IH as [bs ->]; [intros x Hx; apply H; now right|].
  cbn [bind]. eauto.
Qed.

Lemma Forall2_in_l {A B} (R : A -> B -> Prop) (l : list A) (bs : list B)
    (a : A) :
  Forall2 R l bs -> In a l -> exists b, In b bs /\ R a b.
Proof.
  induction 1 as [|x y l bs Hxy H IH]; [contradiction|].
  intros [<-|Hin].
  - exists y. split; [now left | exact Hxy].
  - destruct (IH Hin) as (b & Hb & Hab). exists b. split; [now right|exact Hab].
Qed.

Lemma Forall2_in_r {A B} (R : A -> B -> Prop) (l : list A) (bs : list B)
    (b : B) :
  Forall2 R l bs -> In b bs -> exists a, In a l /\ R a b.
Proof.
  induction 1 as [|x y l bs Hxy H IH]; [contradiction|].
  intros [<-|Hin].
  - exists x. split; [now left | exact Hxy].
  - destruct (IH Hin) as (a & Ha & Hab). exists a. split; [now right|exact Hab].
Qed.

Section FinderProperties.

Variable glob_in : str -> str -> result (list str).
Variable getctime : str -> result float.

(** The files found are those that the patterns find. *)
Lemma found_by_pattern (diretorio : str) (arquivos : list str) (f : str) :
  arquivos_encontrados glob_in diretorio = Ok arquivos ->
  (In f arquivos <->
   exists padrao l,
     In padrao padroes /\ glob_in diretorio padrao = Ok l /\ In f l).
Proof.
  unfold arquivos_encontrados.
  destruct (mapM (glob_in diretorio) padroes) as [listas|e] eqn:E;
    cbn [bind]; [|discriminate].
  intros [= <-]. apply mapM_ok in E. rewrite in_concat. split.
  - intros (l & Hl & Hf).
    destruct (Forall2_in_r _ _ _ _ E Hl) as (padrao & Hp & Hg).
    now exists padrao, l.
  - intros (padrao & l & Hp & Hg & Hf).
    destruct (Forall2_in_l _ _ _ _ E Hp) as (l' & Hl' & Hg').
    rewrite Hg in Hg'. injection Hg' as <-. now exists l.
Qed.

Lemma found_total (diretorio : str) :
  (forall padrao, In padrao padroes ->
                  exists l, glob_in diretorio padrao = Ok l) ->
  exists arquivos, arquivos_encontrados glob_in diretorio = Ok arquivos.
Proof.
  intros H. unfold arquivos_encontrados.
  destruct (mapM_total (glob_in diretorio) padroes H) as [listas ->].
  cbn [bind]. eauto.
Qed.

(** [encontrar_planilha] returns [None] exactly when each of the four
    patterns is searched and finds no file; the clock of no file is read
    then. *)
Theorem no_sheet_found_iff (diretorio : str) :
  encontrar_planilha glob_in getctime diretorio = Ok None <->
  forall padrao, In padrao padroes -> glob_in diretorio padrao = Ok [].
Proof.
  unfold encontrar_planilha. split.
  - destruct (arquivos_encontrados glob_in diretorio) as [arquivos|e] eqn:E;
      cbn [bind]; [|discriminate].
    destruct arquivos as [|f l].
    + intros _ padrao Hp.
      pose proof E as E'. unfold arquivos_encontrados in E'.
      destruct (mapM (glob_in diretorio) padroes) as [listas|e] eqn:Em;
        cbn [bind] in E'; [|discriminate].
      apply mapM_ok in Em.
      destruct (Forall2_in_l _ _ _ _ Em Hp) as (found & _ & Hg).
      destruct found as [|x found]; [exact Hg|].
      assert (Hin : In x []).
      { apply (found_by_pattern diretorio [] x E).
        exists padrao, (x :: found). split; [exact Hp|].
        split; [exact Hg | now left]. }
      destruct Hin.
    + destruct (py_max getctime (f :: l)); discriminate.
  - intros H.
    destruct (found_total diretorio) as [arquivos E];
      [intros padrao Hp; rewrite (H padrao Hp); eauto|].
    rewrite E. cbn [bind].
    destruct arquivos as [|f l]; [reflexivity|].
    assert (Hin : In f (f :: l)) by now left.
    apply (found_by_pattern diretorio _ f E) in Hin
      as (padrao & found & Hp & Hg & Hf).
    rewrite (H padrao Hp) in Hg. injection Hg as <-. destruct Hf.
Qed.

(** The file returned is one that a pattern found, and no file found has a
    creation time greater than its own. *)
Theorem newest_sheet_is_returned (diretorio f : str) :
  encontrar_planilha glob_in getctime diretorio = Ok (Some f) ->
  (exists padrao l,
     In padrao padroes /\ glob_in diretorio padrao = Ok l /\ In f l)
  /\ exists c,
       getctime f = Ok c
       /\ forall padrao l x xc,
            In padrao padroes -> glob_in diretorio padrao = Ok l ->
            In x l -> getctime x = Ok xc -> (c <? xc)%float = false.
Proof.
  unfold encontrar_planilha.
  destruct (arquivos_encontrados glob_in diretorio) as [arquivos|e] eqn:E;
    cbn [bind]; [|discriminate].
  destruct arquivos as [|a l]; [discriminate|].
  destruct (py_max getctime (a :: l)) as [r|e] eqn:Hm; [|discriminate].
  cbn [bind]. intros [= ->].
  destruct (py_max_spec getctime _ _ Hm) as (c & Hc & Hin & Hmax).
  split.
  - now apply (found_by_pattern diretorio _ f E).
  - exists c. split; [exact Hc|].
    intros padrao found x xc Hp Hg Hx. apply Hmax.
    apply (found_by_pattern diretorio _ x E). now exists padrao, found.
Qed.

(** The search fails only with the error that [glob] raised for one of the
    patterns, or with the error of reading the creation time of a file
    found; it never fails for having found nothing.  When every pattern is
    searched and every file found has a creation time, a result is
    returned. *)
Theorem finder_fails_with_glob_or_getctime (diretorio : str) :
  (forall e, encontrar_planilha glob_in getctime diretorio = Raise e ->
             (exists padrao,
                In padrao padroes /\ glob_in diretorio padrao = Raise e)
             \/ (exists padrao l x,
                   In padrao padroes /\ glob_in diretorio padrao = Ok l
                   /\ In x l /\ getctime x = Raise e))
  /\ ((forall padrao,
         In padrao padroes ->
         exists l, glob_in diretorio padrao = Ok l
                   /\ forall x, In x l -> exists c, getctime x = Ok c) ->
      exists r, encontrar_planilha glob_in getctime diretorio = Ok r).
Proof.
  unfold encontrar_planilha. split.
  - intros e.
    destruct (arquivos_encontrados glob_in diretorio) as [arquivos|e'] eqn:E;
      cbn [bind].
    + right. destruct arquivos as [|a l]; [discriminate|].
      assert (Hx : forall x, In x (a :: l) ->
                     exists padrao found,
                       In padrao padroes
                       /\ glob_in diretorio padrao = Ok found
                       /\ In x found)
        by (intros x Hx; now apply (found_by_pattern diretorio _ x E)).
      revert H. cbn [py_max].
      destruct (getctime a) as [v|e'] eqn:Ha; cbn [bind].
      * destruct (max_from getctime a v l) as [r|e'] eqn:Hm;
          cbn [bind]; [discriminate|].
        intros [= <-].
        destruct (max_from_raises getctime _ _ _ _ Hm) as (x & Hin & Hk).
        destruct (Hx x (or_intror Hin)) as (padrao & found & Hp & Hg & Hf).
        now exists padrao, found, x.
      * intros [= <-].
        destruct (Hx a (or_introl eq_refl))
          as (padrao & found & Hp & Hg & Hf).
        now exists padrao, found, a.
    + intros [= <-]. left. unfold arquivos_encontrados in E.
      destruct (mapM (glob_in diretorio) padroes) as [listas|e1] eqn:Em;
        cbn [bind] in E; [discriminate|].
      injection E as <-. exact (mapM_raises _ _ _ Em).
  - intros H.
    destruct (found_total diretorio) as [arquivos E].
    { intros padrao Hp. destruct (H padrao Hp) as (l & Hl & _). eauto. }
    rewrite E. cbn [bind].
    destruct arquivos as [|a l]; [eauto|].
    assert (Hx : forall x, In x (a :: l) -> exists c, getctime x = Ok c).
    { intros x Hx.
      apply (found_by_pattern diretorio _ x E) in Hx
        as (padrao & found & Hp & Hg & Hf).
      destruct (H padrao Hp) as (found' & Hg' & Hc).
      rewrite Hg in Hg'. injection Hg' as <-. now apply Hc. }
    cbn [py_max]. destruct (Hx a (or_introl eq_refl)) as [v ->].
    cbn [bind].
    destruct (max_from_total getctime l a v) as [r ->];
      [intros x Hin; apply Hx; now right|].
    cbn [bind]. eauto.
Qed.

End FinderProperties.

(** ** The order of strings, [sorted] and [unique] *)

Lemma str_eqb_eq (a b : str) : str_eqb a b = true <-> a = b.
Proof.
  revert b. induction a as [|x a IH]; intros [|y b]; cbn [str_eqb];
    try (split; [discriminate | congruence]); [tauto|].
  rewrite andb_true_iff, Z.eqb_eq, IH. split; [now intros [-> ->]|].
  now intros [= -> ->].
Qed.

Lemma str_ltb_irrefl (a : str) : str_ltb a a = false.
Proof.
  induction a as [|x a IH]; [reflexivity|]. cbn [str_ltb].
  now rewrite Z.ltb_irrefl, Z.eqb_refl, IH.
Qed.

Lemma str_ltb_cons (x y : char) (a b : str) :
  str_ltb (x :: a) (y :: b) = true <->
  x < y \/ (x = y /\ str_ltb a b = true).
Proof.
  cbn [str_ltb].
  rewrite orb_true_iff, andb_true_iff, Z.ltb_lt, Z.eqb_eq. tauto.
Qed.

Lemma str_ltb_trans (a b c : str) :
  str_ltb a b = true -> str_ltb b c = true -> str_ltb a c = true.
Proof.
  revert b c. induction a as [|x a IH]; intros [|y b] [|z c];
    try discriminate; try reflexivity.
  rewrite !str_ltb_cons. intros [H1|[-> H1]] [H2|[-> H2]].
  - left. lia.
  - now left.
  - now left.
  - right. split; [reflexivity|]. now apply (IH b).
Qed.

Lemma str_ltb_connected (a b : str) :
  str_ltb a b = false -> str_ltb b a = false -> a = b.
Proof.
  revert b. induction a as [|x a IH]; intros [|y b]; try discriminate;
    [reflexivity|].
  intros H1 H2.
  assert (N1 : ~ (x < y \/ (x = y /\ str_ltb a b = true)))
    by (rewrite <- str_ltb_cons, H1; discriminate).
  assert (N2 : ~ (y < x \/ (y = x /\ str_ltb b a = true)))
    by (rewrite <- str_ltb_cons, H2; discriminate).
  assert (x = y) as -> by lia.
  f_equal. apply IH.
  - destruct (str_ltb a b); [exfalso; apply N1; now right | reflexivity].
  - destruct (str_ltb b a); [exfalso; apply N2; now right | reflexivity].
Qed.

Lemma insert_sorted_in (x z : str) (l : list str) :
  In z (insert_sorted x l) <-> z = x \/ In z l.
Proof.
  induction l as [|y l IH]; cbn [insert_sorted].
  - cbn. intuition congruence.
  - destruct (str_ltb y x); cbn [In]; [rewrite IH|]; intuition congruence.
Qed.

Lemma insert_sorted_sorted (x : str) (l : list str) :
  ~ In x l -> Sorted.StronglySorted str_lt l ->
  Sorted.StronglySorted str_lt (insert_sorted x l).
Proof.
  intros Hx Hs. induction Hs as [|y l Hs IH Hy]; cbn [insert_sorted].
  - constructor; constructor.
  - destruct (str_ltb y x) eqn:E.
    + constructor.
      * apply IH. intros H. apply Hx. now right.
      * apply Forall_forall. intros z Hz.
        apply insert_sorted_in in Hz as [->|Hz]; [exact E|].
        rewrite Forall_forall in Hy. now apply Hy.
    + assert (Hxy : str_lt x y).
      { unfold str_lt. destruct (str_ltb x y) eqn:E'; [reflexivity|].
        exfalso. apply Hx. left. symmetry.
        now apply str_ltb_connected. }
      constructor; [now constructor|].
      constructor; [exact Hxy|].
      rewrite Forall_forall in *. intros z Hz.
      exact (str_ltb_trans _ _ _ Hxy (Hy z Hz)).
Qed.

Lemma py_sorted_in (z : str) (l : list str) : In z (py_sorted l) <-> In z l.
Proof.
  induction l as [|x l IH]; [tauto|].
  cbn [py_sorted fold_right]. rewrite insert_sorted_in.
  cbn [In]. unfold py_sorted in IH. rewrite IH. intuition congruence.
Qed.

Lemma py_sorted_sorted (l : list str) :
  NoDup l -> Sorted.StronglySorted str_lt (py_sorted l).
Proof.
  induction 1 as [|x l Hx Hn IH]; [constructor|].
  cbn [py_sorted fold_right]. apply insert_sorted_sorted; [|exact IH].
  intros H. apply Hx. now apply py_sorted_in.
Qed.

Lemma existsb_str_eqb (x : str) (seen : list str) :
  existsb (str_eqb x) seen = true <-> In x seen.
Proof.
  rewrite existsb_exists. split.
  - intros (y & Hy & E). apply str_eqb_eq in E. now subst.
  - intros H. exists x. split; [exact H | now apply str_eqb_eq].
Qed.

Lemma unique_from_in (x : str) (seen l : list str) :
  In x (unique_from seen l) <-> In x l /\ ~ In x seen.
Proof.
  revert seen. induction l as [|y l IH]; intros seen;
    cbn [unique_from]; [cbn; tauto|].
  destruct (existsb (str_eqb y) seen) eqn:E.
  - apply existsb_str_eqb in E. rewrite IH. cbn [In].
    intuition congruence.
  - assert (Hy : ~ In y seen)
      by (intros H; apply existsb_str_eqb in H; congruence).
    cbn [In]. rewrite IH. cbn [In].
    split.
    + intros [<-|[H1 H2]]; [tauto|]. split; [now right | tauto].
    + intros [[<-|H1] H2]; [now left|].
      destruct (list_eq_dec Z.eq_dec y x) as [->|N]; [now left|].
      right. split; [exact H1|]. intros [H|H]; [congruence | tauto].
Qed.

Lemma unique_from_nodup (seen l : list str) : NoDup (unique_from seen l).
Proof.
  revert seen. induction l as [|y l IH]; intros seen;
    cbn [unique_from]; [constructor|].
  destruct (existsb (str_eqb y) seen); [apply IH|].
  constructor; [|apply IH].
  rewrite unique_from_in. cbn [In]. tauto.
Qed.

Lemma fold_left_app_flat_map {A} (f : A -> str) (l : list A) (acc : str) :
  fold_left (fun acc a => acc ++ f a) l acc = acc ++ flat_map f l.
Proof.
  revert acc. induction l as [|a l IH]; intros acc; cbn [fold_left flat_map].
  - now rewrite app_nil_r.
  - now rewrite IH, app_assoc.
Qed.

Lemma drop_while_fixed (p : char -> bool) (s : str) :
  hd_error (map p s) <> Some true -> drop_while p s = s.
Proof.
  destruct s as [|c s]; [reflexivity|]. cbn [map hd_error drop_while].
  destruct (p c); [congruence | reflexivity].
Qed.

Lemma drop_while_head (p : char -> bool) (s : str) :
  hd_error (map p (drop_while p s)) <> Some true.
Proof.
  induction s as [|c s IH]; [discriminate|]. cbn [drop_while].
  destruct (p c) eqn:E; [exact IH|]. cbn [map hd_error]. rewrite E.
  discriminate.
Qed.

Lemma drop_while_suffix (p : char -> bool) (s : str) :
  exists a, s = a ++ drop_while p s.
Proof.
  induction s as [|c s [a IH]]; [now exists []|]. cbn [drop_while].
  destruct (p c); [|now exists []].
  exists (c :: a). cbn [app]. now rewrite <- IH.
Qed.

Lemma strip_with_idempotent (p : char -> bool) (s : str) :
  strip_with p (strip_with p s) = strip_with p s.
Proof.
  unfold strip_with.
  pose proof (drop_while_head p s) as Hd.
  set (d := drop_while p s) in *.
  destruct (drop_while_suffix p (rev d)) as [a Ha].
  set (e := drop_while p (rev d)) in *.
  assert (He : drop_while p (rev e) = rev e).
  { apply drop_while_fixed.
    assert (Ed : d = rev e ++ rev a)
      by (rewrite <- (rev_involutive d), Ha, rev_app_distr; reflexivity).
    rewrite Ed in Hd. destruct (rev e); [discriminate | exact Hd]. }
  rewrite He, rev_involutive.
  f_equal. apply drop_while_fixed. apply drop_while_head.
Qed.

Lemma drop_while_forallb (p q : char -> bool) (s : str) :
  forallb q s = true -> forallb q (drop_while p s) = true.
Proof.
  induction s as [|c s IH]; [reflexivity|]. cbn [drop_while].
  destruct (p c); [|tauto].
  cbn [forallb]. intros H. apply andb_true_iff in H as [_ H]. now apply IH.
Qed.

Lemma strip_with_forallb (p q : char -> bool) (s : str) :
  forallb q s = true -> forallb q (strip_with p s) = true.
Proof.
  intros H. unfold strip_with. rewrite forallb_rev.
  apply drop_while_forallb. rewrite forallb_rev.
  now apply drop_while_forallb.
Qed.

Lemma is_space_lower_ascii (c : char) : is_space (lower_ascii c) = is_space c.
Proof.
  unfold lower_ascii, in_range.
  destruct ((65 <=? c) && (c <=? 90)) eqn:E; [|reflexivity].
  unfold is_space, in_range. lia.
Qed.

Lemma lower_ascii_idempotent (c : char) :
  lower_ascii (lower_ascii c) = lower_ascii c.
Proof.
  unfold lower_ascii, in_range.
  destruct ((65 <=? c) && (c <=? 90)) eqn:E; [|now rewrite E].
  destruct ((65 <=? c + 32) && (c + 32 <=? 90)) eqn:E'; [lia | reflexivity].
Qed.

Lemma lower_ascii_is_ascii (c : char) :
  (c <? 128) = true -> (lower_ascii c <? 128) = true.
Proof.
  unfold lower_ascii, in_range.
  destruct ((65 <=? c) && (c <=? 90)) eqn:E; lia.
Qed.

Lemma map_lower_ascii_is_ascii (s : str) :
  is_ascii s = true -> is_ascii (map lower_ascii s) = true.
Proof.
  unfold is_ascii. induction s as [|c s IH]; [reflexivity|].
  cbn [map forallb]. intros H. apply andb_true_iff in H as [Hc Hs].
  now rewrite (lower_ascii_is_ascii c Hc), IH.
Qed.

(** ** [get_marker_color] and the legend *)

Section ColorProperties.

Variable lower_ext : str -> char -> str -> str.
Variable title_ext : char -> str.

Lemma lower_from_ascii (before s : str) :
  is_ascii s = true -> lower_from lower_ext before s = map lower_ascii s.
Proof.
  unfold is_ascii. revert before.
  induction s as [|c s IH]; intros before; [reflexivity|].
  cbn [forallb lower_from map]. intros H.
  apply andb_true_iff in H as [Hc Hs]. rewrite (IH _ Hs).
  unfold lower_at, lower_ascii.
  destruct (in_range 65 90 c); [reflexivity|]. now rewrite Hc.
Qed.

Lemma lower_strip_ascii (s : str) :
  is_ascii s = true ->
  lower lower_ext (strip s) = strip (map lower_ascii s).
Proof.
  intros H. unfold lower, strip.
  rewrite lower_from_ascii by now apply strip_with_forallb.
  symmetry. apply strip_with_map. exact is_space_lower_ascii.
Qed.

Lemma capitalize_ascii (s : str) :
  is_ascii s = true ->
  is_ascii (capitalize lower_ext title_ext s) = true
  /\ map lower_ascii (capitalize lower_ext title_ext s) = map lower_ascii s.
Proof.
  destruct s as [|c s]; [now split|].
  intros H. pose proof H as H'. unfold is_ascii in H'.
  cbn [forallb] in H'. apply andb_true_iff in H' as [Hc Hs].
  cbn [capitalize]. rewrite (lower_from_ascii [c] s Hs), Hc.
  assert (Hm : is_ascii (map lower_ascii s) = true)
    by now apply map_lower_ascii_is_ascii.
  unfold in_range.
  destruct ((97 <=? c) && (c <=? 122)) eqn:E; cbn [app map]; split.
  - unfold is_ascii in *. cbn [forallb]. rewrite Hm.
    apply andb_true_iff. split; [lia | reflexivity].
  - f_equal.
    + unfold lower_ascii, in_range.
      destruct ((65 <=? c - 32) && (c - 32 <=? 90)) eqn:E1;
        destruct ((65 <=? c) && (c <=? 90)) eqn:E2; lia.
    + rewrite map_map. apply map_ext. exact lower_ascii_idempotent.
  - unfold is_ascii in *. cbn [forallb]. now rewrite Hc, Hm.
  - f_equal. rewrite map_map. apply map_ext. exact lower_ascii_idempotent.
Qed.

(** For texts of ASCII characters the colour of a marker depends on the crop
    only through the text with upper case folded to lower case and the
    surrounding whitespace removed. *)
Theorem marker_color_ignores_case_and_padding (x y : cell) :
  is_ascii (py_str x) = true -> is_ascii (py_str y) = true ->
  strip (map lower_ascii (py_str x)) = strip (map lower_ascii (py_str y)) ->
  get_marker_color lower_ext x = get_marker_color lower_ext y.
Proof.
  intros Hx Hy E. unfold get_marker_color.
  now rewrite (lower_strip_ascii _ Hx), (lower_strip_ascii _ Hy), E.
Qed.

(** The colour computed from the crop name as [carregar_dados] stores it
    (stripped and capitalised) is the colour of the cell as it was read,
    for a cell whose text is ASCII. *)
Theorem marker_color_of_normalised_crop (x : cell) :
  is_ascii (py_str x) = true ->
  get_marker_color lower_ext
    (CellStr (normalise_cultura lower_ext title_ext x))
  = get_marker_color lower_ext x.
Proof.
  intros Hx.
  assert (Hs : is_ascii (strip (py_str x)) = true)
    by now apply strip_with_forallb.
  destruct (capitalize_ascii _ Hs) as [Hc Hm].
  assert (E : lower lower_ext
                (strip (capitalize lower_ext title_ext (strip (py_str x))))
              = lower lower_ext (strip (py_str x))).
  { rewrite (lower_strip_ascii _ Hc), Hm, (lower_strip_ascii _ Hx).
    unfold strip.
    rewrite (strip_with_map lower_ascii is_space _ is_space_lower_ascii).
    rewrite strip_with_idempotent.
    symmetry. apply strip_with_map. exact is_space_lower_ascii. }
  unfold get_marker_color, normalise_cultura. cbn [py_str].
  now rewrite E.
Qed.

(** The legend has one line for each distinct crop of the column, in
    strictly increasing order of the names. *)
Theorem legend_lists_each_crop_once_in_order (column : list str) :
  Sorted.StronglySorted str_lt (culturas column)
  /\ (forall c, In c (culturas column) <-> In c column)
  /\ legend_lines lower_ext column
     = flat_map
         (fun c => legend_line (get_marker_color lower_ext (CellStr c)) c)
         (culturas column).
Proof.
  unfold culturas. split; [|split].
  - apply py_sorted_sorted. apply unique_from_nodup.
  - intros c. rewrite py_sorted_in. unfold unique.
    rewrite unique_from_in. cbn [In]. tauto.
  - unfold legend_lines, culturas.
    now rewrite fold_left_app_flat_map.
Qed.

End ColorProperties.

(** ** [get_logo_base64] *)

Lemma list_ind3 {A} (P : list A -> Prop) :
  P [] -> (forall a, P [a]) -> (forall a b, P [a; b]) ->
  (forall a b c r, P r -> P (a :: b :: c :: r)) ->
  forall l, P l.
Proof.
  intros H0 H1 H2 H3. fix IH 1.
  intros [|a [|b [|c r]]]; [exact H0 | apply H1 | apply H2 |].
  apply H3, IH.
Qed.

Lemma byte_value_range (b : Byte.byte) : 0 <= byte_value b <= 255.
Proof.
  unfold byte_value. pose proof (Byte.to_N_bounded b). lia.
Qed.

Lemma b64_char_ok (n : Z) : 0 <= n < 64 -> is_b64_char (b64_char n) = true.
Proof.
  intros H. unfold b64_char, is_b64_char, in_range.
  destruct (n <? 26) eqn:E1; [lia|].
  destruct (n <? 52) eqn:E2; [lia|].
  destruct (n <? 62) eqn:E3; [lia|].
  destruct (n =? 62) eqn:E4; reflexivity.
Qed.

Lemma is_b64_char_ascii (c : char) :
  is_b64_char c = true -> (c <? 128) = true.
Proof. unfold is_b64_char, in_range. lia. Qed.

Lemma b64encode_chars (data : list Byte.byte) :
  forallb is_b64_char (b64encode data) = true.
Proof.
  induction data as [|a|a b|a b c r IH] using list_ind3;
    cbn [b64encode forallb]; [reflexivity | | |].
  - pose proof (byte_value_range a).
    rewrite !b64_char_ok; [reflexivity | |].
    + apply Z.mod_pos_bound. lia.
    + split; [apply Z.div_pos; lia | apply Z.div_lt_upper_bound; lia].
  - pose proof (byte_value_range a). pose proof (byte_value_range b).
    rewrite !b64_char_ok; [reflexivity | | |];
      try (apply Z.mod_pos_bound; lia).
    split; [apply Z.div_pos; lia | apply Z.div_lt_upper_bound; lia].
  - pose proof (byte_value_range a). pose proof (byte_value_range b).
    pose proof (byte_value_range c).
    rewrite IH, !b64_char_ok; [reflexivity | | | |];
      try (apply Z.mod_pos_bound; lia).
    split; [apply Z.div_pos; lia | apply Z.div_lt_upper_bound; lia].
Qed.

Lemma b64encode_length (data : list Byte.byte) :
  Z.of_nat (List.length (b64encode data))
  = 4 * ((Z.of_nat (List.length data) + 2) / 3).
Proof.
  induction data as [|a|a b|a b c r IH] using list_ind3;
    [reflexivity | reflexivity | reflexivity |].
  cbn [b64encode]. cbn [List.length]. rewrite !Nat2Z.inj_succ, IH.
  replace (Z.succ (Z.succ (Z.succ (Z.of_nat (List.length r)))) + 2)
    with (Z.of_nat (List.length r) + 2 + 1 * 3) by lia.
  rewrite Z.div_add by lia. lia.
Qed.

Lemma utf8_decode_ascii (data : list Z) :
  forallb (fun c => c <? 128) data = true -> utf8_decode data = Ok data.
Proof.
  induction data as [|b data IH]; [reflexivity|].
  cbn [forallb utf8_decode]. intros H.
  apply andb_true_iff in H as [-> H]. now rewrite (IH H).
Qed.

Section LogoProperties.

Variable read_bytes : str -> result (list Byte.byte).

(** When the file is read, the logo text is the base64 text of its bytes,
    four characters of the base64 alphabet for every three bytes begun:
    decoding that text as UTF-8 never fails.  When reading fails, that
    error is the one raised. *)
Theorem logo_text_is_base64 (path_logo : str) :
  match read_bytes path_logo with
  | Ok data =>
      get_logo_base64 read_bytes path_logo = Ok (b64encode data)
      /\ Z.of_nat (List.length (b64encode data))
         = 4 * ((Z.of_nat (List.length data) + 2) / 3)
      /\ forallb is_b64_char (b64encode data) = true
  | Raise e => get_logo_base64 read_bytes path_logo = Raise e
  end.
Proof.
  unfold get_logo_base64.
  destruct (read_bytes path_logo) as [data|e]; cbn [bind]; [|reflexivity].
  split; [|split].
  - apply utf8_decode_ascii.
    apply (forallb_impl is_b64_char); [exact is_b64_char_ascii|].
    apply b64encode_chars.
  - apply b64encode_length.
  - apply b64encode_chars.
Qed.

End LogoProperties.
(** ** The breakdown by state *)

Lemma split_from_absent (piece s : str) :
  contains (lit ": ") s = false ->
  split_from (lit ": ") O piece s = [piece ++ s].
Proof.
  revert piece. induction s as [|c s IH]; intros piece H.
  - now rewrite app_nil_r.
  - cbn [contains] in H. apply orb_false_iff in H as [H1 H2].
    cbn [split_from]. rewrite H1, (IH _ H2), <- app_assoc. reflexivity.
Qed.

Lemma split_from_first (piece a rest : str) :
  contains (lit ": ") a = false ->
  split_from (lit ": ") O piece (a ++ lit ": " ++ rest)
  = (piece ++ a) :: split_from (lit ": ") O [] rest.
Proof.
  revert piece. induction a as [|c a IH]; intros piece H.
  - rewrite app_nil_r. reflexivity.
  - cbn [contains] in H. apply orb_false_iff in H as [H1 H2].
    cbn [app split_from].
    assert (E : starts_with (lit ": ") (c :: a ++ lit ": " ++ rest) = false).
    { change (lit ": ") with [58; 32] in *.
      cbn [starts_with] in *.
      destruct a as [|d a]; cbn [app starts_with] in *.
      - change (32 =? 58) with false. now rewrite andb_false_r.
      - exact H1. }
    rewrite E. change (c :: a ++ lit ": " ++ rest) with
      ((c :: a) ++ lit ": " ++ rest) in E.
    rewrite (IH _ H2), <- app_assoc. reflexivity.
Qed.

Lemma digits_no_separator (s : str) :
  forallb is_ascii_digit s = true -> contains (lit ": ") s = false.
Proof.
  induction s as [|c s IH]; [reflexivity|].
  cbn [forallb]. intros H. apply andb_true_iff in H as [Hc Hs].
  cbn [contains]. rewrite (IH Hs), orb_false_r.
  change (lit ": ") with [58; 32]. cbn [starts_with].
  unfold is_ascii_digit, in_range in Hc.
  destruct (58 =? c) eqn:E; [lia | reflexivity].
Qed.

Lemma int_digits_digits (prev : char) (s : str) :
  s <> [] -> forallb is_ascii_digit s = true -> int_digits prev s = Some s.
Proof.
  intros Hne. revert prev. induction s as [|c s IH]; [contradiction|].
  intros prev H. cbn [forallb] in H. apply andb_true_iff in H as [Hc Hs].
  cbn [int_digits]. rewrite Hc.
  assert ((c =? 95) = false) as ->
    by (unfold is_ascii_digit, in_range in Hc; lia).
  destruct s as [|d s].
  - cbn [int_digits]. now rewrite (proj2 (Z.eqb_neq c 95)) by
      (unfold is_ascii_digit, in_range in Hc; lia).
  - rewrite IH; [reflexivity | discriminate | exact Hs].
Qed.

Lemma digits_value_acc (u : Decimal.uint) (acc : positive) :
  fold_left (fun acc c => acc * 10 + (c - 48)) (uint_chars u) (Zpos acc)
  = Zpos (Pos.of_uint_acc u acc).
Proof.
  revert acc. induction u; intros acc; cbn [uint_chars fold_left Pos.of_uint_acc];
    [reflexivity| | | | | | | | | |];
    rewrite <- IHu; f_equal; lia.
Qed.

Lemma digits_value_uint (u : Decimal.uint) :
  digits_value (uint_chars u) = Z.of_N (Pos.of_uint u).
Proof.
  unfold digits_value.
  induction u; cbn [uint_chars fold_left Pos.of_uint]; [reflexivity|exact IHu| | | | | | | | |];
    cbn [Z.of_N]; rewrite <- digits_value_acc; reflexivity.
Qed.

Lemma digits_value_nat_digits (n : Z) :
  0 <= n -> digits_value (nat_digits n) = n.
Proof.
  destruct n as [|p|p]; intros H; [reflexivity | | lia].
  cbn [nat_digits]. rewrite digits_value_uint, DecimalPos.Unsigned.of_to.
  reflexivity.
Qed.

Lemma length_uint_chars (u : Decimal.uint) :
  List.length (uint_chars u) = Decimal.nb_digits u.
Proof. induction u; cbn [uint_chars List.length Decimal.nb_digits]; congruence. Qed.

Lemma nb_digits_double (d : Decimal.uint) :
  (Decimal.nb_digits (Decimal.Little.double d) <= S (Decimal.nb_digits d))%nat
  /\ (Decimal.nb_digits (Decimal.Little.succ_double d)
      <= S (Decimal.nb_digits d))%nat.
Proof.
  induction d as [|d [IH1 IH2]|d [IH1 IH2]|d [IH1 IH2]|d [IH1 IH2]
                  |d [IH1 IH2]|d [IH1 IH2]|d [IH1 IH2]|d [IH1 IH2]
                  |d [IH1 IH2]|d [IH1 IH2]];
    cbn [Decimal.Little.double Decimal.Little.succ_double Decimal.nb_digits];
    split; lia.
Qed.

Lemma nb_digits_little (p : positive) :
  2 ^ Z.of_nat (Decimal.nb_digits (Pos.to_little_uint p)) <= 2 * Zpos p.
Proof.
  induction p as [p IH|p IH|]; cbn [Pos.to_little_uint].
  - destruct (nb_digits_double (Pos.to_little_uint p)) as [_ H].
    transitivity (2 ^ Z.of_nat (S (Decimal.nb_digits (Pos.to_little_uint p)))).
    + apply Z.pow_le_mono_r; lia.
    + rewrite Nat2Z.inj_succ, Z.pow_succ_r by lia. lia.
  - destruct (nb_digits_double (Pos.to_little_uint p)) as [H _].
    transitivity (2 ^ Z.of_nat (S (Decimal.nb_digits (Pos.to_little_uint p)))).
    + apply Z.pow_le_mono_r; lia.
    + rewrite Nat2Z.inj_succ, Z.pow_succ_r by lia. lia.
  - cbn. lia.
Qed.

Lemma length_nat_digits (n : Z) :
  0 <= n < 2 ^ 63 -> Z.of_nat (List.length (nat_digits n)) <= 640.
Proof.
  destruct n as [|p|p]; intros H; [cbn; lia | | lia].
  cbn [nat_digits]. unfold Pos.to_uint.
  rewrite length_uint_chars, DecimalFacts.nb_digits_rev.
  pose proof (nb_digits_little p) as Hp.
  set (k := Z.of_nat _) in *.
  destruct (Z.le_gt_cases k 640) as [|Hk]; [assumption|].
  assert (2 ^ 64 <= 2 ^ k) by (apply Z.pow_le_mono_r; lia).
  change (2 ^ 64) with (2 * 2 ^ 63) in *. lia.
Qed.

Lemma fold_left_add (l : list Z) (acc : Z) :
  fold_left Z.add l acc = acc + fold_left Z.add l 0.
Proof.
  revert acc. induction l as [|x l IH]; intros acc; cbn [fold_left]; [lia|].
  rewrite (IH (acc + x)), (IH (0 + x)). lia.
Qed.

Lemma sum_cons (x : Z) (l : list Z) : sum (x :: l) = x + sum l.
Proof. unfold sum. cbn [fold_left]. now rewrite fold_left_add. Qed.

Lemma mapM_map_ok {A B C} (f : B -> result C) (g : A -> B) (h : A -> C)
    (l : list A) :
  (forall a, In a l -> f (g a) = Ok (h a)) ->
  mapM f (map g l) = Ok (map h l).
Proof.
  induction l as [|a l IH]; intros H; [reflexivity|].
  cbn [map mapM]. rewrite (H a (or_introl eq_refl)). cbn [bind].
  rewrite IH by (intros b Hb; apply H; now right). reflexivity.
Qed.

Lemma lookup_map {A} (f : str -> A) (key : str) (keys : list str) :
  lookup key (map (fun k => (k, f k)) keys)
  = if existsb (str_eqb key) keys then Some (f key) else None.
Proof.
  induction keys as [|k keys IH]; [reflexivity|].
  cbn [map lookup existsb].
  destruct (str_eqb k key) eqn:E.
  - apply str_eqb_eq in E. subst k.
    now rewrite (proj2 (str_eqb_eq key key) eq_refl).
  - destruct (str_eqb key k) eqn:E'.
    + apply str_eqb_eq in E'. subst k.
      now rewrite (proj2 (str_eqb_eq key key) eq_refl) in E.
    + exact IH.
Qed.

Lemma strongly_sorted_nodup (l : list str) :
  Sorted.StronglySorted str_lt l -> NoDup l.
Proof.
  induction 1 as [|x l Hs IH Hx]; constructor; [|exact IH].
  intros Hin. rewrite Forall_forall in Hx. specialize (Hx x Hin).
  unfold str_lt in Hx. now rewrite str_ltb_irrefl in Hx.
Qed.

Lemma culturas_nodup (l : list str) : NoDup (culturas l).
Proof.
  apply strongly_sorted_nodup, py_sorted_sorted, unique_from_nodup.
Qed.

Lemma culturas_in (x : str) (l : list str) : In x (culturas l) <-> In x l.
Proof.
  unfold culturas, unique. rewrite py_sorted_in, unique_from_in.
  cbn [In]. tauto.
Qed.

Lemma unique_in (x : str) (l : list str) : In x (unique l) <-> In x l.
Proof. unfold unique. rewrite unique_from_in. cbn [In]. tauto. Qed.

(** The groups of one state among the groups of all. *)
Lemma filter_flat_map_key {A} (f : str -> list A) (key_of : A -> str)
    (key : str) (keys : list str) :
  NoDup keys -> In key keys ->
  (forall k a, In a (f k) -> key_of a = k) ->
  filter (fun a => str_eqb (key_of a) key) (flat_map f keys) = f key.
Proof.
  intros Hn Hin Hk.
  assert (Hall : forall k, filter (fun a => str_eqb (key_of a) key) (f k)
                           = if str_eqb k key then f k else []).
  { intros k. destruct (str_eqb k key) eqn:E.
    - apply str_eqb_eq in E. subst k.
      rewrite <- (filter_ext_in (fun _ => true)).
      + clear. induction (f key) as [|a l IH]; [reflexivity|].
        cbn [filter]. now rewrite IH.
      + intros a Ha. symmetry. apply str_eqb_eq. now apply Hk.
    - rewrite <- (filter_ext_in (fun _ => false)).
      + clear. induction (f k) as [|a l IH]; [reflexivity|]. exact IH.
      + intros a Ha. rewrite (Hk k a Ha). now rewrite E. }
  induction Hn as [|k keys Hnot Hn IH]; [contradiction|].
  cbn [flat_map]. rewrite filter_app, Hall.
  destruct Hin as [->|Hin].
  - rewrite (proj2 (str_eqb_eq key key) eq_refl).
    assert (E : filter (fun a => str_eqb (key_of a) key) (flat_map f keys)
                = []).
    { clear IH Hn. induction keys as [|k keys IH]; [reflexivity|].
      cbn [flat_map]. rewrite filter_app, Hall.
      destruct (str_eqb k key) eqn:E.
      - apply str_eqb_eq in E. subst k. exfalso. apply Hnot. now left.
      - apply IH. intros H. apply Hnot. now right. }
    rewrite E. apply app_nil_r.
  - destruct (str_eqb k key) eqn:E.
    + apply str_eqb_eq in E. subst k. contradiction.
    + now apply IH.
Qed.

Lemma count_key_once (x : str) (keys : list str) :
  NoDup keys -> In x keys -> List.length (filter (str_eqb x) keys) = 1%nat.
Proof.
  induction 1 as [|k keys Hnot Hn IH]; [contradiction|].
  intros Hin. cbn [filter].
  destruct (str_eqb x k) eqn:E.
  - apply str_eqb_eq in E. subst k. cbn [List.length]. f_equal.
    clear - Hnot. induction keys as [|k keys IH]; [reflexivity|].
    cbn [filter]. destruct (str_eqb x k) eqn:E.
    + apply str_eqb_eq in E. subst k. exfalso. apply Hnot. now left.
    + apply IH. intros H. apply Hnot. now right.
  - destruct Hin as [->|Hin]; [|now apply IH].
    now rewrite (proj2 (str_eqb_eq x x) eq_refl) in E.
Qed.

Lemma group_sizes_cons {A} (key_of : A -> str) (keys : list str)
    (a : A) (l : list A) :
  sum (map (fun k => Z.of_nat
                       (List.length
                          (filter (fun x => str_eqb (key_of x) k) (a :: l))))
         keys)
  = Z.of_nat (List.length (filter (str_eqb (key_of a)) keys))
    + sum (map (fun k => Z.of_nat
                           (List.length
                              (filter (fun x => str_eqb (key_of x) k) l)))
             keys).
Proof.
  induction keys as [|k keys IH]; [reflexivity|].
  cbn [map]. rewrite !sum_cons, IH. cbn [filter].
  destruct (str_eqb (key_of a) k); cbn [List.length]; lia.
Qed.

(** Counting by key: the sizes of the groups add up to the whole. *)
Lemma group_sizes_add_up {A} (key_of : A -> str) (keys : list str)
    (l : list A) :
  NoDup keys -> (forall a, In a l -> In (key_of a) keys) ->
  sum (map (fun k => Z.of_nat
                       (List.length
                          (filter (fun a => str_eqb (key_of a) k) l)))
         keys)
  = Z.of_nat (List.length l).
Proof.
  intros Hn. induction l as [|a l IH]; intros Hin.
  - clear. induction keys as [|k keys IH]; [reflexivity|].
    cbn [map]. rewrite sum_cons, IH. reflexivity.
  - rewrite group_sizes_cons, IH by (intros b Hb; apply Hin; now right).
    rewrite (count_key_once _ _ Hn (Hin a (or_introl eq_refl))).
    cbn [List.length]. lia.
Qed.

Lemma filter_length_le {A} (p : A -> bool) (l : list A) :
  (List.length (filter p l) <= List.length l)%nat.
Proof.
  induction l as [|a l IH]; [reflexivity|]. cbn [filter].
  destruct (p a); cbn [List.length]; lia.
Qed.

Lemma count_of_range (df : list map_row) (state cultura : str) :
  0 <= count_of df state cultura <= Z.of_nat (List.length df).
Proof.
  unfold count_of, rows_of_state.
  pose proof (filter_length_le (fun r => str_eqb (row_CULTURA r) cultura)
                (filter (fun r => str_eqb (row_Estado r) state) df)).
  pose proof (filter_length_le (fun r => str_eqb (row_Estado r) state) df).
  lia.
Qed.

Lemma breakdown_states (df : list map_row) (id : str) :
  In id (map group_Estado (breakdown_group df)) <-> In id (map row_Estado df).
Proof.
  unfold breakdown_group. rewrite in_map_iff. split.
  - intros (g & <- & Hg). apply in_flat_map in Hg as (st & Hst & Hg).
    apply in_map_iff in Hg as (c & <- & _). unfold group_Estado. cbn [fst].
    exact (proj1 (culturas_in _ _) Hst).
  - intros Hin. pose proof Hin as Hin'.
    apply in_map_iff in Hin' as (r & Er & Hr).
    exists (id, row_CULTURA r, count_of df id (row_CULTURA r)).
    split; [reflexivity|].
    apply in_flat_map. exists id.
    split; [exact (proj2 (culturas_in _ _) Hin)|].
    apply in_map_iff. exists (row_CULTURA r). split; [reflexivity|].
    apply (proj2 (culturas_in _ _)). apply in_map. unfold rows_of_state.
    apply filter_In. split; [exact Hr|]. now apply str_eqb_eq.
Qed.

Lemma breakdown_lookup (df : list map_row) (id : str) :
  lookup id (breakdown_dict df)
  = if existsb (str_eqb id) (map row_Estado df)
    then Some (map (fun c => breakdown_line (id, c, count_of df id c))
                 (culturas (map row_CULTURA (rows_of_state df id))))
    else None.
Proof.
  unfold breakdown_dict.
  rewrite (lookup_map
             (fun state =>
                map breakdown_line
                  (filter (fun g => str_eqb (group_Estado g) state)
                     (breakdown_group df)))).
  assert (E : existsb (str_eqb id)
                (unique (map group_Estado (breakdown_group df)))
              = existsb (str_eqb id) (map row_Estado df)).
  { apply eq_iff_eq_true.
    now rewrite !existsb_str_eqb, unique_in, breakdown_states. }
  rewrite E. clear E.
  destruct (existsb (str_eqb id) (map row_Estado df)) eqn:Hin;
    [|reflexivity].
  apply existsb_str_eqb in Hin. f_equal.
  unfold breakdown_group at 1.
  rewrite (filter_flat_map_key
             (fun state =>
                map (fun cultura =>
                       (state, cultura, count_of df state cultura))
                  (py_sorted
                     (unique (map row_CULTURA (rows_of_state df state)))))
             group_Estado id).
  - now rewrite map_map.
  - apply culturas_nodup.
  - exact (proj2 (culturas_in _ _) Hin).
  - intros k a Ha. apply in_map_iff in Ha as (c & <- & _). reflexivity.
Qed.

Section BreakdownProperties.

Variable U : Unicode.
Variable max_str_digits : Z.

Lemma traverse_to_ascii_low (s : str) :
  forallb (fun c => c <? 127) s = true -> traverse (to_ascii U) s = Some s.
Proof.
  induction s as [|c s IH]; [reflexivity|].
  cbn [forallb traverse]. intros H. apply andb_true_iff in H as [Hc Hs].
  rewrite (IH Hs). unfold to_ascii. now rewrite Hc.
Qed.

Lemma int_of_str_nat_digits (n : Z) :
  0 <= n < 2 ^ 63 -> int_of_str U max_str_digits (nat_digits n) = Ok n.
Proof.
  intros Hn. pose proof (nat_digits_digits n) as Hd.
  unfold int_of_str.
  rewrite traverse_to_ascii_low
    by (apply (forallb_impl is_ascii_digit); [|exact Hd];
        unfold is_ascii_digit, in_range; intros; lia).
  rewrite strip_with_none
    by (apply (forallb_impl is_ascii_digit); [|exact Hd];
        intros a Ha; unfold is_ascii_digit, in_range in Ha;
        unfold is_ascii_space, in_range;
        destruct ((9 <=? a) && (a <=? 13)) eqn:E1;
        destruct (a =? 32) eqn:E2; cbn [orb negb]; lia).
  pose proof (length_nat_digits n Hn) as Hlen.
  pose proof (digits_value_nat_digits n (proj1 Hn)) as Hv.
  destruct (nat_digits n) as [|c r] eqn:E.
  - destruct n; discriminate || (cbn in E;
      now destruct (DecimalPos.Unsigned.to_uint_nonnil p)
        || (destruct (Pos.to_uint p); discriminate)).
  - pose proof Hd as Hd'. cbn [forallb] in Hd'.
    apply andb_true_iff in Hd' as [Hc _].
    unfold split_sign.
    assert ((c =? 45) = false) as ->
      by (unfold is_ascii_digit, in_range in Hc; lia).
    assert ((c =? 43) = false) as ->
      by (unfold is_ascii_digit, in_range in Hc; lia).
    rewrite int_digits_digits by (discriminate || exact Hd).
    assert ((640 <? Z.of_nat (List.length (c :: r))) = false) as -> by lia.
    cbn [andb]. now rewrite Hv.
Qed.

Lemma line_count_first (a rest : str) :
  contains (lit ": ") a = false ->
  line_count U max_str_digits (a ++ lit ": " ++ rest)
  = int_of_str U max_str_digits
      (hd [] (split_from (lit ": ") O [] rest)).
Proof.
  intros Ha. unfold line_count, split.
  rewrite (split_from_first [] a rest Ha).
  destruct (split_from (lit ": ") 0 [] rest) as [|p ps] eqn:E.
  - exfalso. clear - E. revert E. generalize (@nil char) at 1.
    generalize O.
    induction rest as [|c rest IH]; intros k piece; cbn [split_from].
    + discriminate.
    + destruct k; [|apply IH].
      destruct (starts_with _ _); [discriminate | apply IH].
  - reflexivity.
Qed.

Lemma line_count_breakdown_line (state cultura : str) (n : Z) :
  contains (lit ": ") cultura = false -> 0 <= n < 2 ^ 63 ->
  line_count U max_str_digits (breakdown_line (state, cultura, n)) = Ok n.
Proof.
  intros Hc Hn. unfold breakdown_line, group_CULTURA, group_Count.
  cbn [fst snd]. rewrite (line_count_first _ _ Hc).
  unfold int_str. assert ((n <? 0) = false) as -> by lia.
  rewrite split_from_absent
    by (apply digits_no_separator, nat_digits_digits).
  cbn [hd app]. now apply int_of_str_nat_digits.
Qed.

(** When no crop name of a state contains the separator of the breakdown
    lines, the total shown for the state is the number of its rows (for a
    frame of fewer than 2^63 rows). *)
Theorem state_total_is_row_count (df : list map_row) (estado_id : str) :
  Z.of_nat (List.length df) < 2 ^ 63 ->
  (forall r, In r df -> row_Estado r = estado_id ->
             contains (lit ": ") (row_CULTURA r) = false) ->
  In estado_id (map row_Estado df) ->
  exists lines,
    lookup estado_id (breakdown_dict df) = Some lines
    /\ total_of U max_str_digits lines
       = Ok (Z.of_nat (List.length (rows_of_state df estado_id)))
    /\ observacoes U max_str_digits df estado_id
       = Ok (table_open
             ++ lit "<tr><th>" ++ nome_estado estado_id ++ lit " - TOTAL: "
             ++ int_str (Z.of_nat (List.length (rows_of_state df estado_id)))
             ++ lit "</th></tr>"
             ++ flat_map table_row lines
             ++ lit "</table>").
Proof.
  intros Hlen Hsep Hin.
  pose proof (breakdown_lookup df estado_id) as Hl.
  rewrite (proj2 (existsb_str_eqb _ _) Hin) in Hl.
  eexists. split; [exact Hl|].
  assert (Ht : total_of U max_str_digits
                 (map (fun c => breakdown_line
                                  (estado_id, c, count_of df estado_id c))
                    (culturas
                       (map row_CULTURA (rows_of_state df estado_id))))
               = Ok (Z.of_nat (List.length (rows_of_state df estado_id)))).
  { unfold total_of.
    rewrite (mapM_map_ok _ _ (count_of df estado_id)).
    - cbn [bind]. f_equal.
      rewrite <- (List.length_map row_CULTURA) at 1.
      unfold count_of.
      rewrite (group_sizes_add_up row_CULTURA _
                 (rows_of_state df estado_id)).
      + now rewrite List.length_map.
      + apply culturas_nodup.
      + intros r Hr. apply (proj2 (culturas_in _ _)). now apply in_map.
    - intros c Hc. apply line_count_breakdown_line.
      + apply (proj1 (culturas_in _ _)) in Hc.
        apply in_map_iff in Hc as (r & <- & Hr).
        unfold rows_of_state in Hr. apply filter_In in Hr as [Hr E].
        apply str_eqb_eq in E. now apply Hsep.
      + pose proof (count_of_range df estado_id c). lia. }
  split; [exact Ht|].
  unfold observacoes. rewrite Hl, Ht. reflexivity.
Qed.

(** A feature is given the text without data exactly when no row of the
    frame has its identifier as the state. *)
Theorem no_data_iff_no_row (df : list map_row) (estado_id : str) :
  observacoes U max_str_digits df estado_id
  = Ok (table_open ++ lit "<tr><td>" ++ nome_estado estado_id
        ++ lit " - Sem dados</td></tr></table>")
  <-> ~ In estado_id (map row_Estado df).
Proof.
  unfold observacoes. rewrite breakdown_lookup.
  destruct (existsb _ _) eqn:E.
  - apply existsb_str_eqb in E. split; [|tauto].
    intros H. exfalso.
    destruct (total_of _ _ _) as [total|e]; cbn [bind] in H;
      [|discriminate].
    injection H as H. discriminate H.
  - split; [|reflexivity]. intros _ Hin.
    apply existsb_str_eqb in Hin. congruence.
Qed.

(** A crop name that contains the separator is read back in place of its
    count: the number taken from the line is the text between the first
    separator and the next. *)
Theorem crop_with_separator_is_misread (state a b : str) (n : Z) :
  contains (lit ": ") a = false -> contains (lit ": ") b = false ->
  line_count U max_str_digits
    (breakdown_line (state, a ++ lit ": " ++ b, n))
  = int_of_str U max_str_digits b.
Proof.
  intros Ha Hb. unfold breakdown_line, group_CULTURA, group_Count.
  cbn [fst snd]. rewrite <- !app_assoc.
  rewrite (line_count_first _ _ Ha).
  now rewrite (split_from_first [] b _ Hb).
Qed.

End BreakdownProperties.

(** ** The theorems at concrete inputs *)

Lemma regional_default_witness :
  no_marker ascii_only (normalise ascii_only (lit "21.4755")) = true
  /\ forall r, parse_coordinate ascii_only (VStr (lit "21.4755")) true
               = Ok (Some r) ->
               (0 <? r)%float = false /\ (r <=? 0)%float = true.
Proof.
  split; [vm_compute; reflexivity|].
  destruct (regional_default ascii_only (lit "21.4755") true)
    as (_ & H & _); [vm_compute; reflexivity | exact H].
Defined.

(** C3, as stated, fails on a number: the integer 200 is returned as the
    float 200.0 for a latitude, above 90. *)
Lemma number_input_is_not_range_checked :
  parse_coordinate ascii_only (VInt 200) true = Ok (Some 200%float)
  /\ in_axis_range true 200 = false.
Proof. split; vm_compute; reflexivity. Qed.

Lemma range_validation_witness :
  parse_coordinate ascii_only (VStr (lit "21.4755")) true
    = Ok (Some (-21.4755)%float)
  /\ in_axis_range true (-21.4755) = true.
Proof.
  split; [vm_compute; reflexivity|].
  destruct (range_validation ascii_only (lit "21.4755") true (-21.4755)%float)
    as (H & _); [vm_compute; reflexivity | exact H].
Defined.

(** C6, as stated, fails on this string: the letter N stands alone at its
    end, an explicit marker of the North, and the value returned is
    negative; the letter S, the first that stands alone, decides. *)
Lemma north_after_south_is_negative :
  normalise ascii_only (lit "S 10 N") = lit "S 10 " ++ [78]
  /\ stands_alone ascii_only (lit "S 10 ") 78 []
  /\ parse_coordinate ascii_only (VStr (lit "S 10 N")) true
     = Ok (Some (-10)%float)
  /\ (0 <=? -10)%float = false.
Proof.
  unfold stands_alone. repeat split; vm_compute; reflexivity.
Qed.

Lemma hemisphere_dominance_witness :
  marker ascii_only (normalise ascii_only (lit "-21.5 N")) North
  /\ parse_coordinate ascii_only (VStr (lit "-21.5 N")) true
     = Ok (Some 21.5%float)
  /\ (0 <=? 21.5)%float = true.
Proof.
  assert (Hm : marker ascii_only (normalise ascii_only (lit "-21.5 N"))
                 North).
  { apply marker_N.
    - unfold no_word_marker. repeat split; vm_compute; reflexivity.
    - apply first_standalone_search. vm_compute. reflexivity. }
  split; [exact Hm|]. split; [vm_compute; reflexivity|].
  destruct (hemisphere_dominance ascii_only (lit "-21.5 N") true North
              21.5%float Hm) as (_ & H & _);
    [vm_compute; reflexivity | exact H].
Defined.


Lemma sul_is_substring_marker_witness :
  contains SUL (normalise ascii_only (lit "2sul1.5")) = true
  /\ find_hemisphere ascii_only (normalise ascii_only (lit "2sul1.5"))
     = (Some South, replace SUL [] (normalise ascii_only (lit "2sul1.5"))).
Proof.
  split; [vm_compute; reflexivity|].
  destruct (sul_is_substring_marker ascii_only (lit "2sul1.5") true)
    as (H & _); [vm_compute; reflexivity .. | exact H].
Defined.

(** C2, as stated, fails on this row: the identifier is in the table, the
    latitude parses to 21.4755 North, outside the box, and the frame is
    empty: the row is dropped before any correction is applied. *)
Lemma override_does_not_resurrect :
  In 2520025827 (map fst correcoes)
  /\ parse_coordinate ascii_only (VStr (lit "21.4755 N")) true
     = Ok (Some 21.4755%float)
  /\ carregar_dados ascii_only
       [ {| raw_NUMERO_PI := 2520025827; raw_UF := CellStr (lit "MS");
            raw_Latitude := CellStr (lit "21.4755 N");
            raw_Longitude := CellStr (lit "-56.1495") |} ] = Ok [].
Proof. repeat split; [now left | vm_compute; reflexivity ..]. Qed.

Lemma override_precedence_witness :
  exists out,
    carregar_dados ascii_only
      [ {| raw_NUMERO_PI := 2520025827; raw_UF := CellStr (lit "ms");
           raw_Latitude := CellStr (lit "-20.0");
           raw_Longitude := CellStr (lit "-55.0") |} ] = Ok out
    /\ In {| fields := {| NUMERO_PI := 2520025827; UF := lit "MS";
                          Latitude := Some (-21.4755)%float;
                          Longitude := Some (-56.1495)%float |};
             Estado := lit "BRMS" |} out.
Proof.
  destruct (override_precedence ascii_only
              [ {| raw_NUMERO_PI := 2520025827; raw_UF := CellStr (lit "ms");
                   raw_Latitude := CellStr (lit "-20.0");
                   raw_Longitude := CellStr (lit "-55.0") |} ]
              {| raw_NUMERO_PI := 2520025827; raw_UF := CellStr (lit "ms");
                 raw_Latitude := CellStr (lit "-20.0");
                 raw_Longitude := CellStr (lit "-55.0") |}
              (-21.4755)%float (-56.1495)%float)
    as (out & H1 & H2 & _).
  - now left.
  - now left.
  - vm_compute. reflexivity.
  - exists out. split; [exact H1 | exact H2].
Defined.

(** C4, as stated, fails on this string: the numeral ["+21.4755"] carries an
    explicit sign and denotes 21.4755, inside the range of a latitude; it is
    returned negated. *)
Lemma plus_decimal_is_negated :
  float_of_str ascii_only (lit "+21.4755") = Ok 21.4755%float
  /\ in_axis_range true 21.4755 = true
  /\ parse_coordinate ascii_only (VStr (lit "+21.4755")) true
     = Ok (Some (-21.4755)%float)
  /\ (-21.4755 =? 21.4755)%float = false
  /\ (abs (-21.4755 - 21.4755) <? 42)%float = false.
Proof. repeat split; vm_compute; reflexivity. Qed.

Lemma minus_decimal_unchanged_witness :
  exists r,
    parse_coordinate ascii_only (VStr (lit "-21.4755")) true = Ok (Some r)
    /\ (r =? -21.4755)%float = true
    /\ ((-21.4755 <? 0)%float = true -> r = (-21.4755)%float).
Proof.
  apply (minus_decimal_unchanged ascii_only (lit "21.4755") true
           (-21.4755)%float); vm_compute; reflexivity.
Defined.

(** C5, as stated, fails on this sheet: a row at 3.5 degrees North survives
    with latitude 3.5; the sheet that holds the frame returned has the text
    ["3.5"] for it, which the second run reads as -3.5. *)
Lemma revalidation_flips_north :
  carregar_dados ascii_only
    [ {| raw_NUMERO_PI := 1; raw_UF := CellStr (lit "RR");
         raw_Latitude := CellStr (lit "3.5 N");
         raw_Longitude := CellStr (lit "-60.5") |} ]
  = Ok [ {| fields := {| NUMERO_PI := 1; UF := lit "RR";
                         Latitude := Some 3.5%float;
                         Longitude := Some (-60.5)%float |};
            Estado := lit "BRRR" |} ]
  /\ float_repr 3.5 = lit "3.5"
  /\ carregar_dados ascii_only
       (sheet_of
          [ {| fields := {| NUMERO_PI := 1; UF := lit "RR";
                            Latitude := Some 3.5%float;
                            Longitude := Some (-60.5)%float |};
               Estado := lit "BRRR" |} ])
     = Ok [ {| fields := {| NUMERO_PI := 1; UF := lit "RR";
                            Latitude := Some (-3.5)%float;
                            Longitude := Some (-60.5)%float |};
               Estado := lit "BRRR" |} ]
  /\ (3.5 =? -3.5)%float = false.
Proof. repeat split; vm_compute; reflexivity. Qed.

Lemma revalidation_witness :
  exists out',
    carregar_dados ascii_only
      (sheet_of
         [ {| fields := {| NUMERO_PI := 1; UF := lit "MS";
                           Latitude := Some (-20.5)%float;
                           Longitude := Some (-55.25)%float |};
              Estado := lit "BRMS" |} ]) = Ok out'
    /\ Forall2 same_coordinates
         [ {| fields := {| NUMERO_PI := 1; UF := lit "MS";
                           Latitude := Some (-20.5)%float;
                           Longitude := Some (-55.25)%float |};
              Estado := lit "BRMS" |} ] out'.
Proof.
  apply (revalidation ascii_only
           [ {| raw_NUMERO_PI := 1; raw_UF := CellStr (lit "ms");
                raw_Latitude := CellStr (lit "20.5 S");
                raw_Longitude := CellStr (lit "-55.25") |} ]).
  - vm_compute. reflexivity.
  - constructor; [|constructor].
    intros lat lon [= <-] [= <-].
    repeat split; vm_compute; reflexivity.
Defined.

(** ** The further properties at concrete inputs *)

Lemma ascii_case_is_ignored_witness :
  map ascii_upper (lit "21.5 s") = map ascii_upper (lit "21.5 S")
  /\ parse_coordinate ascii_only (VStr (lit "21.5 s")) true
     = parse_coordinate ascii_only (VStr (lit "21.5 S")) true.
Proof.
  split; [reflexivity|].
  apply (ascii_case_is_ignored ascii_only (lit "21.5 s") (lit "21.5 S") true).
  reflexivity.
Defined.

Lemma surrounding_whitespace_is_ignored_witness :
  forallb is_space (lit "  ") = true /\ forallb is_space [newline] = true
  /\ parse_coordinate ascii_only
       (VStr (lit "  " ++ lit "21.5 S" ++ [newline])) true
     = parse_coordinate ascii_only (VStr (lit "21.5 S")) true.
Proof.
  split; [reflexivity|]. split; [reflexivity|].
  apply (surrounding_whitespace_is_ignored ascii_only (lit "  ")
           (lit "21.5 S") [newline] true); reflexivity.
Defined.

Lemma frame_rows_come_from_sheet_witness :
  carregar_dados ascii_only [example_empty_row; example_row]
  = Ok [example_frame_row]
  /\ subsequence (map (fun o => NUMERO_PI (fields o)) [example_frame_row])
       (map raw_NUMERO_PI [example_empty_row; example_row])
  /\ (List.length [example_frame_row]
      <= List.length [example_empty_row; example_row])%nat.
Proof.
  assert (H : carregar_dados ascii_only [example_empty_row; example_row]
              = Ok [example_frame_row]) by (vm_compute; reflexivity).
  split; [exact H|].
  exact (frame_rows_come_from_sheet ascii_only
           [example_empty_row; example_row] [example_frame_row] H).
Defined.

Lemma uncorrected_row_is_parsed_witness :
  carregar_dados ascii_only [example_row] = Ok [example_frame_row]
  /\ In example_frame_row [example_frame_row]
  /\ ~ In (NUMERO_PI (fields example_frame_row)) (map fst correcoes)
  /\ exists r,
       In r [example_row]
       /\ raw_NUMERO_PI r = NUMERO_PI (fields example_frame_row)
       /\ parse_coordinate ascii_only (VStr (py_str (raw_Latitude r))) true
          = Ok (Latitude (fields example_frame_row))
       /\ parse_coordinate ascii_only (VStr (py_str (raw_Longitude r))) false
          = Ok (Longitude (fields example_frame_row))
       /\ Estado example_frame_row
          = lit "BR" ++ upper ascii_only (strip (py_str (raw_UF r))).
Proof.
  assert (H : carregar_dados ascii_only [example_row]
              = Ok [example_frame_row]) by (vm_compute; reflexivity).
  assert (Hid : ~ In (NUMERO_PI (fields example_frame_row))
                  (map fst correcoes))
    by (unfold correcoes; cbn [map fst In example_frame_row fields NUMERO_PI];
        lia).
  split; [exact H|]. split; [now left|]. split; [exact Hid|].
  exact (uncorrected_row_is_parsed ascii_only [example_row]
           [example_frame_row] example_frame_row H (or_introl eq_refl) Hid).
Defined.

Lemma empty_cell_row_is_dropped_witness :
  (raw_Latitude example_empty_row = CellFloat nan
   \/ raw_Longitude example_empty_row = CellFloat nan)
  /\ carregar_dados ascii_only ([example_row] ++ example_empty_row :: [])
     = carregar_dados ascii_only ([example_row] ++ []).
Proof.
  split; [now left|].
  apply (empty_cell_row_is_dropped ascii_only [example_row] []
           example_empty_row).
  now left.
Defined.

Lemma newest_sheet_is_returned_witness :
  encontrar_planilha example_glob example_getctime (lit "dir")
  = Ok (Some (lit "dir/Relatorio Gerencial 2.xlsx"))
  /\ exists c,
       example_getctime (lit "dir/Relatorio Gerencial 2.xlsx") = Ok c
       /\ forall padrao l x xc,
            In padrao padroes -> example_glob (lit "dir") padrao = Ok l ->
            In x l -> example_getctime x = Ok xc ->
            (c <? xc)%float = false.
Proof.
  split; [vm_compute; reflexivity|].
  apply (newest_sheet_is_returned example_glob example_getctime (lit "dir")
           (lit "dir/Relatorio Gerencial 2.xlsx")).
  vm_compute. reflexivity.
Defined.

Lemma marker_color_ignores_case_and_padding_witness :
  is_ascii (py_str (CellStr (lit " SOJA "))) = true
  /\ is_ascii (py_str (CellStr (lit "Soja"))) = true
  /\ get_marker_color lower_ascii_only (CellStr (lit " SOJA "))
     = get_marker_color lower_ascii_only (CellStr (lit "Soja")).
Proof.
  split; [reflexivity|]. split; [reflexivity|].
  apply (marker_color_ignores_case_and_padding lower_ascii_only
           (CellStr (lit " SOJA ")) (CellStr (lit "Soja")));
    reflexivity.
Defined.

Lemma marker_color_of_normalised_crop_witness :
  is_ascii (py_str (CellStr (lit " mILHO safrinha"))) = true
  /\ normalise_cultura lower_ascii_only title_ascii_only
       (CellStr (lit " mILHO safrinha")) = lit "Milho safrinha"
  /\ get_marker_color lower_ascii_only
       (CellStr
          (normalise_cultura lower_ascii_only title_ascii_only
             (CellStr (lit " mILHO safrinha"))))
     = get_marker_color lower_ascii_only (CellStr (lit " mILHO safrinha")).
Proof.
  split; [reflexivity|]. split; [reflexivity|].
  apply (marker_color_of_normalised_crop lower_ascii_only title_ascii_only
           (CellStr (lit " mILHO safrinha"))).
  reflexivity.
Defined.

Lemma state_total_is_row_count_witness :
  Z.of_nat (List.length example_frame) < 2 ^ 63
  /\ In (lit "BRSP") (map row_Estado example_frame)
  /\ exists lines,
       lookup (lit "BRSP") (breakdown_dict example_frame) = Some lines
       /\ total_of ascii_only 4300 lines = Ok 2.
Proof.
  split; [reflexivity|]. split; [now left|].
  destruct (state_total_is_row_count ascii_only 4300 example_frame
              (lit "BRSP")) as (lines & H1 & H2 & _).
  - reflexivity.
  - intros r [<-|[<-|[<-|[]]]] _; reflexivity.
  - now left.
  - exists lines. split; [exact H1 | exact H2].
Defined.

Lemma crop_with_separator_is_misread_witness :
  contains (lit ": ") (lit "Milho") = false
  /\ contains (lit ": ") (lit "7") = false
  /\ line_count ascii_only 4300
       (breakdown_line (lit "BRPR", lit "Milho" ++ lit ": " ++ lit "7", 1))
     = Ok 7.
Proof.
  split; [reflexivity|]. split; [reflexivity|].
  rewrite (crop_with_separator_is_misread ascii_only 4300 (lit "BRPR")
             (lit "Milho") (lit "7") 1); reflexivity.
Defined.
